(** * Verification of the cifra MAC / AEAD thunks of VbAsyncSocket

    Shallow embedding of
    - the Poly1305 engine (17 limbs in radix 2^8, [uint32_t] limbs),
    - the ChaCha20-Poly1305 composition ([process]),
    - the GHASH context and the GCM composition ([cf_gcm_encrypt],
      [cf_gcm_decrypt]).

    Conventions.  A [uint8_t] is a [Z] in [0, 2^8); a [uint32_t] is a [Z] in
    [0, 2^32) and every arithmetic operation of the C code on it is followed
    by an explicit wrap [u32].  Arrays are lists, [a[i]] is [nth i a 0] and
    the store [a[i] = v] is [store a i v].  A [for] loop over indices is a
    [fold_left] over [seq].  An [assert] that fails aborts the program,
    which is the result [None]. *)

From Stdlib Require Import ZArith List Lia Bool Arith.
Import ListNotations.
Local Open Scope Z_scope.

(** ** Machine integers and arrays *)

Definition u8 (z : Z) : Z := z mod 2 ^ 8.
Definition u32 (z : Z) : Z := z mod 2 ^ 32.
Definition u64 (z : Z) : Z := z mod 2 ^ 64.

Definition is_u8 (z : Z) : Prop := 0 <= z < 2 ^ 8.
Definition is_u32 (z : Z) : Prop := 0 <= z < 2 ^ 32.

(** [a[i] = v]; the C code never stores out of range. *)
Definition store {A} (a : list A) (i : nat) (v : A) : list A :=
  if (i <? length a)%nat then firstn i a ++ v :: skipn (S i) a else a.

(** [memcpy(dst + off, src, length src)] *)
Definition memcpy_at (dst : list Z) (off : nat) (src : list Z) : list Z :=
  firstn off dst ++ src ++ skipn (off + length src) dst.

(** [memset(dst + off, 0, n)] *)
Definition memset0_at (dst : list Z) (off n : nat) : list Z :=
  memcpy_at dst off (repeat 0 n).

(** [mem_clean(v, len)]: zero the first [len] bytes. *)
Definition mem_clean (v : list Z) (len : nat) : list Z :=
  if (0 <? len)%nat then memset0_at v 0 len else v.

(** Little-endian value of a limb / byte array in radix 2^8. *)
Fixpoint value (l : list Z) : Z :=
  match l with
  | [] => 0
  | x :: l' => x + 256 * value l'
  end.

(** ** Streaming block accumulator *)

Module Blockwise.
Section Accumulate.
Context {S : Type}.
Variable process : S -> list Z -> S.

(** The loop over whole blocks taken directly from the input. *)
Fixpoint whole_blocks (fuel nblock : nat) (bufin : list Z) (ctx : S)
  : list Z * S :=
  match fuel with
  | O => (bufin, ctx)
  | Datatypes.S fuel' =>
      if (nblock <=? length bufin)%nat
      then whole_blocks fuel' nblock (skipn nblock bufin)
             (process ctx (firstn nblock bufin))
      else (bufin, ctx)
  end.

(** Modelled from the spec: [cf_blockwise_accumulate] (blockwise.c is not
    part of the sources).  Given a buffer of capacity [nblock] holding
    [npartial] bytes and a new chunk, it (a) tops up the buffer and invokes
    the callback once if the buffer becomes full, (b) processes every
    further whole block directly from the input, (c) buffers the final
    remainder.  The callback never sees a partial block.  The contract
    [npartial < nblock] is an assertion. *)
Definition cf_blockwise_accumulate
    (partial : list Z) (npartial nblock : nat) (inp : list Z) (ctx : S)
  : option (list Z * nat * S) :=
  if negb (npartial <? nblock)%nat then None else
  let '(partial, npartial, bufin, ctx) :=
    if ((0 <? npartial) && (0 <? length inp))%nat then
      let space := (nblock - npartial)%nat in
      let taken := Nat.min space (length inp) in
      let partial := memcpy_at partial npartial (firstn taken inp) in
      let bufin := skipn taken inp in
      let npartial := (npartial + taken)%nat in
      if (npartial =? nblock)%nat
      then (partial, O, bufin, process ctx (firstn nblock partial))
      else (partial, npartial, bufin, ctx)
    else (partial, npartial, inp, ctx) in
  let '(bufin, ctx) := whole_blocks (length bufin) nblock bufin ctx in
  let partial := memcpy_at partial npartial bufin in
  Some (partial, (npartial + length bufin)%nat, ctx).
End Accumulate.
End Blockwise.

(** ** Poly1305 *)

Module Poly1305.

Record cf_poly1305 := mk_poly1305 {
  h : list Z;          (* uint32_t h[17] *)
  r : list Z;          (* uint32_t r[17] *)
  s : list Z;          (* uint8_t s[16] *)
  partial : list Z;    (* uint8_t partial[16] *)
  npartial : nat       (* size_t npartial *)
}.

(** Produce 0xffffffff if x == y, zero otherwise, without branching. *)
Definition mask_u32 (x y : Z) : Z :=
  let diff := Z.lxor x y in
  let diff_is_zero := Z.land (u32 (Z.lnot diff)) (u32 (diff - 1)) in
  u32 (- (Z.shiftr diff_is_zero 31)).

Definition cf_poly1305_init (r_ s_ : list Z) : cf_poly1305 :=
  let b i := nth i r_ 0 in
  {| h := repeat 0 17;
     r := [ b 0%nat; b 1%nat; b 2%nat; Z.land (b 3%nat) 0x0f;
            Z.land (b 4%nat) 0xfc; b 5%nat; b 6%nat; Z.land (b 7%nat) 0x0f;
            Z.land (b 8%nat) 0xfc; b 9%nat; b 10%nat; Z.land (b 11%nat) 0x0f;
            Z.land (b 12%nat) 0xfc; b 13%nat; b 14%nat; Z.land (b 15%nat) 0x0f;
            0 ];
     s := firstn 16 s_;
     partial := repeat 0 16;
     npartial := 0 |}.

(** One iteration of a carry chain: [carry += v; x[i] = carry & 0xff;
    carry >>= 8]. *)
Definition carry_step (st : list Z * Z) (i : nat) (v : Z) : list Z * Z :=
  let '(x, carry) := st in
  let carry := u32 (carry + v) in
  (store x i (Z.land carry 0xff), Z.shiftr carry 8).

Definition poly1305_add (h x : list Z) : list Z :=
  let '(h, _) :=
    fold_left (fun st i =>
                 carry_step st i (u32 (nth i (fst st) 0 + nth i x 0)))
              (seq 0 17) (h, 0) in
  h.

(** Minimal reduction/carry chain. *)
Definition poly1305_min_reduce (x : list Z) : list Z :=
  let '(x, carry) :=
    fold_left (fun st i => carry_step st i (nth i (fst st) 0))
              (seq 0 16) (x, 0) in
  (* 2 bits of carry are put into top word; remaining bits get multiplied
     by 5 and carried back into bottom *)
  let carry := u32 (carry + nth 16 x 0) in
  let x := store x 16 (Z.land carry 0x03) in
  let carry := u32 (5 * Z.shiftr carry 2) in
  let '(x, carry) :=
    fold_left (fun st i => carry_step st i (nth i (fst st) 0))
              (seq 0 16) (x, carry) in
  store x 16 (u32 (nth 16 x 0 + carry)).

(** This is - (2 ** 130 - 5) in twos complement. *)
Definition negative_1305 : list Z :=
  [0x05; 0; 0; 0; 0; 0; 0; 0; 0; 0; 0; 0; 0; 0; 0; 0; 0xfc].

Definition poly1305_full_reduce (x : list Z) : list Z :=
  let xsub :=
    fold_left (fun xsub i => store xsub i (nth i x 0)) (seq 0 17)
              (repeat 0 17) in
  let xsub := poly1305_add xsub negative_1305 in
  let negative_mask := mask_u32 (Z.land (nth 16 xsub 0) 0x80) 0x80 in
  let positive_mask := Z.lxor negative_mask 0xffffffff in
  fold_left (fun x i =>
               store x i (Z.lor (Z.land (nth i x 0) negative_mask)
                                (Z.land (nth i xsub 0) positive_mask)))
            (seq 0 17) x.

(** Column [i] of the product, with the columns above 2^136 folded back
    (times 5 << 6). *)
Definition mul_column (x y : list Z) (i : nat) : Z :=
  let accum :=
    fold_left (fun accum j =>
                 u32 (accum + u32 (nth j x 0 * nth (i - j) y 0)))
              (seq 0 (i + 1)) 0 in
  fold_left (fun accum j =>
               u32 (accum + u32 (u32 (Z.shiftl 5 6 * nth j x 0)
                                 * nth (i + 17 - j) y 0)))
            (seq (i + 1) (17 - (i + 1))) accum.

Definition poly1305_mul (x y : list Z) : list Z :=
  let r :=
    fold_left (fun r i => store r i (mul_column x y i)) (seq 0 17)
              (repeat 0 17) in
  let r := poly1305_min_reduce r in
  fold_left (fun x i => store x i (nth i r 0)) (seq 0 17) x.

Definition poly1305_block (ctx : cf_poly1305) (c : list Z) : cf_poly1305 :=
  let h1 := poly1305_add (h ctx) c in
  let h2 := poly1305_mul h1 (r ctx) in
  {| h := h2; r := r ctx; s := s ctx;
     partial := partial ctx; npartial := npartial ctx |}.

(** The 17 limbs built by [poly1305_whole_block] from a 16-byte buffer. *)
Definition whole_block_limbs (buf : list Z) : list Z :=
  let c :=
    fold_left (fun c i => store c i (nth i buf 0)) (seq 0 16)
              (repeat 0 17) in
  store c 16 1.

Definition poly1305_whole_block (ctx : cf_poly1305) (buf : list Z)
  : cf_poly1305 :=
  poly1305_block ctx (whole_block_limbs buf).

(** The 17 limbs built by [poly1305_last_block] from the pending bytes. *)
Definition last_block_limbs (partial : list Z) (npartial : nat) : list Z :=
  let c :=
    fold_left (fun c i => store c i (nth i partial 0)) (seq 0 npartial)
              (repeat 0 17) in
  store c npartial 1.

Definition poly1305_last_block (ctx : cf_poly1305) : cf_poly1305 :=
  poly1305_block ctx (last_block_limbs (partial ctx) (npartial ctx)).

Definition cf_poly1305_update (ctx : cf_poly1305) (buf : list Z)
  : option cf_poly1305 :=
  match Blockwise.cf_blockwise_accumulate poly1305_whole_block
          (partial ctx) (npartial ctx) 16 buf ctx with
  | None => None
  | Some (partial', npartial', ctx') =>
      Some {| h := h ctx'; r := r ctx'; s := s ctx';
              partial := partial'; npartial := npartial' |}
  end.

(** Returns the 16-byte tag and the wiped context. *)
Definition cf_poly1305_finish (ctx : cf_poly1305) : list Z * cf_poly1305 :=
  let ctx := if (npartial ctx =? 0)%nat then ctx
             else poly1305_last_block ctx in
  let s17 :=
    store (fold_left (fun s17 i => store s17 i (nth i (s ctx) 0)) (seq 0 16)
                     (repeat 0 17)) 16 0 in
  let h1 := poly1305_full_reduce (h ctx) in
  let h2 := poly1305_add h1 s17 in
  let out := map (fun i => u8 (nth i h2 0)) (seq 0 16) in
  (out, {| h := repeat 0 17; r := repeat 0 17; s := repeat 0 16;
           partial := repeat 0 16; npartial := 0 |}).

(** One-shot MAC over a list of chunks. *)
Definition updates (ctx : cf_poly1305) (chunks : list (list Z))
  : option cf_poly1305 :=
  fold_left (fun o c => match o with
                        | Some ctx => cf_poly1305_update ctx c
                        | None => None
                        end) chunks (Some ctx).

End Poly1305.

(** ** Helpers shared by the two AEAD constructions *)

(** Returns 1 if len bytes at va equal len bytes at vb, 0 if they do not.
    The loop always runs over all [len] bytes. *)
Definition mem_eq (a b : list Z) (len : nat) : Z :=
  let diff :=
    fold_left (fun diff i =>
                 u8 (Z.lor diff (Z.lxor (nth i a 0) (nth i b 0))))
              (seq 0 len) 0 in
  if diff =? 0 then 1 else 0.

(** Encode v as a 64-bit little endian quantity into buf. *)
Definition write64_le (v : Z) : list Z :=
  [ Z.land v 0xff;
    Z.land (Z.shiftr v 8) 0xff;
    Z.land (Z.shiftr v 16) 0xff;
    Z.land (Z.shiftr v 24) 0xff;
    Z.land (Z.shiftr v 32) 0xff;
    Z.land (Z.shiftr v 40) 0xff;
    Z.land (Z.shiftr v 48) 0xff;
    Z.land (Z.shiftr v 56) 0xff ].

(** Modelled from the spec: [write64_be] (bitops.h is not part of the
    sources), the 8-byte big-endian encoding used for the GHASH length
    block. *)
Definition write64_be (v : Z) : list Z := rev (write64_le v).

(** Modelled from the spec: [xor_bb] (bitops.h is not part of the sources):
    [out[i] = x[i] ^ y[i]] for [i < len]. *)
Definition xor_bb (out x y : list Z) (len : nat) : list Z :=
  memcpy_at out 0
    (map (fun i => Z.lxor (nth i x 0) (nth i y 0)) (seq 0 len)).

(** [#define PADLEN(x) ((16 - ((x) & 0xf)) & 0xf)] *)
Definition PADLEN (x : nat) : nat :=
  Z.to_nat (Z.land (16 - Z.land (Z.of_nat x) 0xf) 0xf).

Definition bind {A B} (o : option A) (f : A -> option B) : option B :=
  match o with
  | Some a => f a
  | None => None
  end.

Notation "x <- o ;; k" := (bind o (fun x => k))
  (at level 61, o at next level, right associativity).
Notation "' p <- o ;; k" := (bind o (fun p => k))
  (at level 61, p pattern, o at next level, right associativity).

(** ** ChaCha20-Poly1305 *)

Module ChaChaPoly.

Import Poly1305.

Definition ENCRYPT : Z := 1.
Definition DECRYPT : Z := 0.
Definition SUCCESS : Z := 0.
Definition FAILURE : Z := 1.

Record cf_chacha20_ctx := mk_chacha {
  key : list Z;
  nonce : list Z;
  ncounter : nat;
  pos : nat           (* bytes of key stream consumed so far *)
}.

(** The calls [process] makes, in program order. *)
Inductive event :=
| KeyStream (n : nat)                 (* cipher run over the [polykey] scratch *)
| MacInit (r_ s_ : list Z)            (* cf_poly1305_init *)
| MacInput (data : list Z)            (* cf_poly1305_update *)
| MacFinish (tag : list Z)            (* cf_poly1305_finish *)
| Cipher (input output : list Z)      (* cipher run from [input] to [output] *)
| TagCompare (computed supplied : list Z) (equal : Z)   (* mem_eq *)
| Erase (n : nat).                    (* mem_clean(output, nbytes) *)

Record result := mk_result {
  ret : Z;
  output : list Z;       (* the caller's output buffer after the call *)
  tag : list Z;          (* the caller's tag buffer after the call *)
  chacha_final : cf_chacha20_ctx;   (* local [chacha] at return *)
  polykey_final : list Z;           (* local [polykey] at return *)
  trace : list event
}.

Section Process.

(** The ChaCha20 key stream is outside the verified core:
    [chacha20_keystream key nonce ncounter i] is byte [i] of the stream for
    the 16-byte counter/nonce block [nonce] whose first [ncounter] bytes are
    the counter. *)
Variable chacha20_keystream : list Z -> list Z -> nat -> nat -> Z.

(** Modelled from the spec: [cf_chacha20_init_custom] (chacha20.c is not
    part of the sources). *)
Definition cf_chacha20_init_custom (key_ : list Z) (nkey : nat)
    (nonce_ : list Z) (ncounter_ : nat) : cf_chacha20_ctx :=
  {| key := firstn nkey key_; nonce := firstn 16 nonce_;
     ncounter := ncounter_; pos := 0 |}.

(** Modelled from the spec: [cf_chacha20_cipher] (chacha20.c is not part of
    the sources): the output is the key stream XOR the input, and the stream
    position advances by the number of bytes processed. *)
Definition cf_chacha20_cipher (ctx : cf_chacha20_ctx) (input : list Z)
  : cf_chacha20_ctx * list Z :=
  ({| key := key ctx; nonce := nonce ctx; ncounter := ncounter ctx;
      pos := pos ctx + length input |},
   map (fun i =>
          Z.lxor (nth i input 0)
                 (chacha20_keystream (key ctx) (nonce ctx) (ncounter ctx)
                                     (pos ctx + i)))
       (seq 0 (length input))).

(** [mem_clean(&chacha, sizeof chacha)] *)
Definition chacha_clean (ctx : cf_chacha20_ctx) : cf_chacha20_ctx :=
  {| key := repeat 0 (length (key ctx)); nonce := repeat 0 16;
     ncounter := 0; pos := 0 |}.

Definition process (key_ nonce_ header input output_ : list Z) (mode : Z)
    (tag_ : list Z) : option result :=
  let nheader := length header in
  let nbytes := length input in
  (* First, generate the Poly1305 key by running ChaCha20 with the given
     key and a zero counter.  The first half of the 64-byte output is the
     key. *)
  let fullnonce := memcpy_at (repeat 0 16) 4 (firstn 12 nonce_) in
  let polykey := repeat 0 32 in
  let chacha := cf_chacha20_init_custom key_ 32 fullnonce 4 in
  let '(chacha, polykey) := cf_chacha20_cipher chacha polykey in
  let log := [KeyStream 32] in
  (* Now initialise Poly1305. *)
  let poly := cf_poly1305_init polykey (skipn 16 polykey) in
  let log := log ++ [MacInit (firstn 16 polykey) (skipn 16 polykey)] in
  let polykey := mem_clean polykey 32 in
  (* Discard next 32 bytes of chacha20 key stream. *)
  let '(chacha, polykey) := cf_chacha20_cipher chacha polykey in
  let log := log ++ [KeyStream 32] in
  let polykey := mem_clean polykey 32 in
  let padbuf := repeat 0 16 in
  (* AAD || pad(AAD) *)
  poly <- cf_poly1305_update poly header ;;
  let log := log ++ [MacInput header] in
  poly <- cf_poly1305_update poly (firstn (PADLEN nheader) padbuf) ;;
  let log := log ++ [MacInput (firstn (PADLEN nheader) padbuf)] in
  (* || cipher *)
  '(chacha, output_, poly, log) <-
    (if mode =? ENCRYPT then
       (* If we're encrypting, we compute the ciphertext before inputting
          it into the MAC. *)
       let '(chacha, c) := cf_chacha20_cipher chacha input in
       let output_ := memcpy_at output_ 0 c in
       let log := log ++ [Cipher input c] in
       poly <- cf_poly1305_update poly (firstn nbytes output_) ;;
       Some (chacha, output_, poly,
             log ++ [MacInput (firstn nbytes output_)])
     else
       (* Otherwise: decryption -- input the ciphertext.  Delay actual
          decryption until we checked the MAC. *)
       poly <- cf_poly1305_update poly input ;;
       Some (chacha, output_, poly, log ++ [MacInput input])) ;;
  (* || pad(cipher) *)
  poly <- cf_poly1305_update poly (firstn (PADLEN nbytes) padbuf) ;;
  let log := log ++ [MacInput (firstn (PADLEN nbytes) padbuf)] in
  (* || len_64(aad) || len_64(cipher) *)
  let padbuf := memcpy_at padbuf 0 (write64_le (u64 (Z.of_nat nheader))) in
  let padbuf := memcpy_at padbuf 8 (write64_le (u64 (Z.of_nat nbytes))) in
  poly <- cf_poly1305_update poly (firstn 16 padbuf) ;;
  let log := log ++ [MacInput (firstn 16 padbuf)] in
  (* MAC computation is now complete. *)
  if mode =? ENCRYPT then
    let '(t, poly) := cf_poly1305_finish poly in
    let log := log ++ [MacFinish t] in
    Some {| ret := SUCCESS; output := output_;
            tag := memcpy_at tag_ 0 t;
            chacha_final := chacha_clean chacha;
            polykey_final := polykey;
            trace := log |}
  else
    (* Decrypt mode: calculate tag, and check it.  If it's correct, proceed
       with decryption. *)
    let '(checktag, poly) := cf_poly1305_finish poly in
    let log := log ++ [MacFinish checktag] in
    let eq := mem_eq checktag tag_ 16 in
    let log := log ++ [TagCompare checktag (firstn 16 tag_) eq] in
    if negb (eq =? 0) then
      let '(chacha, p) := cf_chacha20_cipher chacha input in
      let output_ := memcpy_at output_ 0 p in
      let log := log ++ [Cipher input p] in
      Some {| ret := SUCCESS; output := output_; tag := tag_;
              chacha_final := chacha_clean chacha;
              polykey_final := polykey;
              trace := log |}
    else
      let output_ := mem_clean output_ nbytes in
      let log := log ++ [Erase nbytes] in
      Some {| ret := FAILURE; output := output_; tag := tag_;
              chacha_final := chacha_clean chacha;
              polykey_final := polykey;
              trace := log |}.

Definition cf_chacha20poly1305_encrypt
    (key_ nonce_ header plaintext ciphertext tag_ : list Z) : option result :=
  process key_ nonce_ header plaintext ciphertext ENCRYPT tag_.

Definition cf_chacha20poly1305_decrypt
    (key_ nonce_ header ciphertext tag_ plaintext : list Z) : option result :=
  let ourtag := memcpy_at (repeat 0 16) 0 (firstn 16 tag_) in
  process key_ nonce_ header ciphertext plaintext DECRYPT ourtag.

End Process.
End ChaChaPoly.
(** ** GHASH and GCM *)

Module GCM.

Inductive ghash_state := STATE_INVALID | STATE_AAD | STATE_CIPHER.

Definition state_eqb (a b : ghash_state) : bool :=
  match a, b with
  | STATE_INVALID, STATE_INVALID => true
  | STATE_AAD, STATE_AAD => true
  | STATE_CIPHER, STATE_CIPHER => true
  | _, _ => false
  end.

(** Modelled from the spec: [incr_be] of the counter mode (modes.c is not
    part of the sources): the [width] bytes at [offset] are a big-endian
    counter, incremented modulo 256^width. *)
Definition incr_be (block : list Z) (offset width : nat) : list Z :=
  let field := firstn width (skipn offset block) in
  let v := (value (rev field) + 1) mod 256 ^ Z.of_nat width in
  memcpy_at block offset
    (rev (map (fun i => (v / 256 ^ Z.of_nat i) mod 256) (seq 0 width))).

(** The capabilities consumed by GCM; their implementations are outside
    the verified core.  [gf128] is the type of field elements ([cf_gf128]),
    with the conversions from and to 16 big-endian bytes, the addition and
    the two interchangeable multipliers; [supports_pclmulqdq] is the
    process-wide hardware query ([__cpuid] bit for PCLMULQDQ);
    [prp_encrypt] is the block cipher capability [prp->encrypt] with its
    context (the key): one 16-byte block in, one 16-byte block out. *)
Record capabilities := mk_capabilities {
  gf128 : Type;
  gf128_zero : gf128;        (* the all-zero [cf_gf128] left by memset *)
  cf_gf128_frombytes_be : list Z -> gf128;
  cf_gf128_tobytes_be : gf128 -> list Z;
  cf_gf128_add : gf128 -> gf128 -> gf128;
  cf_gf128_mul : gf128 -> gf128 -> gf128;
  cf_gf128_mul_fast : gf128 -> gf128 -> gf128;
  supports_pclmulqdq : bool;
  prp_encrypt : list Z -> list Z
}.

Section Gcm.

Context {E : capabilities}.

(** Incremental GHASH computation. *)
Record ghash_ctx := mk_ghash {
  H : gf128 E;
  Y : gf128 E;
  buffer : list Z;          (* uint8_t buffer[16] *)
  buffer_used : nat;
  len_aad : Z;              (* uint64_t *)
  len_cipher : Z;           (* uint64_t *)
  state : ghash_state;
  gf128_mul : gf128 E -> gf128 E -> gf128 E
}.

Definition set_buffer (ctx : ghash_ctx) (b : list Z) (n : nat) : ghash_ctx :=
  {| H := H ctx; Y := Y ctx; buffer := b; buffer_used := n;
     len_aad := len_aad ctx; len_cipher := len_cipher ctx;
     state := state ctx; gf128_mul := gf128_mul ctx |}.

Definition set_state (ctx : ghash_ctx) (st : ghash_state) : ghash_ctx :=
  {| H := H ctx; Y := Y ctx; buffer := buffer ctx;
     buffer_used := buffer_used ctx;
     len_aad := len_aad ctx; len_cipher := len_cipher ctx;
     state := st; gf128_mul := gf128_mul ctx |}.

Definition ghash_init (H_ : list Z) : ghash_ctx :=
  {| H := cf_gf128_frombytes_be E H_;
     Y := gf128_zero E;
     buffer := repeat 0 16;
     buffer_used := 0;
     len_aad := 0;
     len_cipher := 0;
     state := STATE_AAD;
     gf128_mul := if supports_pclmulqdq E then cf_gf128_mul_fast E
                  else cf_gf128_mul E |}.

Definition ghash_block (ctx : ghash_ctx) (data : list Z) : ghash_ctx :=
  let gfdata := cf_gf128_frombytes_be E data in
  let Y1 := cf_gf128_add E gfdata (Y ctx) in
  let Y2 := gf128_mul ctx Y1 (H ctx) in
  {| H := H ctx; Y := Y2; buffer := buffer ctx;
     buffer_used := buffer_used ctx;
     len_aad := len_aad ctx; len_cipher := len_cipher ctx;
     state := state ctx; gf128_mul := gf128_mul ctx |}.

Definition ghash_add (ctx : ghash_ctx) (buf : list Z) : option ghash_ctx :=
  '(buffer', used', ctx') <-
    Blockwise.cf_blockwise_accumulate ghash_block
      (buffer ctx) (buffer_used ctx) 16 buf ctx ;;
  Some (set_buffer ctx' buffer' used').

Definition ghash_add_pad (ctx : ghash_ctx) : ghash_ctx :=
  if (buffer_used ctx =? 0)%nat then ctx
  else
    let b := memset0_at (buffer ctx) (buffer_used ctx)
                        (16 - buffer_used ctx) in
    let ctx := set_buffer ctx b (buffer_used ctx) in
    let ctx := ghash_block ctx (firstn 16 b) in
    set_buffer ctx (buffer ctx) 0.

Definition ghash_add_aad (ctx : ghash_ctx) (buf : list Z)
  : option ghash_ctx :=
  if negb (state_eqb (state ctx) STATE_AAD) then None else
  let ctx :=
    {| H := H ctx; Y := Y ctx; buffer := buffer ctx;
       buffer_used := buffer_used ctx;
       len_aad := u64 (len_aad ctx + Z.of_nat (length buf));
       len_cipher := len_cipher ctx;
       state := state ctx; gf128_mul := gf128_mul ctx |} in
  ghash_add ctx buf.

Definition ghash_add_cipher (ctx : ghash_ctx) (buf : list Z)
  : option ghash_ctx :=
  let ctx :=
    if state_eqb (state ctx) STATE_AAD
    then set_state (ghash_add_pad ctx) STATE_CIPHER
    else ctx in
  if negb (state_eqb (state ctx) STATE_CIPHER) then None else
  let ctx :=
    {| H := H ctx; Y := Y ctx; buffer := buffer ctx;
       buffer_used := buffer_used ctx;
       len_aad := len_aad ctx;
       len_cipher := u64 (len_cipher ctx + Z.of_nat (length buf));
       state := state ctx; gf128_mul := gf128_mul ctx |} in
  ghash_add ctx buf.

(** Returns the context after finalisation and the 16 output bytes. *)
Definition ghash_final (ctx : ghash_ctx) : option (ghash_ctx * list Z) :=
  let ctx :=
    if state_eqb (state ctx) STATE_AAD || state_eqb (state ctx) STATE_CIPHER
    then set_state (ghash_add_pad ctx) STATE_INVALID
    else ctx in
  (* Add len(A) || len(C) *)
  let lenbuf := write64_be (u64 (len_aad ctx * 8)) in
  ctx <- ghash_add ctx lenbuf ;;
  let lenbuf := write64_be (u64 (len_cipher ctx * 8)) in
  ctx <- ghash_add ctx lenbuf ;;
  if negb (buffer_used ctx =? 0)%nat then None else
  Some (ctx, cf_gf128_tobytes_be E (Y ctx)).

(** *** Counter mode *)

Record cf_ctr := mk_ctr {
  nonce : list Z;            (* the current counter block *)
  counter_offset : nat;
  counter_width : nat;
  keymat : list Z;           (* the current key stream block *)
  nkeymat : nat              (* unused bytes left at the end of [keymat] *)
}.

(** Modelled from the spec: [cf_ctr_init] (modes.c is not part of the
    sources). *)
Definition cf_ctr_init (nonce_ : list Z) : cf_ctr :=
  {| nonce := firstn 16 nonce_; counter_offset := 0; counter_width := 16;
     keymat := repeat 0 16; nkeymat := 0 |}.

(** Modelled from the spec: [cf_ctr_custom_counter], a counter field of
    [width] bytes at [offset] that must reach the end of the block. *)
Definition cf_ctr_custom_counter (ctx : cf_ctr) (offset width : nat)
  : option cf_ctr :=
  if negb (16 <=? offset + width)%nat then None else
  Some {| nonce := nonce ctx; counter_offset := offset;
          counter_width := width;
          keymat := keymat ctx; nkeymat := nkeymat ctx |}.

(** Modelled from the spec: [cf_ctr_cipher].  Key stream block [k] is the
    encryption of the counter block after [k] increments; every input byte
    is XORed with the next unused key stream byte. *)
Fixpoint cf_ctr_cipher (ctx : cf_ctr) (input : list Z) : cf_ctr * list Z :=
  match input with
  | [] => (ctx, [])
  | b :: input' =>
      let ctx :=
        if (nkeymat ctx =? 0)%nat
        then {| nonce := incr_be (nonce ctx) (counter_offset ctx)
                                 (counter_width ctx);
                counter_offset := counter_offset ctx;
                counter_width := counter_width ctx;
                keymat := firstn 16 (prp_encrypt E (nonce ctx));
                nkeymat := 16 |}
        else ctx in
      let k := nth (16 - nkeymat ctx) (keymat ctx) 0 in
      let ctx := {| nonce := nonce ctx;
                    counter_offset := counter_offset ctx;
                    counter_width := counter_width ctx;
                    keymat := keymat ctx;
                    nkeymat := nkeymat ctx - 1 |} in
      let '(ctx, out) := cf_ctr_cipher ctx input' in
      (ctx, Z.lxor b k :: out)
  end.

(** *** The AEAD *)

(** The calls the two GCM entry points make, in program order. *)
Inductive event :=
| Subkey (H_ : list Z)                      (* prp->encrypt(0^128) *)
| HashAad (data : list Z)                   (* ghash_add_aad on the tag hash *)
| HashCipher (data : list Z)                (* ghash_add_cipher on the tag hash *)
| HashFinal (out : list Z)                  (* ghash_final on the tag hash *)
| NonceHash (data out : list Z)             (* the GHASH of a long nonce *)
| CtrInit (Y0 : list Z)                     (* cf_ctr_init *)
| CtrTagOffset (out : list Z)               (* cf_ctr_cipher over e_Y0 *)
| CtrPayload (input output : list Z)        (* cf_ctr_cipher over the payload *)
| TagCompare (computed supplied : list Z) (n : nat) (equal : Z).

Record enc_result := mk_enc {
  enc_cipher : list Z;      (* the caller's [cipher] buffer after the call *)
  enc_tag : list Z;         (* the caller's [tag] buffer after the call *)
  enc_trace : list event
}.

Record dec_result := mk_dec {
  dec_err : Z;
  dec_plain : list Z;       (* the caller's [plain] buffer after the call *)
  dec_trace : list event
}.

Definition cf_gcm_encrypt (plain header nonce_ cipher tag : list Z)
    (ntag : nat) : option enc_result :=
  let nplain := length plain in
  let nnonce := length nonce_ in
  (* H = E_K(0^128) *)
  let H_ := firstn 16 (prp_encrypt E (repeat 0 16)) in
  let log := [Subkey H_] in
  (* Produce CTR nonce, Y_0 *)
  '(Y0, log) <-
    (if (nnonce =? 12)%nat then
       let Y0 := memcpy_at (repeat 0 16) 0 nonce_ in
       let Y0 := store (store (store Y0 14 0x00) 13 0x00) 12 0x00 in
       let Y0 := store Y0 15 0x01 in
       Some (Y0, log)
     else
       let gh := ghash_init H_ in
       gh <- ghash_add_cipher gh nonce_ ;;
       '(gh, Y0) <- ghash_final gh ;;
       Some (Y0, log ++ [NonceHash nonce_ Y0])) ;;
  (* Hash AAD *)
  let gh := ghash_init H_ in
  gh <- ghash_add_aad gh header ;;
  let log := log ++ [HashAad header] in
  (* Produce ciphertext *)
  let e_Y0 := repeat 0 16 in
  let ctr := cf_ctr_init Y0 in
  let log := log ++ [CtrInit Y0] in
  ctr <- cf_ctr_custom_counter ctr 12 4 ;;   (* counter is 2^32 *)
  let '(ctr, o) := cf_ctr_cipher ctr e_Y0 in  (* first block is tag offset *)
  let log := log ++ [CtrTagOffset o] in
  let e_Y0 := o in
  let '(ctr, o) := cf_ctr_cipher ctr plain in
  let log := log ++ [CtrPayload plain o] in
  let cipher := memcpy_at cipher 0 o in
  (* Hash ciphertext *)
  gh <- ghash_add_cipher gh (firstn nplain cipher) ;;
  let log := log ++ [HashCipher (firstn nplain cipher)] in
  (* Post-process ghash output *)
  '(gh, full_tag) <- ghash_final gh ;;
  let log := log ++ [HashFinal full_tag] in
  if negb ((1 <? ntag)%nat && (ntag <=? 16)%nat) then None else
  let tag := xor_bb tag full_tag e_Y0 ntag in
  Some {| enc_cipher := cipher; enc_tag := tag; enc_trace := log |}.

Definition cf_gcm_decrypt (cipher header nonce_ tag : list Z) (ntag : nat)
    (plain : list Z) : option dec_result :=
  let ncipher := length cipher in
  let nnonce := length nonce_ in
  (* H = E_K(0^128) *)
  let H_ := firstn 16 (prp_encrypt E (repeat 0 16)) in
  let log := [Subkey H_] in
  (* Produce CTR nonce, Y_0 *)
  '(Y0, log) <-
    (if (nnonce =? 12)%nat then
       let Y0 := memcpy_at (repeat 0 16) 0 nonce_ in
       let Y0 := store (store (store Y0 14 0x00) 13 0x00) 12 0x00 in
       let Y0 := store Y0 15 0x01 in
       Some (Y0, log)
     else
       let gh := ghash_init H_ in
       gh <- ghash_add_cipher gh nonce_ ;;
       '(gh, Y0) <- ghash_final gh ;;
       Some (Y0, log ++ [NonceHash nonce_ Y0])) ;;
  (* Hash AAD. *)
  let gh := ghash_init H_ in
  gh <- ghash_add_aad gh header ;;
  let log := log ++ [HashAad header] in
  (* Start counter mode, to obtain offset on tag. *)
  let e_Y0 := repeat 0 16 in
  let ctr := cf_ctr_init Y0 in
  let log := log ++ [CtrInit Y0] in
  ctr <- cf_ctr_custom_counter ctr 12 4 ;;
  let '(ctr, o) := cf_ctr_cipher ctr e_Y0 in
  let log := log ++ [CtrTagOffset o] in
  let e_Y0 := o in
  (* Hash ciphertext. *)
  gh <- ghash_add_cipher gh cipher ;;
  let log := log ++ [HashCipher cipher] in
  (* Produce tag. *)
  '(gh, full_tag) <- ghash_final gh ;;
  let log := log ++ [HashFinal full_tag] in
  if negb ((1 <? ntag)%nat && (ntag <=? 16)%nat) then None else
  let full_tag := xor_bb full_tag full_tag e_Y0 ntag in
  let eq := mem_eq full_tag tag ntag in
  let log := log ++ [TagCompare (firstn ntag full_tag) (firstn ntag tag)
                                ntag eq] in
  if eq =? 0 then
    Some {| dec_err := 1; dec_plain := plain; dec_trace := log |}
  else
    (* Complete decryption. *)
    let '(ctr, o) := cf_ctr_cipher ctr cipher in
    let log := log ++ [CtrPayload cipher o] in
    let plain := memcpy_at plain 0 o in
    Some {| dec_err := 0; dec_plain := plain; dec_trace := log |}.

Definition AESGCM_IV_SIZE : nat := 12.
Definition AESGCM_TAG_SIZE : nat := 16.

(** [cf_aesgcm_encrypt] / [cf_aesgcm_decrypt]: the block cipher is the AES
    variant [cf_aes_ex_setup] selected; the nonce is the 12 bytes at [npub]
    and the tag has 16 bytes. *)
Definition cf_aesgcm_encrypt (c mac m ad npub : list Z)
  : option enc_result :=
  cf_gcm_encrypt m ad (firstn AESGCM_IV_SIZE npub) c mac AESGCM_TAG_SIZE.

Definition cf_aesgcm_decrypt (m c mac ad npub : list Z)
  : option dec_result :=
  cf_gcm_decrypt c ad (firstn AESGCM_IV_SIZE npub) mac AESGCM_TAG_SIZE m.

End Gcm.
End GCM.
(** * Specification-level definitions *)

Import Poly1305.

Definition p1305 : Z := 2 ^ 130 - 5.

Fixpoint chain (carry : Z) (vs : list Z) : list Z * Z :=
  match vs with
  | [] => ([], carry)
  | v :: vs' =>
      let c := u32 (carry + v) in
      let '(o, c') := chain (Z.shiftr c 8) vs' in
      (Z.land c 0xff :: o, c')
  end.

Fixpoint zip_add (h x : list Z) : list Z :=
  match h, x with
  | a :: h', b :: x' => u32 (a + b) :: zip_add h' x'
  | _, _ => []
  end.

Definition limbs_le (B : Z) (l : list Z) : Prop :=
  Forall (fun v => 0 <= v <= B) l.

(** No step of a carry chain leaves the [uint32_t] range. *)
Fixpoint chain_fits (carry : Z) (vs : list Z) : Prop :=
  match vs with
  | [] => True
  | v :: vs' => carry + v < 2 ^ 32 /\ chain_fits ((carry + v) / 256) vs'
  end.

(** The carry accumulator of [poly1305_min_reduce] never wraps on [x]: in
    the first chain, when limb 16 is added, when the overflow is multiplied
    by 5, and in the second chain. *)
Definition min_reduce_fits (x : list Z) : Prop :=
  chain_fits 0 (firstn 16 x)
  /\ let c := snd (chain 0 (firstn 16 x)) in
     let t := c + nth 16 x 0 in
     t < 2 ^ 32
     /\ 5 * (t / 4) < 2 ^ 32
     /\ chain_fits (5 * (t / 4)) (fst (chain 0 (firstn 16 x))).

Definition min_reduce_spec (x : list Z) : list Z :=
  let '(lo, c) := chain 0 (firstn 16 x) in
  let t := u32 (c + nth 16 x 0) in
  let '(lo', c') := chain (u32 (5 * Z.shiftr t 2)) lo in
  lo' ++ [u32 (Z.land t 0x03 + c')].

Fixpoint zip_select (nm pm : Z) (x xsub : list Z) : list Z :=
  match x, xsub with
  | a :: x', b :: xsub' =>
      Z.lor (Z.land a nm) (Z.land b pm) :: zip_select nm pm x' xsub'
  | _, _ => []
  end.

Definition zsum (f : nat -> Z) (js : list nat) : Z :=
  fold_right (fun j acc => f j + acc) 0 js.

(** Exact (unwrapped) column sums of the product. *)
Definition col_lo (x y : list Z) (i : nat) : Z :=
  zsum (fun j => nth j x 0 * nth (i - j) y 0) (seq 0 (i + 1)).
Definition col_hi (x y : list Z) (i : nat) : Z :=
  zsum (fun j => nth j x 0 * nth (i + 17 - j) y 0) (seq (i + 1) (17 - (i + 1))).

(** Limbs of an accumulator between blocks. *)
Definition h_ok (l : list Z) : Prop :=
  length l = 17%nat /\ limbs_le 255 (firstn 16 l) /\ 0 <= nth 16 l 0 <= 4.

(** All whole blocks of [data], with fuel that always suffices. *)
Definition run_blocks {S : Type} (process : S -> list Z -> S) (nblock : nat)
    (data : list Z) (ctx : S) : list Z * S :=
  Blockwise.whole_blocks process (length data) nblock data ctx.

(** Well-formed Poly1305 contexts: what [cf_poly1305_init] establishes and
    every update keeps. *)
Definition ctx_ok (ctx : cf_poly1305) : Prop :=
  h_ok (h ctx)
  /\ length (r ctx) = 17%nat /\ limbs_le 255 (r ctx)
  /\ length (s ctx) = 16%nat /\ limbs_le 255 (s ctx)
  /\ length (partial ctx) = 16%nat /\ limbs_le 255 (partial ctx)
  /\ (npartial ctx < 16)%nat.

(** The context on which the tag is computed: the pending partial block, if
    any, is absorbed first. *)
Definition absorb_pending (ctx : cf_poly1305) : cf_poly1305 :=
  if (npartial ctx =? 0)%nat then ctx else poly1305_last_block ctx.

(** The part of a Poly1305 context the block accumulator relies on. *)
Definition ctx_shape (ctx : cf_poly1305) : Prop :=
  length (partial ctx) = 16%nat /\ (npartial ctx < 16)%nat.

Import ChaChaPoly.

(** The chunks handed to [cf_poly1305_update], in order. *)
Definition mac_inputs (tr : list event) : list (list Z) :=
  flat_map (fun e => match e with MacInput d => [d] | _ => [] end) tr.

(** The events that run the cipher over the payload. *)
Definition is_payload_cipher (e : event) : bool :=
  match e with Cipher _ _ => true | _ => false end.

(** The five chunks of the MAC transcript for associated data [header] and
    ciphertext [c]. *)
Definition mac_chunks (header c : list Z) : list (list Z) :=
  [ header; repeat 0 (PADLEN (length header));
    c; repeat 0 (PADLEN (length c));
    write64_le (u64 (Z.of_nat (length header)))
      ++ write64_le (u64 (Z.of_nat (length c))) ].

(** The events of a run in the mode [encrypting], up to the end of the MAC
    computation. *)
Definition mac_phase_trace (pk header input c : list Z) (encrypting : bool)
  : list event :=
  [KeyStream 32; MacInit (firstn 16 pk) (skipn 16 pk); KeyStream 32;
   MacInput header; MacInput (repeat 0 (PADLEN (length header)))]
  ++ (if encrypting then [Cipher input c] else [])
  ++ [MacInput c; MacInput (repeat 0 (PADLEN (length c)));
      MacInput (write64_le (u64 (Z.of_nat (length header)))
                ++ write64_le (u64 (Z.of_nat (length c))))].

Section ChaChaSpec.
Variable ks : list Z -> list Z -> nat -> nat -> Z.

(** The cipher context after the one-time key has been drawn and the rest
    of key stream block 0 discarded. *)
Definition chacha_at_payload (key_ nonce_ : list Z) : cf_chacha20_ctx :=
  let fullnonce := memcpy_at (repeat 0 16) 4 (firstn 12 nonce_) in
  let c0 := cf_chacha20_init_custom key_ 32 fullnonce 4 in
  let c1 := fst (cf_chacha20_cipher ks c0 (repeat 0 32)) in
  fst (cf_chacha20_cipher ks c1 (repeat 0 32)).

(** The one-time Poly1305 key: key stream bytes 0..31. *)
Definition one_time_key (key_ nonce_ : list Z) : list Z :=
  let fullnonce := memcpy_at (repeat 0 16) 4 (firstn 12 nonce_) in
  let c0 := cf_chacha20_init_custom key_ 32 fullnonce 4 in
  snd (cf_chacha20_cipher ks c0 (repeat 0 32)).

(** The payload run of the cipher: key stream from byte 64 on. *)
Definition payload_xor (key_ nonce_ input : list Z) : list Z :=
  snd (cf_chacha20_cipher ks (chacha_at_payload key_ nonce_) input).

(** The tag [process] computes for associated data [header] and ciphertext
    [c]. *)
Definition mac_tag (key_ nonce_ header c : list Z) : list Z :=
  let pk := one_time_key key_ nonce_ in
  match updates (cf_poly1305_init pk (skipn 16 pk)) (mac_chunks header c) with
  | Some ctx => fst (cf_poly1305_finish ctx)
  | None => []
  end.

End ChaChaSpec.

(** ** GHASH / GCM *)

Module GcmSpec.
Import GCM.

Definition state_rank (st : ghash_state) : nat :=
  match st with
  | STATE_AAD => 0
  | STATE_CIPHER => 1
  | STATE_INVALID => 2
  end.

Section Spec.
Context {E : capabilities}.

Local Abbreviation ghash_ctx := (@ghash_ctx E).

(** What the block accumulator relies on, and what finalisation leaves. *)
Definition gshape (ctx : ghash_ctx) : Prop :=
  length (buffer ctx) = 16%nat /\ (buffer_used ctx < 16)%nat
  /\ (state ctx = STATE_INVALID -> buffer_used ctx = 0%nat).

(** The fields [ghash_block] leaves alone. *)
Definition same_frame (a b : ghash_ctx) : Prop :=
  H b = H a /\ gf128_mul b = gf128_mul a /\ state b = state a
  /\ len_aad b = len_aad a /\ len_cipher b = len_cipher a.

(** The operations of a GHASH context. *)
Inductive ghash_op :=
| OpAad (buf : list Z)
| OpCipher (buf : list Z)
| OpFinal.

Definition ghash_step (ctx : ghash_ctx) (op : ghash_op) : option ghash_ctx :=
  match op with
  | OpAad buf => ghash_add_aad ctx buf
  | OpCipher buf => ghash_add_cipher ctx buf
  | OpFinal => match ghash_final ctx with
               | Some (ctx', _) => Some ctx'
               | None => None
               end
  end.

Fixpoint ghash_run (ctx : ghash_ctx) (ops : list ghash_op)
  : option ghash_ctx :=
  match ops with
  | [] => Some ctx
  | op :: ops' =>
      match ghash_step ctx op with
      | Some ctx' => ghash_run ctx' ops'
      | None => None
      end
  end.

(** One GHASH block step on the accumulator alone. *)
Definition ghash_Y_step (mul : gf128 E -> gf128 E -> gf128 E) (Hk : gf128 E)
    (Yv : gf128 E) (blk : list Z) : gf128 E :=
  mul (cf_gf128_add E (cf_gf128_frombytes_be E blk) Yv) Hk.

Definition gcm_H : list Z := firstn 16 (prp_encrypt E (repeat 0 16)).

(** GHASH of a nonce: the nonce is the ciphertext-phase input of a fresh
    context. *)
Definition nonce_ghash (nonce_ : list Z) : list Z :=
  match ghash_add_cipher (ghash_init (E:=E) gcm_H) nonce_ with
  | Some gh => match ghash_final gh with
               | Some (_, y) => y
               | None => []
               end
  | None => []
  end.

Definition gcm_Y0 (nonce_ : list Z) : list Z :=
  if (length nonce_ =? 12)%nat then nonce_ ++ [0; 0; 0; 1]
  else nonce_ghash nonce_.

(** The counter mode context GCM starts from. *)
Definition gcm_ctr0 (nonce_ : list Z) : cf_ctr :=
  {| nonce := firstn 16 (gcm_Y0 nonce_);
     counter_offset := 12; counter_width := 4;
     keymat := repeat 0 16; nkeymat := 0 |}.

Definition gcm_e_Y0 (nonce_ : list Z) : list Z :=
  snd (cf_ctr_cipher (E:=E) (gcm_ctr0 nonce_) (repeat 0 16)).

Definition gcm_ctr1 (nonce_ : list Z) : cf_ctr :=
  fst (cf_ctr_cipher (E:=E) (gcm_ctr0 nonce_) (repeat 0 16)).

(** The payload run of the counter mode. *)
Definition gcm_ctr_xor (nonce_ data : list Z) : list Z :=
  snd (cf_ctr_cipher (E:=E) (gcm_ctr1 nonce_) data).

(** The raw GHASH value over associated data [header] and ciphertext [c]. *)
Definition gcm_full_tag (header c : list Z) : list Z :=
  match ghash_add_aad (ghash_init (E:=E) gcm_H) header with
  | Some g1 =>
      match ghash_add_cipher g1 c with
      | Some g2 => match ghash_final g2 with
                   | Some (_, t) => t
                   | None => []
                   end
      | None => []
      end
  | None => []
  end.

(** The first [ntag] bytes of the masked tag. *)
Definition gcm_tag (nonce_ header c : list Z) (ntag : nat) : list Z :=
  map (fun i => Z.lxor (nth i (gcm_full_tag header c) 0)
                       (nth i (gcm_e_Y0 nonce_) 0))
      (seq 0 ntag).

(** The events up to the point where the two entry points differ. *)
Definition gcm_trace_prefix (nonce_ header : list Z) : list event :=
  [Subkey gcm_H]
  ++ (if (length nonce_ =? 12)%nat then []
      else [NonceHash nonce_ (gcm_Y0 nonce_)])
  ++ [HashAad header; CtrInit (gcm_Y0 nonce_);
      CtrTagOffset (gcm_e_Y0 nonce_)].

(** Byte [i] of the key stream a counter mode context will produce. *)
Definition ctr_keystream (ctr : cf_ctr) (i : nat) : Z :=
  if (i <? nkeymat ctr)%nat
  then nth (16 - nkeymat ctr + i) (keymat ctr) 0
  else
    let j := (i - nkeymat ctr)%nat in
    nth (j mod 16)
        (firstn 16
           (prp_encrypt E
              (Nat.iter (j / 16)
                 (fun b => incr_be b (counter_offset ctr) (counter_width ctr))
                 (nonce ctr)))) 0.

(** The events that run the counter mode over the payload. *)
Definition is_payload_ctr (e : event) : bool :=
  match e with CtrPayload _ _ => true | _ => false end.

(** Key stream block [k] of the counter mode started at [Y0]. *)
Definition ctr_block (Y0 : list Z) (k : nat) : list Z :=
  firstn 16 (prp_encrypt E (Nat.iter k (fun b => incr_be b 12 4) Y0)).

End Spec.
End GcmSpec.

(** ** Test data *)

Module TestData.

(** RFC 8439, section 2.5.2. *)
Definition rfc_key_r : list Z :=
  [0x85; 0xd6; 0xbe; 0x78; 0x57; 0x55; 0x6d; 0x33;
   0x7f; 0x44; 0x52; 0xfe; 0x42; 0xd5; 0x06; 0xa8].
Definition rfc_key_s : list Z :=
  [0x01; 0x03; 0x80; 0x8a; 0xfb; 0x0d; 0xb2; 0xfd;
   0x4a; 0xbf; 0xf6; 0xaf; 0x41; 0x49; 0xf5; 0x1b].
(** "Cryptographic Forum Research Group" *)
Definition rfc_msg : list Z :=
  [67; 114; 121; 112; 116; 111; 103; 114; 97; 112; 104; 105; 99; 32; 70;
   111; 114; 117; 109; 32; 82; 101; 115; 101; 97; 114; 99; 104; 32; 71;
   114; 111; 117; 112].
Definition rfc_tag : list Z :=
  [0xa8; 0x06; 0x1d; 0xc1; 0x30; 0x51; 0x36; 0xc6;
   0xc2; 0x2b; 0x8b; 0xaf; 0x0c; 0x01; 0x27; 0xa9].

(** A context with three pending bytes. *)
Definition ctx_pending : cf_poly1305 :=
  {| h := [1; 2; 3; 4; 5; 6; 7; 8; 9; 10; 11; 12; 13; 14; 15; 16; 3];
     r := [0x85; 0xd6; 0xbe; 0x08; 0x54; 0x55; 0x6d; 0x03;
           0x7c; 0x44; 0x52; 0x0e; 0x40; 0xd5; 0x06; 0x08; 0];
     s := rfc_key_s;
     partial := [0xaa; 0xbb; 0xcc; 0; 0; 0; 0; 0; 0; 0; 0; 0; 0; 0; 0; 0];
     npartial := 3 |}.

Definition block16 : list Z :=
  [0; 1; 2; 3; 4; 5; 6; 7; 8; 9; 10; 11; 12; 13; 14; 255].

(** A toy instance of the GCM capabilities: field elements are lists of
    bytes, addition is the bytewise XOR, the "multipliers" and the "block
    cipher" are arbitrary byte shuffles.  It only serves to run the code. *)
Definition toy_xor (a b : list Z) : list Z :=
  map (fun i => Z.lxor (nth i a 0) (nth i b 0)) (seq 0 16).
Definition toy_mul (a b : list Z) : list Z :=
  map (fun i => u8 (nth i a 0 + 3 * nth ((i + 1) mod 16) b 0 + 1)) (seq 0 16).
Definition toy_prp (b : list Z) : list Z :=
  map (fun i => u8 (7 * nth ((i + 5) mod 16) b 0 + Z.of_nat i + 0x5a))
      (seq 0 16).

Definition toy : GCM.capabilities :=
  {| GCM.gf128 := list Z;
     GCM.gf128_zero := repeat 0 16;
     GCM.cf_gf128_frombytes_be := fun l => firstn 16 l;
     GCM.cf_gf128_tobytes_be := fun y => y;
     GCM.cf_gf128_add := toy_xor;
     GCM.cf_gf128_mul := toy_mul;
     GCM.cf_gf128_mul_fast := toy_mul;
     GCM.supports_pclmulqdq := false;
     GCM.prp_encrypt := toy_prp |}.

Definition toy_ks (key_ nonce_ : list Z) (ncounter i : nat) : Z :=
  u8 (nth (i mod 32) key_ 0 + 5 * nth (i mod 16) nonce_ 0 + Z.of_nat i).

Definition nonce12 : list Z := [1; 2; 3; 4; 5; 6; 7; 8; 9; 10; 11; 12].
Definition nonce8 : list Z := [1; 2; 3; 4; 5; 6; 7; 8].
Definition key32 : list Z := map Z.of_nat (seq 0 32).
Definition aad5 : list Z := [10; 20; 30; 40; 50].
Definition msg20 : list Z := map (fun i => Z.of_nat (3 * i + 1)) (seq 0 20).

End TestData.

Module GcmTestData.
Import GCM GcmSpec TestData.

Definition ops2 : list (ghash_op) := [OpAad aad5; OpCipher msg20].

(** The context reached by hashing [aad5] and then [msg20]. *)
Definition ctx2 : @ghash_ctx toy :=
  match ghash_run (E:=toy) (ghash_init (E:=toy) block16) ops2 with
  | Some c => c
  | None => ghash_init (E:=toy) block16
  end.

End GcmTestData.

(** ** Poly1305 as arithmetic *)

(** The clamp of the 16 key bytes as one 128-bit mask. *)
Definition clamp_mask : Z := 0x0ffffffc0ffffffc0ffffffc0fffffff.

(** Horner evaluation over 16-byte blocks, the last one possibly short;
    every block is extended by one byte of value 1. *)
Fixpoint poly_blocks (fuel : nat) (rv acc : Z) (msg : list Z) : Z :=
  match fuel with
  | O => acc
  | S fuel' =>
      match msg with
      | [] => acc
      | _ =>
          let blk := firstn 16 msg in
          poly_blocks fuel' rv
            (((acc + (value blk + 256 ^ Z.of_nat (length blk))) * rv)
               mod p1305)
            (skipn 16 msg)
      end
  end.

Definition poly1305_mac (r_ s_ msg : list Z) : Z :=
  (poly_blocks (length msg) (Z.land (value r_) clamp_mask) 0 msg
   + value s_) mod 2 ^ 128.

(** The bytes of a context not yet absorbed. *)
Definition pending (ctx : cf_poly1305) : list Z :=
  firstn (npartial ctx) (partial ctx).

(** ** GHASH as a fold over blocks *)

Module GhashSpec.
Import GCM GcmSpec.
Section Spec.
Context {E : capabilities}.

(** The accumulator after the 16-byte blocks of [data], the last one padded
    with zero bytes. *)
Fixpoint ghash_blocks (fuel : nat) (mul : gf128 E -> gf128 E -> gf128 E)
    (Hk Yv : gf128 E) (data : list Z) : gf128 E :=
  match fuel with
  | O => Yv
  | S fuel' =>
      match data with
      | [] => Yv
      | _ =>
          let blk := firstn 16 data in
          ghash_blocks fuel' mul Hk
            (ghash_Y_step mul Hk Yv (blk ++ repeat 0 (16 - length blk)))
            (skipn 16 data)
      end
  end.

(** The bit lengths of associated data and ciphertext, big-endian. *)
Definition ghash_len_block (A C : list Z) : list Z :=
  write64_be (u64 (8 * Z.of_nat (length A)))
  ++ write64_be (u64 (8 * Z.of_nat (length C))).

Definition ghash_value (mul : gf128 E -> gf128 E -> gf128 E) (Hk : gf128 E)
    (A C : list Z) : gf128 E :=
  let G Yv d := ghash_blocks (length d) mul Hk Yv d in
  G (G (G (gf128_zero E) A) C) (ghash_len_block A C).

(** The dispatched multiplication. *)
Definition ghash_mul : gf128 E -> gf128 E -> gf128 E :=
  if supports_pclmulqdq E then cf_gf128_mul_fast E else cf_gf128_mul E.

(** The bytes buffered in a context. *)
Definition gpending (ctx : @ghash_ctx E) : list Z :=
  firstn (buffer_used ctx) (buffer ctx).

End Spec.
End GhashSpec.

(** * Proofs *)

(** ** Bit-level facts *)

Section Bits.

Lemma land_le_l (a b : Z) : 0 <= a -> Z.land a b <= a.
Proof.
  intros Ha.
  pose proof (Z.sub_land_same_l a b) as E.
  assert (0 <= Z.land a (Z.lnot b)) by (apply Z.land_nonneg; now left).
  lia.
Qed.

Lemma land_le_r (a b : Z) : 0 <= b -> Z.land a b <= b.
Proof. rewrite Z.land_comm. apply land_le_l. Qed.

Lemma land_0xff (a : Z) : Z.land a 0xff = a mod 256.
Proof. change 0xff with (Z.ones 8). now rewrite Z.land_ones. Qed.

Lemma land_0x03 (a : Z) : Z.land a 0x03 = a mod 4.
Proof. change 0x03 with (Z.ones 2). now rewrite Z.land_ones. Qed.

Lemma land_0xffffffff (a : Z) : Z.land a 0xffffffff = a mod 2 ^ 32.
Proof. change 0xffffffff with (Z.ones 32). now rewrite Z.land_ones. Qed.

Lemma shiftr_8 (a : Z) : Z.shiftr a 8 = a / 256.
Proof. now rewrite Z.shiftr_div_pow2. Qed.

Lemma shiftr_2 (a : Z) : Z.shiftr a 2 = a / 4.
Proof. now rewrite Z.shiftr_div_pow2. Qed.

Lemma u32_small (a : Z) : 0 <= a < 2 ^ 32 -> u32 a = a.
Proof. intros. unfold u32. now apply Z.mod_small. Qed.

Lemma u32_range (a : Z) : 0 <= u32 a < 2 ^ 32.
Proof. unfold u32. apply Z.mod_pos_bound. lia. Qed.

Lemma u8_small (a : Z) : 0 <= a < 2 ^ 8 -> u8 a = a.
Proof. intros. unfold u8. now apply Z.mod_small. Qed.

(** [mask_u32] is the equality mask the comment promises. *)
Lemma mask_u32_spec (x y : Z) :
  is_u32 x -> is_u32 y ->
  mask_u32 x y = if x =? y then 0xffffffff else 0.
Proof.
  unfold is_u32, mask_u32. intros Hx Hy.
  destruct (Z.eqb_spec x y) as [->|Hne].
  - rewrite Z.lxor_nilpotent. reflexivity.
  - set (d := Z.lxor x y).
    assert (Hd0 : d <> 0) by (unfold d; intros E; now apply Z.lxor_eq in E).
    assert (Hdn : 0 <= d) by (unfold d; apply Z.lxor_nonneg; lia).
    assert (Hdu : d < 2 ^ 32).
    { unfold d.
      destruct (Z.eq_dec x 0) as [->|]; [now rewrite Z.lxor_0_l|].
      destruct (Z.eq_dec y 0) as [->|]; [now rewrite Z.lxor_0_r|].
      apply Z.log2_lt_pow2; [lia|].
      eapply Z.le_lt_trans; [apply Z.log2_lxor; lia|].
      apply Z.max_lub_lt; apply Z.log2_lt_pow2; lia. }
    rewrite Z.lnot_eq_pred_opp.
    replace (u32 (- d - 1)) with (2 ^ 32 - 1 - d).
    2:{ unfold u32. symmetry.
        rewrite <- (Z.mod_small (2 ^ 32 - 1 - d) (2 ^ 32)) at 1 by lia.
        rewrite <- (Z_mod_plus_full (- d - 1) 1 (2 ^ 32)). f_equal. lia. }
    rewrite (u32_small (d - 1)) by lia.
    replace (Z.shiftr (Z.land (2 ^ 32 - 1 - d) (d - 1)) 31) with 0;
      [reflexivity|].
    symmetry. rewrite Z.shiftr_div_pow2 by lia.
    apply Z.div_small. split.
    + apply Z.land_nonneg. left. lia.
    + destruct (Z_lt_le_dec (d - 1) (2 ^ 31)).
      * pose proof (land_le_r (2 ^ 32 - 1 - d) (d - 1)). lia.
      * pose proof (land_le_l (2 ^ 32 - 1 - d) (d - 1)). lia.
Qed.

(** Bit 7 of a byte-sized limb. *)
Lemma land_0x80 (v : Z) :
  0 <= v < 256 -> Z.land v 0x80 = if v <? 128 then 0 else 0x80.
Proof.
  intros Hv.
  assert (E : Z.land v (2 ^ 7) = if v <? 2 ^ 7 then 0 else 2 ^ 7);
    [|exact E].
  apply Z.bits_inj'. intros n Hn.
  rewrite Z.land_spec.
  destruct (Z.ltb_spec v (2 ^ 7)).
  - rewrite Z.bits_0.
    destruct (Z.eq_dec n 7) as [->|Hn7].
    + rewrite (Z.bits_above_log2 v 7); [reflexivity|lia|].
      destruct (Z.eq_dec v 0) as [->|]; [simpl; lia|].
      apply Z.log2_lt_pow2; lia.
    + rewrite Z.pow2_bits_false by lia. apply andb_false_r.
  - destruct (Z.eq_dec n 7) as [->|Hn7].
    + rewrite Z.pow2_bits_true by lia. rewrite andb_true_r.
      apply Z.testbit_true; [lia|].
      replace (v / 2 ^ 7) with 1; [reflexivity|].
      apply Z.div_unique with (r := v - 128); lia.
    + rewrite Z.pow2_bits_false by lia. apply andb_false_r.
Qed.

End Bits.

(** ** Poly1305 arithmetic *)

Lemma value_app (a b : list Z) :
  value (a ++ b) = value a + 256 ^ Z.of_nat (length a) * value b.
Proof.
  induction a as [|x a IH]; cbn [length app value].
  - lia.
  - rewrite IH, Nat2Z.inj_succ, Z.pow_succ_r by lia.
    generalize (256 ^ Z.of_nat (length a)). intros. ring.
Qed.

Lemma value_bound (l : list Z) :
  limbs_le 255 l -> 0 <= value l < 256 ^ Z.of_nat (length l).
Proof.
  induction 1 as [|x l Hx Hl IH]; cbn [length value].
  - rewrite Z.pow_0_r. lia.
  - rewrite Nat2Z.inj_succ, Z.pow_succ_r by lia. lia.
Qed.

Lemma chain_spec (K B : Z) :
  K + B < 2 ^ 32 -> (K + B) / 256 <= K ->
  forall vs c, 0 <= c <= K -> limbs_le B vs ->
  value (fst (chain c vs)) + 256 ^ Z.of_nat (length vs) * snd (chain c vs)
    = c + value vs
  /\ limbs_le 255 (fst (chain c vs))
  /\ 0 <= snd (chain c vs) <= K
  /\ length (fst (chain c vs)) = length vs.
Proof.
  intros HK1 HK2. induction vs as [|v vs IH]; intros c Hc Hvs.
  - cbn [chain fst snd length value]. rewrite Z.pow_0_r. repeat split; try lia. constructor.
  - inversion Hvs as [|? ? Hv Hvs']; subst.
    cbn [chain].
    rewrite (u32_small (c + v)) by lia.
    rewrite shiftr_8, land_0xff.
    assert (Hq : 0 <= (c + v) / 256 <= K).
    { split; [apply Z.div_pos; lia|].
      etransitivity; [|exact HK2]. apply Z.div_le_mono; lia. }
    specialize (IH ((c + v) / 256) Hq Hvs').
    destruct (chain ((c + v) / 256) vs) as [o c'] eqn:E. cbn [fst snd length value] in IH |- *.
    destruct IH as (IH1 & IH2 & IH3 & IH4).
    pose proof (Z.mod_pos_bound (c + v) 256 ltac:(lia)).
    pose proof (Z.div_mod (c + v) 256 ltac:(lia)).
    repeat split; try lia.
    + rewrite Nat2Z.inj_succ, Z.pow_succ_r by lia. lia.
    + constructor; [lia|assumption].
Qed.

Lemma min_reduce_chain (x : list Z) :
  length x = 17%nat -> poly1305_min_reduce x = min_reduce_spec x.
Proof.
  intros Hx.
  do 17 (destruct x as [|? x]; [discriminate Hx|]).
  destruct x; [|discriminate Hx].
  cbv [poly1305_min_reduce min_reduce_spec fold_left seq carry_step store
         nth firstn skipn app length Nat.ltb Nat.leb fst snd chain].
  reflexivity.
Qed.

Lemma limbs_le_firstn B n l : limbs_le B l -> limbs_le B (firstn n l).
Proof.
  intros H. revert n. induction H as [|v l Hv Hl IH]; intros [|n];
    cbn [firstn]; try constructor; auto.
  apply IH.
Qed.

Lemma limbs_le_nth B l i : limbs_le B l -> 0 <= B -> 0 <= nth i l 0 <= B.
Proof.
  intros H HB. destruct (Nat.lt_ge_cases i (length l)).
  - unfold limbs_le in H. rewrite Forall_forall in H. apply H. now apply nth_In.
  - rewrite nth_overflow by assumption. lia.
Qed.

Lemma limbs_le_mono B B' l : B <= B' -> limbs_le B l -> limbs_le B' l.
Proof.
  intros HB H. eapply Forall_impl; [|exact H]. cbv beta. intros. lia.
Qed.

Lemma split_17 (x : list Z) :
  length x = 17%nat -> x = firstn 16 x ++ [nth 16 x 0].
Proof.
  intros Hx.
  do 17 (destruct x as [|? x]; [discriminate Hx|]).
  destruct x; [|discriminate Hx]. reflexivity.
Qed.

Lemma pow256_16 : 256 ^ Z.of_nat 16 = 2 ^ 128.
Proof. reflexivity. Qed.

Theorem min_reduce_correct (x : list Z) :
  length x = 17%nat -> limbs_le (2 ^ 31) x ->
  length (poly1305_min_reduce x) = 17%nat
  /\ value (poly1305_min_reduce x) mod p1305 = value x mod p1305
  /\ limbs_le 255 (firstn 16 (poly1305_min_reduce x))
  /\ 0 <= nth 16 (poly1305_min_reduce x) 0 <= 4.
Proof.
  intros Hlen Hx.
  rewrite (min_reduce_chain x Hlen). unfold min_reduce_spec.
  assert (Hlo : length (firstn 16 x) = 16%nat) by (rewrite length_firstn; lia).
  pose proof (limbs_le_nth _ _ 16 Hx ltac:(lia)) as Hx16.
  destruct (chain_spec (2 ^ 24) (2 ^ 31) ltac:(lia) ltac:(now vm_compute)
              (firstn 16 x) 0 ltac:(lia) (limbs_le_firstn _ 16 _ Hx))
    as (V1 & L1 & C1 & N1).
  destruct (chain 0 (firstn 16 x)) as [lo c].
  cbn [fst snd] in V1, L1, C1, N1.
  rewrite Hlo in V1, N1. rewrite pow256_16 in V1.
  rewrite (u32_small (c + nth 16 x 0)) by lia.
  set (t := c + nth 16 x 0) in *.
  rewrite shiftr_2, land_0x03.
  pose proof (Z.div_mod t 4 ltac:(lia)) as Ht.
  pose proof (Z.mod_pos_bound t 4 ltac:(lia)) as Htm.
  assert (Hq : 0 <= t / 4 <= 2 ^ 29 + 2 ^ 22).
  { split; [apply Z.div_pos; lia|].
    apply Z.div_le_upper_bound; lia. }
  rewrite (u32_small (5 * (t / 4))) by lia.
  destruct (chain_spec (2 ^ 32 - 256) 255 ltac:(lia) ltac:(now vm_compute)
              lo (5 * (t / 4)) ltac:(lia) L1)
    as (V2 & L2 & C2 & N2).
  destruct (chain (5 * (t / 4)) lo) as [lo' c'].
  cbn [fst snd] in V2, L2, C2, N2.
  rewrite N1 in V2, N2. rewrite pow256_16 in V2.
  pose proof (value_bound lo L1) as B1. rewrite N1, pow256_16 in B1.
  pose proof (value_bound lo' L2) as B2. rewrite N2, pow256_16 in B2.
  assert (Hc' : c' <= 1) by lia.
  rewrite (u32_small (t mod 4 + c')) by lia.
  repeat split.
  - rewrite length_app, N2. reflexivity.
  - rewrite value_app, N2, pow256_16. cbn [value].
    rewrite (split_17 x Hlen) at 1. rewrite value_app, Hlo, pow256_16.
    cbn [value].
    replace (value (firstn 16 x) + 2 ^ 128 * (nth 16 x 0 + 256 * 0))
      with (value lo' + 2 ^ 128 * (t mod 4 + c' + 256 * 0)
            + (t / 4) * p1305) by (unfold p1305, t in *; lia).
    symmetry. apply Z_mod_plus_full.
  - rewrite firstn_app, N2, Nat.sub_diag, firstn_O, app_nil_r.
    rewrite firstn_all2 by lia. exact L2.
  - rewrite app_nth2, N2 by lia. cbn. lia.
  - rewrite app_nth2, N2 by lia. cbn. lia.
Qed.

Lemma poly1305_add_chain (h x : list Z) :
  length h = 17%nat -> length x = 17%nat ->
  poly1305_add h x = fst (chain 0 (zip_add h x)).
Proof.
  intros Hh Hx.
  do 17 (destruct h as [|? h]; [discriminate Hh|]). destruct h; [|discriminate Hh].
  do 17 (destruct x as [|? x]; [discriminate Hx|]). destruct x; [|discriminate Hx].
  cbv [poly1305_add fold_left seq carry_step store zip_add
       nth firstn skipn app length Nat.ltb Nat.leb fst snd chain].
  reflexivity.
Qed.

Lemma select_loop_17 (nm pm : Z) (x xsub : list Z) :
  length x = 17%nat -> length xsub = 17%nat ->
  fold_left (fun x i =>
               store x i (Z.lor (Z.land (nth i x 0) nm)
                                (Z.land (nth i xsub 0) pm)))
            (seq 0 17) x
  = zip_select nm pm x xsub.
Proof.
  intros Hh Hx.
  do 17 (destruct x as [|? x]; [discriminate Hh|]). destruct x; [|discriminate Hh].
  do 17 (destruct xsub as [|? xsub]; [discriminate Hx|]).
  destruct xsub; [|discriminate Hx].
  cbv [fold_left seq store zip_select
       nth firstn skipn app length Nat.ltb Nat.leb fst snd].
  reflexivity.
Qed.

Lemma mul_value_identity (x y : list Z) :
  length x = 17%nat -> length y = 17%nat ->
  value (map (fun i => col_lo x y i + 320 * col_hi x y i) (seq 0 17))
  = value x * value y - (2 ^ 136 - 320) * value (map (col_hi x y) (seq 0 17)).
Proof.
  intros Hx Hy.
  do 17 (destruct x as [|? x]; [discriminate Hx|]). destruct x; [|discriminate Hx].
  do 17 (destruct y as [|? y]; [discriminate Hy|]). destruct y; [|discriminate Hy].
  cbv [value map seq col_lo col_hi zsum fold_right nth Nat.add Nat.sub].
  ring.
Qed.

Lemma zsum_bound (g : nat -> Z) (T : Z) (js : list nat) :
  (forall j, In j js -> 0 <= g j <= T) ->
  0 <= zsum g js <= T * Z.of_nat (length js).
Proof.
  induction js as [|j js IH]; intros Hg; cbn [zsum fold_right length].
  - lia.
  - fold (zsum g js).
    specialize (IH (fun k Hk => Hg k (or_intror Hk))).
    pose proof (Hg j (or_introl eq_refl)).
    rewrite Nat2Z.inj_succ. lia.
Qed.

Lemma zsum_ext (g g' : nat -> Z) (js : list nat) :
  (forall j, In j js -> g j = g' j) -> zsum g js = zsum g' js.
Proof.
  induction js as [|j js IH]; intros Hg; cbn [zsum fold_right].
  - reflexivity.
  - fold (zsum g js). fold (zsum g' js).
    rewrite (Hg j (or_introl eq_refl)), IH; [reflexivity|].
    intros k Hk. apply Hg. now right.
Qed.

Lemma zsum_scale (k : Z) (g : nat -> Z) (js : list nat) :
  zsum (fun j => k * g j) js = k * zsum g js.
Proof.
  induction js as [|j js IH]; cbn [zsum fold_right].
  - lia.
  - fold (zsum g js). fold (zsum (fun j => k * g j) js). rewrite IH. ring.
Qed.

(** A wrapped accumulation that stays below 2^32 is the exact sum. *)
Lemma fold_u32_sum (g : nat -> Z) (T : Z) (js : list nat) (acc : Z) :
  (forall j, In j js -> 0 <= g j <= T) ->
  0 <= acc -> 0 <= T ->
  acc + T * Z.of_nat (length js) < 2 ^ 32 ->
  fold_left (fun a j => u32 (a + u32 (g j))) js acc = acc + zsum g js.
Proof.
  revert acc. induction js as [|j js IH]; intros acc Hg Hacc HT Hlt;
    cbn [fold_left zsum fold_right length] in *.
  - lia.
  - fold (zsum g js).
    pose proof (Hg j (or_introl eq_refl)) as Hj.
    rewrite Nat2Z.inj_succ in Hlt.
    assert (0 <= T * Z.of_nat (length js)) by (apply Z.mul_nonneg_nonneg; lia).
    rewrite (u32_small (g j)) by lia.
    rewrite (u32_small (acc + g j)) by lia.
    rewrite IH; try lia.
    intros k Hk. apply Hg. now right.
Qed.

Lemma mul_column_exact (x y : list Z) (i : nat) :
  limbs_le 255 x -> limbs_le 255 y -> (i < 17)%nat ->
  mul_column x y i = col_lo x y i + 320 * col_hi x y i
  /\ 0 <= mul_column x y i <= 2 ^ 31.
Proof.
  intros Hx Hy Hi. unfold mul_column.
  assert (Hb : forall a b, 0 <= nth a x 0 * nth b y 0 <= 65025).
  { intros a b.
    pose proof (limbs_le_nth 255 x a Hx ltac:(lia)).
    pose proof (limbs_le_nth 255 y b Hy ltac:(lia)). nia. }
  pose proof (zsum_bound (fun j => nth j x 0 * nth (i - j) y 0) 65025
                (seq 0 (i + 1)) (fun j _ => Hb j _)) as B1.
  pose proof (zsum_bound (fun j => nth j x 0 * nth (i + 17 - j) y 0) 65025
                (seq (i + 1) (17 - (i + 1))) (fun j _ => Hb j _)) as B2.
  rewrite length_seq in B1, B2.
  rewrite (fold_u32_sum (fun j => nth j x 0 * nth (i - j) y 0) 65025);
    try rewrite length_seq; try lia; [|intros; apply Hb].
  fold (col_lo x y i) in B1 |- *. fold (col_hi x y i) in B2.
  change (Z.shiftl 5 6) with 320.
  rewrite (fold_u32_sum
             (fun j => u32 (320 * nth j x 0) * nth (i + 17 - j) y 0)
             (320 * 65025));
    try rewrite length_seq; try lia.
  - rewrite Z.add_0_l.
    rewrite (zsum_ext _ (fun j => 320 * (nth j x 0 * nth (i + 17 - j) y 0))).
    + rewrite zsum_scale. fold (col_hi x y i). lia.
    + intros j _.
      pose proof (limbs_le_nth 255 x j Hx ltac:(lia)).
      rewrite u32_small by lia. ring.
  - intros j _.
    pose proof (limbs_le_nth 255 x j Hx ltac:(lia)).
    rewrite u32_small by lia.
    pose proof (Hb j (i + 17 - j)%nat). lia.
Qed.

Lemma limbs_le_app B a b : limbs_le B a -> limbs_le B b -> limbs_le B (a ++ b).
Proof. intros. now apply Forall_app. Qed.

Lemma h_ok_limbs (l : list Z) : h_ok l -> limbs_le 255 l.
Proof.
  intros (Hlen & Hlo & Hhi). rewrite (split_17 l Hlen).
  apply limbs_le_app; [exact Hlo|]. constructor; [lia|constructor].
Qed.

Lemma h_ok_value (l : list Z) : h_ok l -> 0 <= value l < 5 * 2 ^ 128.
Proof.
  intros (Hlen & Hlo & Hhi). rewrite (split_17 l Hlen), value_app.
  pose proof (value_bound _ Hlo) as B.
  rewrite length_firstn, Hlen in *. change (Nat.min 16 17) with 16%nat in *.
  rewrite pow256_16 in *. cbn [value]. lia.
Qed.

Lemma store_loop_17 (f : nat -> Z) (a : list Z) :
  length a = 17%nat ->
  fold_left (fun r i => store r i (f i)) (seq 0 17) a = map f (seq 0 17).
Proof.
  intros Ha.
  do 17 (destruct a as [|? a]; [discriminate Ha|]). destruct a; [|discriminate Ha].
  reflexivity.
Qed.

Lemma map_nth_17 (l : list Z) :
  length l = 17%nat -> map (fun i => nth i l 0) (seq 0 17) = l.
Proof.
  intros Hl.
  do 17 (destruct l as [|? l]; [discriminate Hl|]). destruct l; [|discriminate Hl].
  reflexivity.
Qed.

Lemma copy_loop_17 (a l : list Z) :
  length a = 17%nat -> length l = 17%nat ->
  fold_left (fun r i => store r i (nth i l 0)) (seq 0 17) a = l.
Proof.
  intros Ha Hl. rewrite store_loop_17 by assumption. now apply map_nth_17.
Qed.

Lemma chain_length (vs : list Z) (c : Z) :
  length (fst (chain c vs)) = length vs.
Proof.
  revert c. induction vs as [|v vs IH]; intros c; cbn [chain].
  - reflexivity.
  - specialize (IH (Z.shiftr (u32 (c + v)) 8)).
    destruct (chain (Z.shiftr (u32 (c + v)) 8) vs). cbn [fst length] in *.
    now rewrite IH.
Qed.

Lemma min_reduce_length (x : list Z) :
  length x = 17%nat -> length (poly1305_min_reduce x) = 17%nat.
Proof.
  intros Hx. rewrite (min_reduce_chain x Hx). unfold min_reduce_spec.
  pose proof (chain_length (firstn 16 x) 0) as N1.
  destruct (chain 0 (firstn 16 x)) as [lo c]. cbn [fst] in N1.
  match goal with |- context [chain ?k lo] =>
    pose proof (chain_length lo k) as N2; destruct (chain k lo) as [lo' c']
  end.
  cbn [fst] in N2. rewrite length_app, N2, N1, length_firstn, Hx. reflexivity.
Qed.

Lemma poly1305_mul_unfold (x y : list Z) :
  length x = 17%nat ->
  poly1305_mul x y = poly1305_min_reduce (map (mul_column x y) (seq 0 17)).
Proof.
  intros Hx. unfold poly1305_mul.
  rewrite (store_loop_17 (mul_column x y)) by reflexivity.
  apply copy_loop_17; [assumption|].
  apply min_reduce_length. now rewrite length_map, length_seq.
Qed.

Lemma value_map_ext (f g : nat -> Z) (js : list nat) :
  (forall j, In j js -> f j = g j) -> map f js = map g js.
Proof. intros H. apply map_ext_in. exact H. Qed.

(** [poly1305_mul] multiplies modulo 2^130 - 5 and leaves the limbs in the
    range the next block needs. *)
Lemma poly1305_mul_correct (x y : list Z) :
  length x = 17%nat -> length y = 17%nat ->
  limbs_le 255 x -> limbs_le 255 y ->
  h_ok (poly1305_mul x y)
  /\ value (poly1305_mul x y) mod p1305 = (value x * value y) mod p1305.
Proof.
  intros Hx Hy Bx By.
  rewrite (poly1305_mul_unfold x y Hx).
  set (cols := map (mul_column x y) (seq 0 17)).
  assert (Hcols : cols = map (fun i => col_lo x y i + 320 * col_hi x y i)
                             (seq 0 17)).
  { apply map_ext_in. intros i Hi. apply in_seq in Hi.
    apply mul_column_exact; try assumption. lia. }
  assert (Lc : limbs_le (2 ^ 31) cols).
  { unfold cols, limbs_le. apply Forall_forall. intros v Hv.
    apply in_map_iff in Hv. destruct Hv as (i & <- & Hi). apply in_seq in Hi.
    apply mul_column_exact; try assumption. lia. }
  assert (Nc : length cols = 17%nat)
    by (unfold cols; now rewrite length_map, length_seq).
  destruct (min_reduce_correct cols Nc Lc) as (R1 & R2 & R3 & R4).
  split; [exact (conj R1 (conj R3 R4))|].
  rewrite R2, Hcols, (mul_value_identity x y Hx Hy).
  replace (2 ^ 136 - 320) with (64 * p1305) by reflexivity.
  set (hi := value (map (col_hi x y) (seq 0 17))).
  replace (value x * value y - 64 * p1305 * hi)
    with (value x * value y + (- (64 * hi)) * p1305) by ring.
  apply Z_mod_plus_full.
Qed.

Lemma zip_add_value (Bh Bx : Z) (h x : list Z) :
  Bh + Bx < 2 ^ 32 ->
  length h = length x -> limbs_le Bh h -> limbs_le Bx x ->
  value (zip_add h x) = value h + value x
  /\ limbs_le (Bh + Bx) (zip_add h x)
  /\ length (zip_add h x) = length h.
Proof.
  intros HB. revert x. induction h as [|a h IH]; intros [|b x] Hlen Hh Hx;
    try discriminate Hlen; cbn [zip_add value length].
  - repeat split; try lia. constructor.
  - inversion Hh; inversion Hx; subst.
    destruct (IH x) as (V & L & N); try assumption; [now inversion Hlen|].
    rewrite u32_small by lia. rewrite V, N.
    repeat split; try lia. constructor; [lia|assumption].
Qed.

Lemma pow256_17 : 256 ^ Z.of_nat 17 = 2 ^ 136.
Proof. reflexivity. Qed.

(** [poly1305_add] adds modulo 2^136 (the carry out of limb 16 is dropped). *)
Lemma poly1305_add_correct (h x : list Z) :
  length h = 17%nat -> length x = 17%nat ->
  limbs_le (2 ^ 30) h -> limbs_le (2 ^ 30) x ->
  length (poly1305_add h x) = 17%nat
  /\ limbs_le 255 (poly1305_add h x)
  /\ value (poly1305_add h x) = (value h + value x) mod 2 ^ 136.
Proof.
  intros Hh Hx Bh Bx.
  rewrite (poly1305_add_chain h x Hh Hx).
  destruct (zip_add_value (2 ^ 30) (2 ^ 30) h x ltac:(lia) ltac:(congruence)
              Bh Bx) as (V & L & N).
  destruct (chain_spec (2 ^ 24) (2 ^ 31) ltac:(lia) ltac:(now vm_compute)
              (zip_add h x) 0 ltac:(lia) L) as (V1 & L1 & C1 & N1).
  rewrite N, Hh in V1, N1. rewrite pow256_17 in V1.
  pose proof (value_bound _ L1) as B1. rewrite N1, pow256_17 in B1.
  repeat split; try assumption.
  apply Z.mod_unique_pos with (q := snd (chain 0 (zip_add h x))).
  - exact B1.
  - lia.
Qed.

Lemma zip_select_keep (x xsub : list Z) :
  length x = length xsub -> limbs_le 255 x ->
  zip_select 0xffffffff 0 x xsub = x.
Proof.
  revert xsub. induction x as [|a x IH]; intros [|b xsub] Hlen Hx;
    try discriminate Hlen; cbn [zip_select]; [reflexivity|].
  inversion Hx; subst.
  rewrite Z.land_0_r, Z.lor_0_r, land_0xffffffff, Z.mod_small by lia.
  f_equal. apply IH; [now inversion Hlen|assumption].
Qed.

Lemma zip_select_take (x xsub : list Z) :
  length x = length xsub -> limbs_le 255 xsub ->
  zip_select 0 0xffffffff x xsub = xsub.
Proof.
  revert xsub. induction x as [|a x IH]; intros [|b xsub] Hlen Hx;
    try discriminate Hlen; cbn [zip_select]; [reflexivity|].
  inversion Hx; subst.
  rewrite Z.land_0_r, Z.lor_0_l, land_0xffffffff, Z.mod_small by lia.
  f_equal. apply IH; [now inversion Hlen|assumption].
Qed.

Lemma negative_1305_value : value negative_1305 = 2 ^ 136 - p1305.
Proof. reflexivity. Qed.

(** [poly1305_full_reduce] returns the canonical residue modulo 2^130 - 5. *)
Lemma poly1305_full_reduce_correct (x : list Z) :
  h_ok x ->
  length (poly1305_full_reduce x) = 17%nat
  /\ limbs_le 255 (poly1305_full_reduce x)
  /\ value (poly1305_full_reduce x) = value x mod p1305.
Proof.
  intros Hok. pose proof Hok as (Hlen & _ & _).
  pose proof (h_ok_limbs x Hok) as Lx.
  pose proof (h_ok_value x Hok) as Vx.
  unfold poly1305_full_reduce.
  rewrite (copy_loop_17 (repeat 0 17) x eq_refl Hlen).
  destruct (poly1305_add_correct x negative_1305 Hlen eq_refl
              (limbs_le_mono 255 (2 ^ 30) x ltac:(lia) Lx)) as (Ns & Ls & Vs).
  { unfold negative_1305, limbs_le. repeat constructor; lia. }
  set (xsub := poly1305_add x negative_1305) in *.
  rewrite (select_loop_17 _ _ x xsub Hlen Ns).
  rewrite negative_1305_value in Vs.
  pose proof (limbs_le_nth 255 xsub 16 Ls ltac:(lia)) as H16.
  pose proof (value_bound _ (limbs_le_firstn 255 16 _ Ls)) as Blo.
  rewrite length_firstn, Ns in Blo. change (Nat.min 16 17) with 16%nat in Blo.
  rewrite pow256_16 in Blo.
  assert (Vsplit : value xsub = value (firstn 16 xsub) + 2 ^ 128 * nth 16 xsub 0).
  { rewrite (split_17 xsub Ns) at 1.
    rewrite value_app, length_firstn, Ns. change (Nat.min 16 17) with 16%nat.
    rewrite pow256_16. cbn [value]. lia. }
  rewrite land_0x80 by lia.
  destruct (Z.ltb_spec (nth 16 xsub 0) 128) as [Hlt|Hge].
  - (* x - p is not negative: take the difference *)
    rewrite mask_u32_spec by (unfold is_u32; lia).
    change (0 =? 128) with false. cbv iota.
    change (Z.lxor 0 4294967295) with 0xffffffff.
    rewrite zip_select_take by (try congruence; assumption).
    assert (Hp : p1305 <= value x).
    { destruct (Z_lt_le_dec (value x) p1305) as [Hc|]; [|assumption].
      rewrite Z.mod_small in Vs by (unfold p1305 in *; lia).
      unfold p1305 in *. lia. }
    repeat split; try assumption.
    rewrite Vs.
    replace (value x + (2 ^ 136 - p1305))
      with (value x - p1305 + 1 * 2 ^ 136) by ring.
    rewrite Z_mod_plus_full, Z.mod_small by (unfold p1305 in *; lia).
    apply Z.mod_unique_pos with (q := 1); unfold p1305 in *; lia.
  - (* x - p is negative: keep x *)
    rewrite mask_u32_spec by (unfold is_u32; lia).
    change (128 =? 128) with true. cbv iota.
    change (Z.lxor 4294967295 4294967295) with 0.
    rewrite zip_select_keep by (try congruence; assumption).
    assert (Hp : value x < p1305).
    { destruct (Z_lt_le_dec (value x) p1305) as [|Hc]; [assumption|].
      replace (value x + (2 ^ 136 - p1305))
        with (value x - p1305 + 1 * 2 ^ 136) in Vs by ring.
      rewrite Z_mod_plus_full, Z.mod_small in Vs by (unfold p1305 in *; lia).
      unfold p1305 in *. lia. }
    repeat split; try assumption.
    symmetry. apply Z.mod_small. lia.
Qed.

Lemma memcpy_at_nil (d : list Z) (off : nat) : memcpy_at d off [] = d.
Proof.
  unfold memcpy_at. cbn [app length]. rewrite Nat.add_0_r.
  apply firstn_skipn.
Qed.

Lemma limbs_le_skipn B n l : limbs_le B l -> limbs_le B (skipn n l).
Proof.
  intros H. unfold limbs_le in *. rewrite Forall_forall in *. intros v Hv.
  apply H. rewrite <- (firstn_skipn n). apply in_or_app. now right.
Qed.

Section BlockwiseFacts.
Context {S : Type}.
Variable process : S -> list Z -> S.
Variable nblock : nat.
Hypothesis nblock_pos : (0 < nblock)%nat.

Local Abbreviation whole_blocks := (Blockwise.whole_blocks process).
Local Abbreviation run_blocks := (run_blocks process nblock).

Lemma whole_blocks_S (fuel : nat) (data : list Z) (ctx : S) :
  whole_blocks (Datatypes.S fuel) nblock data ctx
  = if (nblock <=? length data)%nat
    then whole_blocks fuel nblock (skipn nblock data)
           (process ctx (firstn nblock data))
    else (data, ctx).
Proof. reflexivity. Qed.

Lemma whole_blocks_fuel2 (f1 f2 : nat) (data : list Z) (ctx : S) :
  (length data <= f1)%nat -> (length data <= f2)%nat ->
  whole_blocks f1 nblock data ctx = whole_blocks f2 nblock data ctx.
Proof.
  revert f2 data ctx. induction f1 as [|f1 IH]; intros f2 data ctx H1 H2.
  - destruct data; [|cbn in H1; lia].
    destruct f2; [reflexivity|]. rewrite whole_blocks_S. cbn [length].
    destruct (Nat.leb_spec nblock 0); [lia|reflexivity].
  - destruct f2 as [|f2].
    + destruct data; [|cbn in H2; lia].
      rewrite whole_blocks_S. cbn [length].
      destruct (Nat.leb_spec nblock 0); [lia|reflexivity].
    + rewrite !whole_blocks_S.
      destruct (Nat.leb_spec nblock (length data)); [|reflexivity].
      apply IH; rewrite length_skipn; lia.
Qed.

Lemma whole_blocks_fuel (fuel : nat) (data : list Z) (ctx : S) :
  (length data <= fuel)%nat ->
  whole_blocks fuel nblock data ctx = run_blocks data ctx.
Proof. intros. unfold run_blocks. now apply whole_blocks_fuel2. Qed.

Lemma run_blocks_short (data : list Z) (ctx : S) :
  (length data < nblock)%nat -> run_blocks data ctx = (data, ctx).
Proof.
  intros H. unfold run_blocks. destruct (length data) eqn:E.
  - reflexivity.
  - rewrite whole_blocks_S, E.
    destruct (Nat.leb_spec nblock (Datatypes.S n)); [lia|reflexivity].
Qed.

Lemma run_blocks_step (data : list Z) (ctx : S) :
  (nblock <= length data)%nat ->
  run_blocks data ctx
  = run_blocks (skipn nblock data) (process ctx (firstn nblock data)).
Proof.
  intros H. unfold run_blocks at 1. destruct (length data) eqn:E; [lia|].
  rewrite whole_blocks_S, E.
  destruct (Nat.leb_spec nblock (Datatypes.S n)); [|lia].
  apply whole_blocks_fuel. rewrite length_skipn. lia.
Qed.

Lemma run_blocks_rem (data : list Z) (ctx : S) :
  (length (fst (run_blocks data ctx)) < nblock)%nat.
Proof.
  remember (length data) as n eqn:En. revert data ctx En.
  induction n as [n IH] using lt_wf_ind. intros data ctx En.
  destruct (Nat.lt_ge_cases (length data) nblock) as [Hlt|Hge].
  - rewrite run_blocks_short by assumption. exact Hlt.
  - rewrite run_blocks_step by assumption.
    apply (IH (length (skipn nblock data))); [|reflexivity].
    rewrite length_skipn. lia.
Qed.

Lemma run_blocks_suffix (data : list Z) (ctx : S) :
  exists k, fst (run_blocks data ctx) = skipn k data.
Proof.
  remember (length data) as n eqn:En. revert data ctx En.
  induction n as [n IH] using lt_wf_ind. intros data ctx En.
  destruct (Nat.lt_ge_cases (length data) nblock) as [Hlt|Hge].
  - rewrite run_blocks_short by assumption. now exists 0%nat.
  - rewrite run_blocks_step by assumption.
    destruct (IH (length (skipn nblock data))
                ltac:(rewrite length_skipn; lia)
                (skipn nblock data) (process ctx (firstn nblock data))
                eq_refl) as [k Hk].
    exists (nblock + k)%nat. rewrite Hk, skipn_skipn. f_equal. lia.
Qed.

(** Concatenation invariance of the block sequence. *)
Lemma run_blocks_app (a b : list Z) (ctx : S) :
  run_blocks (a ++ b) ctx
  = run_blocks (fst (run_blocks a ctx) ++ b) (snd (run_blocks a ctx)).
Proof.
  remember (length a) as n eqn:En. revert a ctx En.
  induction n as [n IH] using lt_wf_ind. intros a ctx En.
  destruct (Nat.lt_ge_cases (length a) nblock) as [Hlt|Hge].
  - rewrite (run_blocks_short a) by assumption. reflexivity.
  - rewrite (run_blocks_step a) by assumption.
    rewrite (run_blocks_step (a ++ b)) by (rewrite length_app; lia).
    rewrite firstn_app, skipn_app.
    replace (nblock - length a)%nat with 0%nat by lia.
    rewrite firstn_O, skipn_O, app_nil_r.
    apply (IH (length (skipn nblock a))); [|reflexivity].
    rewrite length_skipn. lia.
Qed.

(** What [cf_blockwise_accumulate] does, in terms of the pending bytes
    [firstn npartial partial]. *)
Lemma accumulate_spec (partial : list Z) (npartial : nat) (inp : list Z)
      (ctx : S) :
  (npartial < nblock)%nat -> length partial = nblock ->
  exists partial' npartial' ctx',
    Blockwise.cf_blockwise_accumulate process partial npartial nblock inp ctx
    = Some (partial', npartial', ctx')
    /\ length partial' = nblock
    /\ (npartial' < nblock)%nat
    /\ (firstn npartial' partial', ctx')
       = run_blocks (firstn npartial partial ++ inp) ctx
    /\ (forall B, limbs_le B partial -> limbs_le B inp -> limbs_le B partial').
Proof.
  intros Hnp Hlen. unfold Blockwise.cf_blockwise_accumulate.
  destruct (Nat.ltb_spec npartial nblock) as [_|]; [|lia]. cbn [negb].
  destruct ((0 <? npartial)%nat && (0 <? length inp)%nat) eqn:Etop.
  - apply andb_prop in Etop. destruct Etop as [E1 E2].
    apply Nat.ltb_lt in E1, E2.
    set (taken := Nat.min (nblock - npartial) (length inp)).
    set (partial1 := memcpy_at partial npartial (firstn taken inp)).
    assert (Hl1 : length partial1 = nblock).
    { unfold partial1, memcpy_at.
      rewrite !length_app, length_skipn, !length_firstn. lia. }
    assert (Hf1 : firstn (npartial + taken) partial1
                  = firstn npartial partial ++ firstn taken inp).
    { unfold partial1, memcpy_at. rewrite app_assoc.
      rewrite firstn_app.
      rewrite !length_app, !length_firstn.
      replace (npartial + taken
               - (Nat.min npartial (length partial)
                  + Nat.min taken (length inp)))%nat with 0%nat by lia.
      rewrite firstn_O, app_nil_r. apply firstn_all2.
      rewrite !length_app, !length_firstn. lia. }
    assert (Hb1 : forall B, limbs_le B partial -> limbs_le B inp ->
                            limbs_le B partial1).
    { intros B Bp Bi. unfold partial1, memcpy_at.
      apply Forall_app; split; [now apply limbs_le_firstn|].
      apply Forall_app; split; [now apply limbs_le_firstn|].
      unfold limbs_le in *. rewrite Forall_forall in *. intros v Hv.
      apply Bp. rewrite <- (firstn_skipn (npartial + length (firstn taken inp))).
      apply in_or_app. now right. }
    destruct (Nat.eqb_spec (npartial + taken) nblock) as [Efull|Enot].
    + rewrite (whole_blocks_fuel (length (skipn taken inp))) by lia.
      destruct (run_blocks (skipn taken inp)
                  (process ctx (firstn nblock partial1))) as [rem ctx'] eqn:Er.
      pose proof (run_blocks_rem (skipn taken inp)
                    (process ctx (firstn nblock partial1))) as Hrem.
      rewrite Er in Hrem. cbn [fst] in Hrem.
      eexists _, _, _. split; [reflexivity|].
      assert (Hlm : length (memcpy_at partial1 0 rem) = nblock).
      { unfold memcpy_at. cbn [firstn app Nat.add].
        rewrite length_app, length_skipn. lia. }
      split; [exact Hlm|]. split; [cbn [Nat.add]; lia|]. split.
      * cbn [Nat.add]. unfold memcpy_at. cbn [firstn app Nat.add].
        rewrite firstn_app, Nat.sub_diag, firstn_O, app_nil_r, firstn_all.
        assert (Hnp' : length (firstn npartial partial) = npartial)
          by (rewrite length_firstn; lia).
        assert (Hd1 : firstn nblock (firstn npartial partial ++ inp)
                      = firstn nblock partial1).
        { rewrite <- Efull at 2. rewrite Hf1.
          rewrite firstn_app, Hnp'.
          rewrite (firstn_all2 (firstn npartial partial)) by lia.
          f_equal. f_equal. lia. }
        assert (Hd2 : skipn nblock (firstn npartial partial ++ inp)
                      = skipn taken inp).
        { rewrite skipn_app, Hnp'.
          rewrite skipn_all2 by lia. cbn [app]. f_equal. lia. }
        rewrite (run_blocks_step (firstn npartial partial ++ inp))
          by (rewrite length_app, Hnp'; lia).
        rewrite Hd1, Hd2. symmetry. exact Er.
      * intros B Bp Bi. unfold memcpy_at. cbn [firstn app Nat.add].
        apply Forall_app; split.
        -- assert (Hin : limbs_le B (skipn taken inp)).
           { unfold limbs_le in *. rewrite Forall_forall in *. intros v Hv.
             apply Bi. rewrite <- (firstn_skipn taken). apply in_or_app.
             now right. }
           destruct (run_blocks_suffix (skipn taken inp)
                       (process ctx (firstn nblock partial1))) as [k Hk].
           rewrite Er in Hk. cbn [fst] in Hk. rewrite Hk.
           now apply limbs_le_skipn.
        -- specialize (Hb1 B Bp Bi).
           unfold limbs_le in *. rewrite Forall_forall in *. intros v Hv.
           apply Hb1. rewrite <- (firstn_skipn (length rem)).
           apply in_or_app. now right.
    + assert (Htk : taken = length inp) by lia.
      rewrite Htk, skipn_all. cbn [length Blockwise.whole_blocks].
      rewrite memcpy_at_nil, Nat.add_0_r.
      eexists _, _, _. split; [reflexivity|].
      split; [exact Hl1|]. split; [lia|]. split.
      * rewrite run_blocks_short by (rewrite length_app, length_firstn; lia).
        f_equal. rewrite <- Htk, Hf1. rewrite Htk, firstn_all. reflexivity.
      * exact Hb1.
  - rewrite (whole_blocks_fuel (length inp)) by lia.
    destruct (run_blocks inp ctx) as [rem ctx'] eqn:Er.
    pose proof (run_blocks_rem inp ctx) as Hrem.
    rewrite Er in Hrem. cbn [fst] in Hrem.
    eexists _, _, _. split; [reflexivity|].
    assert (Hcase : npartial = 0%nat \/ inp = []).
    { apply andb_false_iff in Etop. destruct Etop as [E|E];
        apply Nat.ltb_ge in E; [left; lia|right].
      apply length_zero_iff_nil. lia. }
    destruct Hcase as [-> | ->].
    + unfold memcpy_at. cbn [firstn app Nat.add].
      split; [rewrite length_app, length_skipn; lia|].
      split; [assumption|]. split.
      * rewrite firstn_app, Nat.sub_diag, firstn_O, app_nil_r, firstn_all.
        symmetry. exact Er.
      * intros B Bp Bi. apply Forall_app; split.
        -- destruct (run_blocks_suffix inp ctx) as [k Hk].
           rewrite Er in Hk. cbn [fst] in Hk. rewrite Hk.
           now apply limbs_le_skipn.
        -- now apply limbs_le_skipn.
    + rewrite run_blocks_short in Er by (cbn; lia).
      injection Er as <- <-. rewrite memcpy_at_nil.
      cbn [length]. rewrite Nat.add_0_r, app_nil_r.
      split; [assumption|]. split; [assumption|]. split.
      * rewrite run_blocks_short by (rewrite length_firstn; lia). reflexivity.
      * intros; assumption.
Qed.

End BlockwiseFacts.

Lemma limbs_le_repeat0 B n : 0 <= B -> limbs_le B (repeat 0 n).
Proof.
  intros HB. induction n; cbn [repeat]; constructor; [lia|assumption].
Qed.

Lemma cf_poly1305_init_ok (r_ s_ : list Z) :
  limbs_le 255 r_ -> length s_ = 16%nat -> limbs_le 255 s_ ->
  ctx_ok (cf_poly1305_init r_ s_).
Proof.
  intros Br Ns Bs. unfold ctx_ok, cf_poly1305_init. cbn [h r s partial npartial].
  assert (Hn : forall i, 0 <= nth i r_ 0 <= 255)
    by (intros; apply limbs_le_nth; [assumption|lia]).
  assert (Hm : forall i m, 0 <= m <= 255 -> 0 <= Z.land (nth i r_ 0) m <= 255).
  { intros i m Hm. specialize (Hn i). split.
    - apply Z.land_nonneg. left. lia.
    - pose proof (land_le_l (nth i r_ 0) m). lia. }
  repeat split; try reflexivity; try (cbn; lia);
    try (apply limbs_le_firstn; first [assumption|apply limbs_le_repeat0; lia]);
    try (apply limbs_le_repeat0; lia).
  - unfold limbs_le.
    repeat (constructor; [first [apply Hn | apply Hm; lia | lia]|]).
    constructor.
  - rewrite length_firstn. lia.
Qed.

(** ** Block construction *)

Lemma whole_block_limbs_eq (buf : list Z) :
  length buf = 16%nat -> whole_block_limbs buf = buf ++ [1].
Proof.
  intros Hb.
  do 16 (destruct buf as [|? buf]; [discriminate Hb|]).
  destruct buf; [|discriminate Hb].
  reflexivity.
Qed.

Lemma last_block_limbs_eq (partial : list Z) (n : nat) :
  length partial = 16%nat -> (n < 16)%nat ->
  last_block_limbs partial n
  = firstn n partial ++ 1 :: repeat 0 (16 - n).
Proof.
  intros Hb Hn.
  do 16 (destruct partial as [|? partial]; [discriminate Hb|]).
  destruct partial; [|discriminate Hb].
  do 16 (destruct n as [|n]; [reflexivity|]).
  lia.
Qed.

Lemma value_repeat0 n : value (repeat 0 n) = 0.
Proof. induction n; cbn [repeat value]; lia. Qed.

Lemma poly1305_block_correct (ctx : cf_poly1305) (c : list Z) :
  ctx_ok ctx -> length c = 17%nat -> limbs_le 255 c -> nth 16 c 0 <= 1 ->
  ctx_ok (poly1305_block ctx c)
  /\ value (h (poly1305_block ctx c)) mod p1305
     = ((value (h ctx) + value c) * value (r ctx)) mod p1305
  /\ r (poly1305_block ctx c) = r ctx
  /\ s (poly1305_block ctx c) = s ctx
  /\ partial (poly1305_block ctx c) = partial ctx
  /\ npartial (poly1305_block ctx c) = npartial ctx.
Proof.
  intros (Hh & Nr & Br & Ns & Bs & Np & Bp & Hnp) Nc Bc Hc16.
  unfold poly1305_block. cbn [h r s partial npartial].
  pose proof Hh as (Nh & _ & _).
  destruct (poly1305_add_correct (h ctx) c Nh Nc
              (limbs_le_mono 255 (2 ^ 30) _ ltac:(lia) (h_ok_limbs _ Hh))
              (limbs_le_mono 255 (2 ^ 30) _ ltac:(lia) Bc))
    as (Na & Ba & Va).
  destruct (poly1305_mul_correct _ (r ctx) Na Nr Ba Br) as (Hm & Vm).
  assert (Vc : 0 <= value c < 2 * 2 ^ 128).
  { rewrite (split_17 c Nc), value_app.
    pose proof (value_bound _ (limbs_le_firstn 255 16 _ Bc)) as B.
    pose proof (limbs_le_nth 255 c 16 Bc ltac:(lia)).
    rewrite length_firstn, Nc in *. change (Nat.min 16 17) with 16%nat in *.
    rewrite pow256_16 in *. cbn [value]. lia. }
  pose proof (h_ok_value _ Hh) as Vh.
  rewrite Z.mod_small in Va by lia.
  repeat split; try assumption; try apply Hm.
  rewrite Vm, Va. reflexivity.
Qed.

Lemma poly1305_whole_block_ok (ctx : cf_poly1305) (buf : list Z) :
  ctx_ok ctx -> length buf = 16%nat -> limbs_le 255 buf ->
  ctx_ok (poly1305_whole_block ctx buf)
  /\ value (h (poly1305_whole_block ctx buf)) mod p1305
     = ((value (h ctx) + (value buf + 2 ^ 128)) * value (r ctx)) mod p1305
  /\ r (poly1305_whole_block ctx buf) = r ctx
  /\ s (poly1305_whole_block ctx buf) = s ctx.
Proof.
  intros Hok Nb Bb. unfold poly1305_whole_block.
  rewrite (whole_block_limbs_eq buf Nb).
  destruct (poly1305_block_correct ctx (buf ++ [1]) Hok) as (H1 & H2 & H3 & H4 & _).
  - rewrite length_app, Nb. reflexivity.
  - apply limbs_le_app; [assumption|]. constructor; [lia|constructor].
  - rewrite app_nth2, Nb by lia. cbn. lia.
  - split; [exact H1|]. split; [|split; assumption].
    rewrite H2, value_app, Nb, pow256_16. cbn [value].
    do 2 f_equal; lia.
Qed.

Lemma run_blocks_inv {S : Type} (process : S -> list Z -> S) (nblock : nat)
      (P : S -> Prop) :
  (0 < nblock)%nat ->
  (forall ctx blk, P ctx -> length blk = nblock -> limbs_le 255 blk ->
                   P (process ctx blk)) ->
  forall data ctx, limbs_le 255 data -> P ctx ->
                   P (snd (run_blocks process nblock data ctx)).
Proof.
  intros Hpos Hstep data.
  remember (length data) as n eqn:En. revert data En.
  induction n as [n IH] using lt_wf_ind. intros data En ctx Bd HP.
  destruct (Nat.lt_ge_cases (length data) nblock) as [Hlt|Hge].
  - rewrite run_blocks_short by assumption. exact HP.
  - rewrite run_blocks_step by assumption.
    apply (IH (length (skipn nblock data))).
    + rewrite length_skipn. lia.
    + reflexivity.
    + now apply limbs_le_skipn.
    + apply Hstep; [assumption| |now apply limbs_le_firstn].
      rewrite length_firstn. lia.
Qed.

Lemma cf_poly1305_update_ok (ctx : cf_poly1305) (buf : list Z) :
  ctx_ok ctx -> limbs_le 255 buf ->
  exists ctx', cf_poly1305_update ctx buf = Some ctx'
               /\ ctx_ok ctx' /\ r ctx' = r ctx /\ s ctx' = s ctx.
Proof.
  intros Hok Bb. pose proof Hok as (Hh & Nr & Br & Ns & Bs & Np & Bp & Hnp).
  unfold cf_poly1305_update.
  destruct (accumulate_spec poly1305_whole_block 16 ltac:(lia)
              (partial ctx) (npartial ctx) buf ctx Hnp Np)
    as (p' & n' & c' & E & Np' & Hn' & Hrun & Hb').
  rewrite E.
  assert (Hc' : ctx_ok c' /\ r c' = r ctx /\ s c' = s ctx).
  { replace c' with (snd (run_blocks poly1305_whole_block 16
                            (firstn (npartial ctx) (partial ctx) ++ buf) ctx))
      by (rewrite <- Hrun; reflexivity).
    apply (run_blocks_inv poly1305_whole_block 16
             (fun c => ctx_ok c /\ r c = r ctx /\ s c = s ctx)).
    - lia.
    - intros c blk (Hc & Er & Es) Nb Bblk.
      destruct (poly1305_whole_block_ok c blk Hc Nb Bblk) as (K1 & _ & K3 & K4).
      split; [exact K1|split; congruence].
    - apply limbs_le_app; [now apply limbs_le_firstn|assumption].
    - split; [exact Hok|split; reflexivity]. }
  destruct Hc' as ((Hh' & Nr' & Br' & Ns' & Bs' & _) & Er' & Es').
  eexists. split; [reflexivity|].
  unfold ctx_ok. cbn [h r s partial npartial].
  repeat split; try assumption; try apply Hh'.
  apply Hb'; assumption.
Qed.

Lemma updates_ok (chunks : list (list Z)) :
  forall ctx, ctx_ok ctx -> Forall (limbs_le 255) chunks ->
  exists ctx', updates ctx chunks = Some ctx'
               /\ ctx_ok ctx' /\ r ctx' = r ctx /\ s ctx' = s ctx.
Proof.
  unfold updates.
  induction chunks as [|c chunks IH]; intros ctx Hok Hc; cbn [fold_left].
  - exists ctx. split; [reflexivity|]. split; [assumption|split; reflexivity].
  - inversion Hc as [|? ? Hc1 Hc2]; subst.
    destruct (cf_poly1305_update_ok ctx c Hok Hc1) as (c1 & E1 & Hok1 & Er & Es).
    rewrite E1.
    destruct (IH c1 Hok1 Hc2) as (c2 & E2 & Hok2 & Er2 & Es2).
    exists c2. split; [assumption|]. split; [assumption|split; congruence].
Qed.

(** ** Finalisation *)

Lemma pad17_eq (s_ : list Z) :
  length s_ = 16%nat ->
  store (fold_left (fun s17 i => store s17 i (nth i s_ 0)) (seq 0 16)
                   (repeat 0 17)) 16 0
  = s_ ++ [0].
Proof.
  intros Hb.
  do 16 (destruct s_ as [|? s_]; [discriminate Hb|]).
  destruct s_; [|discriminate Hb].
  reflexivity.
Qed.

Lemma map_u8_firstn16 (l : list Z) :
  length l = 17%nat -> limbs_le 255 l ->
  map (fun i => u8 (nth i l 0)) (seq 0 16) = firstn 16 l.
Proof.
  intros Hl Bl.
  rewrite (map_ext_in _ (fun i => nth i l 0)).
  - do 17 (destruct l as [|? l]; [discriminate Hl|]).
    destruct l; [|discriminate Hl]. reflexivity.
  - intros i _. apply u8_small.
    pose proof (limbs_le_nth 255 l i Bl ltac:(lia)). lia.
Qed.

Lemma poly1305_last_block_ok (ctx : cf_poly1305) :
  ctx_ok ctx ->
  ctx_ok (poly1305_last_block ctx)
  /\ value (h (poly1305_last_block ctx)) mod p1305
     = ((value (h ctx)
         + (value (firstn (npartial ctx) (partial ctx))
            + 256 ^ Z.of_nat (npartial ctx)))
        * value (r ctx)) mod p1305
  /\ r (poly1305_last_block ctx) = r ctx
  /\ s (poly1305_last_block ctx) = s ctx.
Proof.
  intros Hok. pose proof Hok as (Hh & Nr & Br & Ns & Bs & Np & Bp & Hnp).
  unfold poly1305_last_block.
  rewrite (last_block_limbs_eq _ _ Np Hnp).
  assert (Nf : length (firstn (npartial ctx) (partial ctx)) = npartial ctx)
    by (rewrite length_firstn; lia).
  destruct (poly1305_block_correct ctx
              (firstn (npartial ctx) (partial ctx)
                 ++ 1 :: repeat 0 (16 - npartial ctx)) Hok)
    as (H1 & H2 & H3 & H4 & _).
  - rewrite length_app, Nf. cbn [length]. rewrite repeat_length. lia.
  - apply limbs_le_app; [now apply limbs_le_firstn|].
    constructor; [lia|]. apply limbs_le_repeat0. lia.
  - rewrite app_nth2, Nf by lia.
    destruct (16 - npartial ctx)%nat as [|k] eqn:Ek; [lia|].
    cbn [nth]. rewrite nth_repeat. lia.
  - split; [exact H1|]. split; [|split; assumption].
    rewrite H2, value_app, Nf. cbn [value]. rewrite value_repeat0.
    do 2 f_equal; lia.
Qed.

Lemma absorb_pending_ok (ctx : cf_poly1305) :
  ctx_ok ctx ->
  ctx_ok (absorb_pending ctx) /\ s (absorb_pending ctx) = s ctx.
Proof.
  intros Hok. unfold absorb_pending.
  destruct (npartial ctx =? 0)%nat; [now split|].
  destruct (poly1305_last_block_ok ctx Hok) as (H1 & _ & _ & H4). now split.
Qed.

Lemma low128_of_sum (h2 : list Z) (A : Z) :
  length h2 = 17%nat -> limbs_le 255 h2 ->
  value h2 = A mod 2 ^ 136 ->
  value (firstn 16 h2) = A mod 2 ^ 128.
Proof.
  intros N2 B2 V2.
  assert (Nf : length (firstn 16 h2) = 16%nat) by (rewrite length_firstn; lia).
  pose proof (value_bound _ (limbs_le_firstn 255 16 _ B2)) as Vf.
  rewrite Nf, pow256_16 in Vf.
  pose proof (limbs_le_nth 255 h2 16 B2 ltac:(lia)) as H16.
  rewrite (split_17 h2 N2), value_app, Nf, pow256_16 in V2. cbn [value] in V2.
  set (F := value (firstn 16 h2)) in *. set (t := nth 16 h2 0) in *.
  clearbody F t. clear - V2 Vf H16.
  pose proof (Z.div_mod A (2 ^ 136) ltac:(lia)) as HA.
  apply Z.mod_unique_pos with (q := 256 * (A / 2 ^ 136) + t); [exact Vf|].
  rewrite <- V2 in HA. rewrite HA at 1. ring.
Qed.

Lemma finish_tag_eq (ctx : cf_poly1305) :
  ctx_ok ctx ->
  fst (cf_poly1305_finish ctx)
  = firstn 16 (poly1305_add (poly1305_full_reduce (h (absorb_pending ctx)))
                            (s (absorb_pending ctx) ++ [0])).
Proof.
  intros Hok.
  destruct (absorb_pending_ok ctx Hok) as (Hok' & Es).
  unfold cf_poly1305_finish. fold (absorb_pending ctx).
  cbv zeta. cbn [fst].
  pose proof Hok' as (Hh & Nr & Br & Ns & Bs & Np & Bp & Hnp).
  rewrite (pad17_eq _ Ns).
  destruct (poly1305_full_reduce_correct _ Hh) as (N1 & B1 & V1).
  destruct (poly1305_add_correct
              (poly1305_full_reduce (h (absorb_pending ctx)))
              (s (absorb_pending ctx) ++ [0])
              N1 ltac:(rewrite length_app, Ns; reflexivity)
              (limbs_le_mono 255 (2 ^ 30) _ ltac:(lia) B1))
    as (N2 & B2 & V2).
  { apply (limbs_le_mono 255); [lia|].
    apply limbs_le_app; [assumption|]. constructor; [lia|constructor]. }
  apply map_u8_firstn16; assumption.
Qed.

Lemma cf_poly1305_finish_correct (ctx : cf_poly1305) :
  ctx_ok ctx ->
  length (fst (cf_poly1305_finish ctx)) = 16%nat
  /\ limbs_le 255 (fst (cf_poly1305_finish ctx))
  /\ value (fst (cf_poly1305_finish ctx))
     = (value (h (absorb_pending ctx)) mod p1305 + value (s ctx)) mod 2 ^ 128.
Proof.
  intros Hok. rewrite (finish_tag_eq ctx Hok).
  destruct (absorb_pending_ok ctx Hok) as (Hok' & Es).
  pose proof Hok' as (Hh & Nr & Br & Ns & Bs & Np & Bp & Hnp).
  destruct (poly1305_full_reduce_correct _ Hh) as (N1 & B1 & V1).
  destruct (poly1305_add_correct
              (poly1305_full_reduce (h (absorb_pending ctx)))
              (s (absorb_pending ctx) ++ [0])
              N1 ltac:(rewrite length_app, Ns; reflexivity)
              (limbs_le_mono 255 (2 ^ 30) _ ltac:(lia) B1))
    as (N2 & B2 & V2).
  { apply (limbs_le_mono 255); [lia|].
    apply limbs_le_app; [assumption|]. constructor; [lia|constructor]. }
  split; [rewrite length_firstn; lia|].
  split; [now apply limbs_le_firstn|].
  apply low128_of_sum; try assumption.
  rewrite V2, V1, value_app, Ns, pow256_16, Es. cbn [value].
  f_equal. lia.
Qed.

(** ** Poly1305 as Horner evaluation *)

Lemma updates_cons (ctx : cf_poly1305) (c : list Z) (chunks : list (list Z)) :
  updates ctx (c :: chunks)
  = match cf_poly1305_update ctx c with
    | Some ctx' => updates ctx' chunks
    | None => None
    end.
Proof.
  unfold updates. cbn [fold_left].
  destruct (cf_poly1305_update ctx c); [reflexivity|].
  induction chunks; [reflexivity|assumption].
Qed.

Lemma land_bytes_cons (b m v M : Z) :
  0 <= b < 256 -> 0 <= m < 256 ->
  Z.land (b + 256 * v) (m + 256 * M) = Z.land b m + 256 * Z.land v M.
Proof.
  intros Hb Hm.
  assert (Em : forall x y, 0 <= x < 256 -> (x + 256 * y) mod 256 = x).
  { intros x y Hx. rewrite (Z.mul_comm 256 y), Z_mod_plus_full.
    apply Z.mod_small; lia. }
  assert (Ed : forall x y, 0 <= x < 256 -> (x + 256 * y) / 256 = y).
  { intros x y Hx. rewrite (Z.mul_comm 256 y), Z.div_add by lia.
    rewrite Z.div_small by lia. lia. }
  set (X := Z.land (b + 256 * v) (m + 256 * M)).
  assert (Hlo : X mod 256 = Z.land b m).
  { unfold X. change 256 with (2 ^ 8) at 3.
    rewrite <- Z.land_ones by lia.
    rewrite <- (Z.land_diag (Z.ones 8)).
    rewrite Z.land_assoc.
    rewrite <- (Z.land_assoc (b + 256 * v)), (Z.land_comm (m + 256 * M)),
      Z.land_assoc, <- Z.land_assoc.
    rewrite !Z.land_ones by lia. change (2 ^ 8) with 256.
    now rewrite !Em. }
  assert (Hhi : X / 256 = Z.land v M).
  { unfold X. change 256 with (2 ^ 8) at 3.
    rewrite <- Z.shiftr_div_pow2, Z.shiftr_land, !Z.shiftr_div_pow2 by lia.
    change (2 ^ 8) with 256. now rewrite !Ed. }
  rewrite (Z.div_mod X 256) by lia. rewrite Hlo, Hhi. lia.
Qed.

Lemma value_land (a : list Z) :
  forall m, limbs_le 255 a -> limbs_le 255 m ->
  value (map (fun p => Z.land (fst p) (snd p)) (combine a m))
  = Z.land (value a) (value m).
Proof.
  induction a as [|x a IH]; intros [|y m] Ha Hm; cbn [combine map value fst snd].
  - reflexivity.
  - reflexivity.
  - now rewrite Z.land_0_r.
  - inversion Ha; inversion Hm; subst.
    rewrite land_bytes_cons by lia. now rewrite IH.
Qed.

Lemma land_byte_ff (b : Z) : 0 <= b <= 255 -> Z.land b 255 = b.
Proof.
  intros Hb. change 255 with (Z.ones 8). rewrite Z.land_ones by lia.
  apply Z.mod_small. change (2 ^ 8) with 256. lia.
Qed.

Lemma init_r_value (r_ s_ : list Z) :
  length r_ = 16%nat -> limbs_le 255 r_ ->
  value (r (cf_poly1305_init r_ s_)) = Z.land (value r_) clamp_mask.
Proof.
  intros Hlen Hr.
  do 17 (destruct r_ as [|? r_]; try discriminate Hlen). clear Hlen.
  assert (Hm : clamp_mask
               = value [255; 255; 255; 15; 252; 255; 255; 15;
                        252; 255; 255; 15; 252; 255; 255; 15])
    by reflexivity.
  rewrite Hm, <- value_land;
    [|exact Hr|unfold limbs_le; repeat (constructor; [lia|]); constructor].
  unfold limbs_le in Hr.
  repeat match goal with
         | H : Forall _ (_ :: _) |- _ => inversion H; subst; clear H
         end.
  cbn [cf_poly1305_init r nth combine map fst snd value].
  rewrite !land_byte_ff by assumption. lia.
Qed.

Lemma poly_blocks_fuel (f1 : nat) :
  forall f2 rv acc msg, (length msg <= f1)%nat -> (length msg <= f2)%nat ->
  poly_blocks f1 rv acc msg = poly_blocks f2 rv acc msg.
Proof.
  induction f1 as [|f1 IH]; intros [|f2] rv acc [|x msg] H1 H2;
    cbn [length] in *; try lia; try reflexivity.
  cbn [poly_blocks]. apply IH; rewrite length_skipn; cbn [length]; lia.
Qed.

Lemma poly_blocks_step (rv acc : Z) (msg : list Z) :
  (0 < length msg)%nat ->
  poly_blocks (length msg) rv acc msg
  = poly_blocks (length (skipn 16 msg)) rv
      (((acc + (value (firstn 16 msg)
                + 256 ^ Z.of_nat (length (firstn 16 msg)))) * rv) mod p1305)
      (skipn 16 msg).
Proof.
  intros Hlen. destruct msg as [|x msg]; [cbn in Hlen; lia|].
  cbn [length poly_blocks]. apply poly_blocks_fuel.
  - rewrite length_skipn. cbn [length]. lia.
  - lia.
Qed.

Lemma horner_mod (a b c : Z) :
  ((a mod p1305 + b) * c) mod p1305 = ((a + b) * c) mod p1305.
Proof.
  rewrite <- Z.mul_mod_idemp_l by (unfold p1305; lia).
  rewrite Z.add_mod_idemp_l by (unfold p1305; lia).
  rewrite Z.mul_mod_idemp_l by (unfold p1305; lia). reflexivity.
Qed.

(** The whole-block loop advances the Horner evaluation. *)
Lemma run_blocks_poly (n : nat) :
  forall data ctx, (length data <= n)%nat ->
  ctx_ok ctx -> limbs_le 255 data ->
  let res := run_blocks poly1305_whole_block 16 data ctx in
  ctx_ok (snd res) /\ r (snd res) = r ctx /\ s (snd res) = s ctx
  /\ forall rest,
       poly_blocks (length (data ++ rest)) (value (r ctx))
         (value (h ctx) mod p1305) (data ++ rest)
       = poly_blocks (length (fst res ++ rest)) (value (r ctx))
           (value (h (snd res)) mod p1305) (fst res ++ rest).
Proof.
  induction n as [|n IH]; intros data ctx Hn Hok Hd; cbv zeta.
  - destruct data; [|cbn in Hn; lia].
    rewrite run_blocks_short by (cbn; lia). cbn [fst snd]. auto.
  - destruct (Nat.lt_ge_cases (length data) 16) as [Hs|Hl].
    + rewrite run_blocks_short by (lia || exact Hs). cbn [fst snd]. auto.
    + rewrite run_blocks_step by (lia || exact Hl).
      assert (H16 : length (firstn 16 data) = 16%nat)
        by (rewrite length_firstn; lia).
      destruct (poly1305_whole_block_ok ctx (firstn 16 data) Hok H16
                  (limbs_le_firstn _ _ _ Hd)) as (Hok' & Hv & Hr & Hs').
      destruct (IH (skipn 16 data) (poly1305_whole_block ctx (firstn 16 data))
                  ltac:(rewrite length_skipn; lia) Hok'
                  (limbs_le_skipn _ _ _ Hd)) as (I1 & I2 & I3 & I4).
      split; [exact I1|]. split; [congruence|]. split; [congruence|].
      intros rest. specialize (I4 rest). rewrite Hr in I4.
      rewrite <- I4, Hv.
      rewrite poly_blocks_step by (rewrite length_app; lia).
      rewrite firstn_app, skipn_app.
      replace (16 - length data)%nat with 0%nat by lia.
      rewrite firstn_O, skipn_O, app_nil_r, H16.
      rewrite horner_mod. reflexivity.
Qed.

(** One update advances the Horner evaluation over the bytes seen so far,
    whatever follows. *)
Lemma cf_poly1305_update_poly (ctx : cf_poly1305) (buf : list Z) :
  ctx_ok ctx -> limbs_le 255 buf ->
  exists ctx', cf_poly1305_update ctx buf = Some ctx'
    /\ ctx_ok ctx' /\ r ctx' = r ctx /\ s ctx' = s ctx
    /\ forall rest,
         poly_blocks (length ((pending ctx ++ buf) ++ rest)) (value (r ctx))
           (value (h ctx) mod p1305) ((pending ctx ++ buf) ++ rest)
         = poly_blocks (length (pending ctx' ++ rest)) (value (r ctx))
             (value (h ctx') mod p1305) (pending ctx' ++ rest).
Proof.
  intros Hok Bb.
  destruct (cf_poly1305_update_ok ctx buf Hok Bb) as (c1 & E1 & Hok1 & Er & Es).
  exists c1. split; [exact E1|]. split; [exact Hok1|].
  split; [exact Er|]. split; [exact Es|].
  pose proof Hok as (Hh & Nr & Br & Ns & Bs & Np & Bp & Hnp).
  unfold cf_poly1305_update in E1.
  destruct (accumulate_spec poly1305_whole_block 16 ltac:(lia)
              (partial ctx) (npartial ctx) buf ctx Hnp Np)
    as (p' & n' & c' & E & Np' & Hn' & Hrun & Hb').
  rewrite E in E1. injection E1 as <-.
  unfold pending at 3 4. cbn [h partial npartial].
  destruct (run_blocks_poly (length (pending ctx ++ buf)) (pending ctx ++ buf)
              ctx (Nat.le_refl _) Hok
              (limbs_le_app _ _ _ (limbs_le_firstn _ _ _ Bp) Bb))
    as (_ & _ & _ & I4).
  unfold pending in I4 |- *. rewrite <- Hrun in I4. cbn [fst snd] in I4.
  exact I4.
Qed.

Lemma updates_poly (chunks : list (list Z)) :
  forall ctx, ctx_ok ctx -> Forall (limbs_le 255) chunks ->
  exists ctx', updates ctx chunks = Some ctx'
    /\ ctx_ok ctx' /\ r ctx' = r ctx /\ s ctx' = s ctx
    /\ forall rest,
         poly_blocks (length ((pending ctx ++ concat chunks) ++ rest))
           (value (r ctx)) (value (h ctx) mod p1305)
           ((pending ctx ++ concat chunks) ++ rest)
         = poly_blocks (length (pending ctx' ++ rest)) (value (r ctx))
             (value (h ctx') mod p1305) (pending ctx' ++ rest).
Proof.
  induction chunks as [|c chunks IH]; intros ctx Hok Hc.
  - exists ctx. split; [reflexivity|]. split; [assumption|].
    split; [reflexivity|]. split; [reflexivity|].
    intros rest. cbn [concat]. now rewrite app_nil_r.
  - inversion Hc as [|? ? Hc1 Hc2]; subst.
    destruct (cf_poly1305_update_poly ctx c Hok Hc1)
      as (c1 & E1 & Hok1 & Er & Es & P1).
    destruct (IH c1 Hok1 Hc2) as (c2 & E2 & Hok2 & Er2 & Es2 & P2).
    exists c2. rewrite updates_cons, E1.
    split; [exact E2|]. split; [assumption|].
    split; [congruence|]. split; [congruence|].
    intros rest. cbn [concat].
    specialize (P2 rest). rewrite Er in P2. rewrite <- P2.
    rewrite <- (app_assoc (pending c1)).
    rewrite <- (P1 (concat chunks ++ rest)).
    rewrite <- !app_assoc. reflexivity.
Qed.

(** Absorbing the pending short block finishes the Horner evaluation. *)
Lemma absorb_pending_poly (ctx : cf_poly1305) :
  ctx_ok ctx ->
  value (h (absorb_pending ctx)) mod p1305
  = poly_blocks (length (pending ctx)) (value (r ctx))
      (value (h ctx) mod p1305) (pending ctx).
Proof.
  intros Hok. pose proof Hok as (Hh & Nr & Br & Ns & Bs & Np & Bp & Hnp).
  assert (Hl : length (pending ctx) = npartial ctx)
    by (unfold pending; rewrite length_firstn; lia).
  unfold absorb_pending.
  destruct (Nat.eqb_spec (npartial ctx) 0) as [E0|N0].
  - rewrite Hl, E0. reflexivity.
  - destruct (poly1305_last_block_ok ctx Hok) as (_ & Hv & _).
    rewrite Hv. fold (pending ctx). rewrite poly_blocks_step by lia.
    rewrite (skipn_all2 (n:=16)) by lia.
    rewrite (firstn_all2 (n:=16)) by lia.
    cbn [length poly_blocks]. rewrite horner_mod, Hl. reflexivity.
Qed.

Lemma value_inj (a : list Z) :
  forall b, length a = length b -> limbs_le 255 a -> limbs_le 255 b ->
  value a = value b -> a = b.
Proof.
  induction a as [|x a IH]; intros [|y b] Hl Ha Hb Hv; try discriminate.
  - reflexivity.
  - inversion Ha; inversion Hb; subst. cbn [value length] in *.
    assert (x = y /\ value a = value b) as (-> & Hv') by lia.
    f_equal. apply IH; auto.
Qed.

Lemma poly1305_mac_value (r_ s_ : list Z)
    (chunks : list (list Z)) :
  length r_ = 16%nat -> limbs_le 255 r_ ->
  length s_ = 16%nat -> limbs_le 255 s_ ->
  Forall (limbs_le 255) chunks ->
  exists ctx,
    updates (cf_poly1305_init r_ s_) chunks = Some ctx
    /\ length (fst (cf_poly1305_finish ctx)) = 16%nat
    /\ limbs_le 255 (fst (cf_poly1305_finish ctx))
    /\ value (fst (cf_poly1305_finish ctx))
       = poly1305_mac r_ s_ (concat chunks).
Proof.
  intros Nr Br Ns Bs Hc.
  pose proof (cf_poly1305_init_ok r_ s_ Br Ns Bs) as Hok0.
  destruct (updates_poly chunks _ Hok0 Hc) as (ctx & E & Hok & Er & Es & P).
  exists ctx. split; [exact E|].
  destruct (cf_poly1305_finish_correct ctx Hok) as (F1 & F2 & F3).
  split; [exact F1|]. split; [exact F2|].
  rewrite F3, (absorb_pending_poly ctx Hok).
  specialize (P []). rewrite !app_nil_r in P.
  rewrite Er in *. rewrite <- P.
  unfold poly1305_mac. rewrite <- (init_r_value r_ s_ Nr Br).
  rewrite Es.
  change (s (cf_poly1305_init r_ s_)) with (firstn 16 s_).
  rewrite firstn_all2 by lia.
  change (pending (cf_poly1305_init r_ s_)) with (@nil Z).
  change (h (cf_poly1305_init r_ s_)) with (repeat 0 17).
  reflexivity.
Qed.


(** The sign test of the full reduction: bit 7 of the top limb of
    [x - (2^130 - 5)] (computed as [x + negative_1305] on 17 limbs) is set
    exactly when [x < 2^130 - 5]; the masks then keep [x] or take the
    difference. *)
Lemma poly1305_full_reduce_cases (x : list Z) :
  h_ok x ->
  let xsub := poly1305_add x negative_1305 in
  value xsub = (value x - p1305) mod 2 ^ 136
  /\ ((value x < p1305 /\ 128 <= nth 16 xsub 0
       /\ mask_u32 (Z.land (nth 16 xsub 0) 0x80) 0x80 = 0xffffffff
       /\ poly1305_full_reduce x = x)
      \/ (p1305 <= value x /\ nth 16 xsub 0 < 128
          /\ mask_u32 (Z.land (nth 16 xsub 0) 0x80) 0x80 = 0
          /\ poly1305_full_reduce x = xsub)).
Proof.
  intros Hok. pose proof Hok as (Hlen & _ & _).
  pose proof (h_ok_limbs x Hok) as Lx.
  pose proof (h_ok_value x Hok) as Vx.
  cbv zeta. unfold poly1305_full_reduce.
  rewrite (copy_loop_17 (repeat 0 17) x eq_refl Hlen).
  destruct (poly1305_add_correct x negative_1305 Hlen eq_refl
              (limbs_le_mono 255 (2 ^ 30) x ltac:(lia) Lx)) as (Ns & Ls & Vs).
  { unfold negative_1305, limbs_le. repeat constructor; lia. }
  set (xsub := poly1305_add x negative_1305) in *.
  rewrite (select_loop_17 _ _ x xsub Hlen Ns).
  rewrite negative_1305_value in Vs.
  pose proof (limbs_le_nth 255 xsub 16 Ls ltac:(lia)) as H16.
  pose proof (value_bound _ (limbs_le_firstn 255 16 _ Ls)) as Blo.
  rewrite length_firstn, Ns in Blo. change (Nat.min 16 17) with 16%nat in Blo.
  rewrite pow256_16 in Blo.
  assert (Vsplit : value xsub
                   = value (firstn 16 xsub) + 2 ^ 128 * nth 16 xsub 0).
  { rewrite (split_17 xsub Ns) at 1.
    rewrite value_app, length_firstn, Ns. change (Nat.min 16 17) with 16%nat.
    rewrite pow256_16. cbn [value]. lia. }
  split.
  { rewrite Vs.
    replace (value x + (2 ^ 136 - p1305))
      with (value x - p1305 + 1 * 2 ^ 136) by ring.
    apply Z_mod_plus_full. }
  rewrite land_0x80 by lia.
  destruct (Z.ltb_spec (nth 16 xsub 0) 128) as [Hlt|Hge].
  - right.
    rewrite mask_u32_spec by (unfold is_u32; lia).
    change (0 =? 128) with false. cbv iota.
    change (Z.lxor 0 4294967295) with 0xffffffff.
    rewrite zip_select_take by (try congruence; assumption).
    assert (Hp : p1305 <= value x).
    { destruct (Z_lt_le_dec (value x) p1305) as [Hc|]; [|assumption].
      rewrite Z.mod_small in Vs by (unfold p1305 in *; lia).
      unfold p1305 in *. lia. }
    repeat split; try assumption; reflexivity.
  - left.
    rewrite mask_u32_spec by (unfold is_u32; lia).
    change (128 =? 128) with true. cbv iota.
    change (Z.lxor 4294967295 4294967295) with 0.
    rewrite zip_select_keep by (try congruence; assumption).
    assert (Hp : value x < p1305).
    { destruct (Z_lt_le_dec (value x) p1305) as [|Hc]; [assumption|].
      replace (value x + (2 ^ 136 - p1305))
        with (value x - p1305 + 1 * 2 ^ 136) in Vs by ring.
      rewrite Z_mod_plus_full, Z.mod_small in Vs by (unfold p1305 in *; lia).
      unfold p1305 in *. lia. }
    repeat split; try assumption; reflexivity.
Qed.

(** ** Claims about Poly1305 *)

Lemma chain_fits_spec (vs : list Z) :
  forall c, 0 <= c -> limbs_le (2 ^ 32 - 1) vs -> chain_fits c vs ->
  value (fst (chain c vs)) + 256 ^ Z.of_nat (length vs) * snd (chain c vs)
    = c + value vs
  /\ limbs_le 255 (fst (chain c vs))
  /\ 0 <= snd (chain c vs)
  /\ length (fst (chain c vs)) = length vs.
Proof.
  induction vs as [|v vs IH]; intros c Hc Hvs Hfit.
  - cbn [chain fst snd length value]. rewrite Z.pow_0_r.
    repeat split; try lia. constructor.
  - inversion Hvs as [|? ? Hv Hvs']; subst. destruct Hfit as (Hf & Hfit).
    cbn [chain].
    rewrite (u32_small (c + v)) by lia.
    rewrite shiftr_8, land_0xff.
    assert (Hq : 0 <= (c + v) / 256) by (apply Z.div_pos; lia).
    specialize (IH ((c + v) / 256) Hq Hvs' Hfit).
    destruct (chain ((c + v) / 256) vs) as [o c'] eqn:E.
    cbn [fst snd length value] in IH |- *.
    destruct IH as (IH1 & IH2 & IH3 & IH4).
    pose proof (Z.mod_pos_bound (c + v) 256 ltac:(lia)).
    pose proof (Z.div_mod (c + v) 256 ltac:(lia)).
    repeat split; try lia.
    + rewrite Nat2Z.inj_succ, Z.pow_succ_r by lia. lia.
    + constructor; [lia|assumption].
Qed.

Lemma chain_fits_of_bounds (K B : Z) :
  K + B < 2 ^ 32 -> (K + B) / 256 <= K ->
  forall vs c, 0 <= c <= K -> limbs_le B vs -> chain_fits c vs.
Proof.
  intros HK1 HK2. induction vs as [|v vs IH]; intros c Hc Hvs; cbn [chain_fits].
  - exact I.
  - inversion Hvs as [|? ? Hv Hvs']; subst. split; [lia|].
    apply IH; [|assumption]. split; [apply Z.div_pos; lia|].
    etransitivity; [|exact HK2]. apply Z.div_le_mono; lia.
Qed.

(** Limbs of at most 2^31, in particular the column sums of
    [poly1305_mul] on byte-sized limbs, never make the carry wrap. *)
Lemma min_reduce_fits_of_bound (x : list Z) :
  length x = 17%nat -> limbs_le (2 ^ 31) x -> min_reduce_fits x.
Proof.
  intros Hlen Hx. unfold min_reduce_fits.
  pose proof (limbs_le_nth _ _ 16 Hx ltac:(lia)) as Hx16.
  assert (Hlo : length (firstn 16 x) = 16%nat) by (rewrite length_firstn; lia).
  destruct (chain_spec (2 ^ 24) (2 ^ 31) ltac:(lia) ltac:(now vm_compute)
              (firstn 16 x) 0 ltac:(lia) (limbs_le_firstn _ 16 _ Hx))
    as (V1 & L1 & C1 & N1).
  split.
  - apply (chain_fits_of_bounds (2 ^ 24) (2 ^ 31)); try lia;
      [now vm_compute|now apply limbs_le_firstn].
  - cbv zeta.
    set (t := snd (chain 0 (firstn 16 x)) + nth 16 x 0) in *.
    assert (Hq : 0 <= t / 4 <= 2 ^ 29 + 2 ^ 22).
    { split; [apply Z.div_pos; lia|]. apply Z.div_le_upper_bound; lia. }
    split; [lia|]. split; [lia|].
    apply (chain_fits_of_bounds (2 ^ 32 - 256) 255); try lia;
      [now vm_compute|exact L1].
Qed.

(** C10.  [poly1305_min_reduce] preserves the represented value modulo
    2^130 - 5.  For 17 [uint32_t] limbs on which the carry accumulator
    never leaves the [uint32_t] range, the output represents the same
    integer modulo 2^130 - 5, limbs 0..15 are at most 0xff and limb 16 is at
    most 4.  The column sums [poly1305_mul] builds from byte-sized limbs
    satisfy the precondition, and a limb 16 of at most 4 keeps the column
    sums of the next multiply (after the next block has been added) below
    2^32.  The result need not be the canonical residue. *)
Theorem C10_min_reduce_preserves_value (x : list Z) :
  length x = 17%nat -> limbs_le (2 ^ 32 - 1) x -> min_reduce_fits x ->
  let z := poly1305_min_reduce x in
  length z = 17%nat
  /\ value z mod p1305 = value x mod p1305
  /\ (forall i, (i < 16)%nat -> 0 <= nth i z 0 <= 0xff)
  /\ 0 <= nth 16 z 0 <= 4
  (* the precondition covers the column sums of [poly1305_mul] *)
  /\ (forall a b, length a = 17%nat -> limbs_le 255 a -> limbs_le 255 b ->
        let cols := map (mul_column a b) (seq 0 17) in
        length cols = 17%nat /\ limbs_le (2 ^ 32 - 1) cols
        /\ min_reduce_fits cols)
  (* the next multiply cannot overflow *)
  /\ (forall c y i,
         length c = 17%nat -> limbs_le 255 c ->
         limbs_le 255 y -> (i < 17)%nat ->
         mul_column (poly1305_add z c) y i
         = col_lo (poly1305_add z c) y i + 320 * col_hi (poly1305_add z c) y i
         /\ 0 <= mul_column (poly1305_add z c) y i < 2 ^ 32).
Proof.
  intros Hlen Hx (F1 & F2). cbv zeta in F2. destruct F2 as (F2 & F3 & F4).
  cbv zeta.
  assert (Hlo : length (firstn 16 x) = 16%nat) by (rewrite length_firstn; lia).
  pose proof (limbs_le_nth _ _ 16 Hx ltac:(lia)) as Hx16.
  destruct (chain_fits_spec (firstn 16 x) 0 ltac:(lia)
              (limbs_le_firstn _ 16 _ Hx) F1) as (V1 & L1 & C1 & N1).
  assert (Hz : length (poly1305_min_reduce x) = 17%nat
               /\ value (poly1305_min_reduce x) mod p1305 = value x mod p1305
               /\ limbs_le 255 (firstn 16 (poly1305_min_reduce x))
               /\ 0 <= nth 16 (poly1305_min_reduce x) 0 <= 4).
  { rewrite (min_reduce_chain x Hlen). unfold min_reduce_spec.
    destruct (chain 0 (firstn 16 x)) as [lo c].
    cbn [fst snd] in V1, L1, C1, N1, F2, F3, F4.
    rewrite Hlo in V1, N1. rewrite pow256_16 in V1.
    rewrite (u32_small (c + nth 16 x 0)) by lia.
    set (t := c + nth 16 x 0) in *.
    rewrite shiftr_2, land_0x03.
    pose proof (Z.div_mod t 4 ltac:(lia)) as Ht.
    pose proof (Z.mod_pos_bound t 4 ltac:(lia)) as Htm.
    assert (Hq : 0 <= t / 4) by (apply Z.div_pos; lia).
    rewrite (u32_small (5 * (t / 4))) by lia.
    destruct (chain_fits_spec lo (5 * (t / 4)) ltac:(lia)
                (limbs_le_mono 255 (2 ^ 32 - 1) lo ltac:(lia) L1) F4)
      as (V2 & L2 & C2 & N2).
    destruct (chain (5 * (t / 4)) lo) as [lo' c'].
    cbn [fst snd] in V2, L2, C2, N2.
    rewrite N1 in V2, N2. rewrite pow256_16 in V2.
    pose proof (value_bound lo L1) as B1. rewrite N1, pow256_16 in B1.
    pose proof (value_bound lo' L2) as B2. rewrite N2, pow256_16 in B2.
    assert (Hc' : c' <= 1) by lia.
    rewrite (u32_small (t mod 4 + c')) by lia.
    split; [rewrite length_app, N2; reflexivity|]. split; [|split].
    - rewrite value_app, N2, pow256_16. cbn [value].
      rewrite (split_17 x Hlen) at 1. rewrite value_app, Hlo, pow256_16.
      cbn [value].
      replace (value (firstn 16 x) + 2 ^ 128 * (nth 16 x 0 + 256 * 0))
        with (value lo' + 2 ^ 128 * (t mod 4 + c' + 256 * 0)
              + (t / 4) * p1305) by (unfold p1305, t in *; lia).
      symmetry. apply Z_mod_plus_full.
    - rewrite firstn_app, N2, Nat.sub_diag, firstn_O, app_nil_r.
      rewrite firstn_all2 by lia. exact L2.
    - rewrite app_nth2, N2 by lia. cbn. lia. }
  destruct Hz as (N & V & L & T).
  assert (Hok : h_ok (poly1305_min_reduce x)) by (split; [|split]; assumption).
  assert (Hadd : forall c, length c = 17%nat -> limbs_le 255 c ->
                 limbs_le 255 (poly1305_add (poly1305_min_reduce x) c)).
  { intros c Nc Bc.
    apply (poly1305_add_correct _ c N Nc
             (limbs_le_mono 255 (2 ^ 30) _ ltac:(lia) (h_ok_limbs _ Hok))
             (limbs_le_mono 255 (2 ^ 30) _ ltac:(lia) Bc)). }
  split; [exact N|]. split; [exact V|]. split; [|split; [exact T|split]].
  - intros i Hi.
    pose proof (limbs_le_nth 255 _ i L ltac:(lia)) as Hn.
    rewrite nth_firstn in Hn.
    destruct (Nat.ltb_spec i 16); [exact Hn|lia].
  - intros a b Na Ba Bb. cbv zeta.
    assert (Lc : limbs_le (2 ^ 31) (map (mul_column a b) (seq 0 17))).
    { unfold limbs_le. apply Forall_forall. intros v Hv.
      apply in_map_iff in Hv. destruct Hv as (i & <- & Hi).
      apply in_seq in Hi. apply mul_column_exact; try assumption. lia. }
    assert (Nc : length (map (mul_column a b) (seq 0 17)) = 17%nat)
      by (now rewrite length_map, length_seq).
    split; [exact Nc|]. split.
    + apply (limbs_le_mono (2 ^ 31)); [lia|exact Lc].
    + apply min_reduce_fits_of_bound; assumption.
  - intros c y i Nc Bc By Hi.
    pose proof (mul_column_exact _ y i (Hadd c Nc Bc) By Hi) as (M1 & M2).
    split; [exact M1|lia].
Qed.

Lemma C10_min_reduce_witness :
  let x := repeat 353736000 17 in
  min_reduce_fits x
  /\ value (poly1305_min_reduce x) mod p1305 = value x mod p1305.
Proof.
  cbv zeta.
  assert (H1 : length (repeat 353736000 17) = 17%nat) by reflexivity.
  assert (H2 : limbs_le (2 ^ 32 - 1) (repeat 353736000 17))
    by (unfold limbs_le; cbn [repeat]; repeat (constructor; [lia|]);
        constructor).
  assert (H3 : min_reduce_fits (repeat 353736000 17))
    by (vm_compute; repeat split; discriminate).
  split; [exact H3|].
  exact (proj1 (proj2 (C10_min_reduce_preserves_value _ H1 H2 H3))).
Defined.

Lemma last_block_limbs_shape (partial : list Z) (n : nat) :
  length partial = 16%nat -> (n < 16)%nat ->
  let c := last_block_limbs partial n in
  length c = 17%nat
  /\ (forall i, (i < n)%nat -> nth i c 0 = nth i partial 0)
  /\ nth n c 0 = 1
  /\ (forall i, (n < i <= 16)%nat -> nth i c 0 = 0).
Proof.
  intros Np Hn. cbv zeta. rewrite (last_block_limbs_eq partial n Np Hn).
  assert (Nf : length (firstn n partial) = n) by (rewrite length_firstn; lia).
  repeat split.
  - rewrite length_app, Nf. cbn [length]. rewrite repeat_length. lia.
  - intros i Hi. rewrite app_nth1 by lia. rewrite nth_firstn.
    destruct (Nat.ltb_spec i n); [reflexivity|lia].
  - rewrite app_nth2, Nf, Nat.sub_diag by lia. reflexivity.
  - intros i Hi. rewrite app_nth2, Nf by lia.
    destruct (i - n)%nat as [|k] eqn:Ek; [lia|].
    cbn [nth]. apply nth_repeat.
Qed.

(** C5.  Block marker placement.  A full 16-byte block is extended with the
    marker limb 1 at index 16 (the bit 2^128); a final short block of
    [n] bytes, [0 < n < 16], gets the marker 1 at limb [n] and zero in every
    higher limb up to 16.  The 17 limbs are added to the accumulator, which
    is then multiplied by [r] modulo 2^130 - 5. *)
Theorem C5_block_marker_placement (ctx : cf_poly1305) (buf : list Z) :
  ctx_ok ctx -> length buf = 16%nat -> limbs_le 255 buf ->
  (* a whole block *)
  (whole_block_limbs buf = buf ++ [1]
   /\ nth 16 (whole_block_limbs buf) 0 = 1
   /\ value (h (poly1305_whole_block ctx buf)) mod p1305
      = ((value (h ctx) + (value buf + 2 ^ 128)) * value (r ctx)) mod p1305)
  (* the final short block *)
  /\ ((0 < npartial ctx)%nat ->
      let n := npartial ctx in
      let c := last_block_limbs (partial ctx) n in
      length c = 17%nat
      /\ (forall i, (i < n)%nat -> nth i c 0 = nth i (partial ctx) 0)
      /\ nth n c 0 = 1
      /\ (forall i, (n < i <= 16)%nat -> nth i c 0 = 0)
      /\ value (h (poly1305_last_block ctx)) mod p1305
         = ((value (h ctx)
             + (value (firstn n (partial ctx)) + 256 ^ Z.of_nat n))
            * value (r ctx)) mod p1305)
  (* the block step: add, then multiply by r modulo 2^130 - 5 *)
  /\ (forall c, length c = 17%nat -> limbs_le 255 c -> nth 16 c 0 <= 1 ->
        h (poly1305_block ctx c)
        = poly1305_mul (poly1305_add (h ctx) c) (r ctx)
        /\ value (poly1305_add (h ctx) c) = value (h ctx) + value c
        /\ value (h (poly1305_block ctx c)) mod p1305
           = ((value (h ctx) + value c) * value (r ctx)) mod p1305).
Proof.
  intros Hok Nb Bb.
  pose proof Hok as (Hh & Nr & Br & Ns & Bs & Np & Bp & Hnp).
  split; [|split].
  - split; [exact (whole_block_limbs_eq buf Nb)|]. split.
    + rewrite (whole_block_limbs_eq buf Nb), app_nth2, Nb by lia. reflexivity.
    + apply (poly1305_whole_block_ok ctx buf Hok Nb Bb).
  - intros Hpos. cbv zeta.
    destruct (last_block_limbs_shape (partial ctx) (npartial ctx) Np Hnp)
      as (S1 & S2 & S3 & S4).
    repeat split; try assumption.
    apply (poly1305_last_block_ok ctx Hok).
  - intros c Nc Bc Hc.
    destruct (poly1305_block_correct ctx c Hok Nc Bc Hc) as (_ & V & _).
    split; [reflexivity|]. split; [|exact V].
    pose proof Hh as (Nh & _ & _).
    destruct (poly1305_add_correct (h ctx) c Nh Nc
                (limbs_le_mono 255 (2 ^ 30) _ ltac:(lia) (h_ok_limbs _ Hh))
                (limbs_le_mono 255 (2 ^ 30) _ ltac:(lia) Bc))
      as (_ & _ & Va).
    rewrite Va. apply Z.mod_small.
    pose proof (h_ok_value _ Hh).
    assert (Vc : 0 <= value c < 2 * 2 ^ 128).
    { rewrite (split_17 c Nc), value_app.
      pose proof (value_bound _ (limbs_le_firstn 255 16 _ Bc)) as B.
      pose proof (limbs_le_nth 255 c 16 Bc ltac:(lia)).
      rewrite length_firstn, Nc in *. change (Nat.min 16 17) with 16%nat in *.
      rewrite pow256_16 in *. cbn [value]. lia. }
    lia.
Qed.

(** C4.  Finalisation.  For every context reached from [cf_poly1305_init]
    by a sequence of updates, [cf_poly1305_finish] absorbs the pending
    partial block, reduces the accumulator fully by computing
    [h - (2^130 - 5)] on 17 limbs and selecting with the mask derived from
    bit 7 of the top limb of the difference, adds the pad [s] and emits the
    low 128 bits: the tag is [((h mod 2^130-5) + s) mod 2^128].  Here [h] is
    the accumulated polynomial value: modulo 2^130 - 5 it is the Horner
    evaluation, at the clamped key, of all the bytes given to the updates,
    the pending short block included. *)
Theorem C4_finish_tag (r_ s_ : list Z) (chunks : list (list Z)) :
  length r_ = 16%nat -> limbs_le 255 r_ ->
  length s_ = 16%nat -> limbs_le 255 s_ ->
  Forall (limbs_le 255) chunks ->
  exists ctx,
    updates (cf_poly1305_init r_ s_) chunks = Some ctx
    /\ let ctx' := if (npartial ctx =? 0)%nat then ctx
                   else poly1305_last_block ctx in
       let hv := value (h ctx') in
       let xsub := poly1305_add (h ctx') negative_1305 in
       let tag := fst (cf_poly1305_finish ctx) in
       value xsub = (hv - p1305) mod 2 ^ 136
       /\ mask_u32 (Z.land (nth 16 xsub 0) 0x80) 0x80
          = (if hv <? p1305 then 0xffffffff else 0)
       /\ poly1305_full_reduce (h ctx')
          = (if hv <? p1305 then h ctx' else xsub)
       /\ value (poly1305_full_reduce (h ctx')) = hv mod p1305
       /\ length tag = 16%nat /\ limbs_le 255 tag
       /\ value tag = (hv mod p1305 + value s_) mod 2 ^ 128
       (* the pending partial block is absorbed *)
       /\ (npartial ctx <> 0%nat ->
           hv mod p1305
           = ((value (h ctx)
               + (value (pending ctx) + 256 ^ Z.of_nat (npartial ctx)))
              * value (r ctx)) mod p1305)
       /\ (npartial ctx = 0%nat -> hv = value (h ctx))
       (* [h] is the accumulated polynomial value of the whole input *)
       /\ value (r ctx) = Z.land (value r_) clamp_mask
       /\ hv mod p1305
          = poly_blocks (length (concat chunks))
              (Z.land (value r_) clamp_mask) 0 (concat chunks)
       /\ value tag = poly1305_mac r_ s_ (concat chunks).
Proof.
  intros Nr Br Ns Bs Hc.
  pose proof (cf_poly1305_init_ok r_ s_ Br Ns Bs) as Hok0.
  destruct (updates_poly chunks _ Hok0 Hc) as (ctx & E & Hok & Er & Es & P).
  exists ctx. split; [exact E|]. cbv zeta.
  fold (absorb_pending ctx).
  destruct (absorb_pending_ok ctx Hok) as ((Hh & _) & _).
  destruct (poly1305_full_reduce_cases _ Hh) as (Vsub & Hcase).
  destruct (poly1305_full_reduce_correct _ Hh) as (_ & _ & Vfr).
  destruct (cf_poly1305_finish_correct ctx Hok) as (Nt & Bt & Vt).
  assert (Es' : s ctx = s_).
  { rewrite Es. cbn [cf_poly1305_init s]. apply firstn_all2. lia. }
  rewrite Es' in Vt.
  assert (Hr : value (r ctx) = Z.land (value r_) clamp_mask)
    by (rewrite Er; apply (init_r_value r_ s_ Nr Br)).
  assert (Hhorner : value (h (absorb_pending ctx)) mod p1305
                    = poly_blocks (length (concat chunks))
                        (Z.land (value r_) clamp_mask) 0 (concat chunks)).
  { rewrite (absorb_pending_poly ctx Hok), Hr.
    specialize (P []). rewrite !app_nil_r in P.
    rewrite <- (init_r_value r_ s_ Nr Br). rewrite <- P.
    change (pending (cf_poly1305_init r_ s_)) with (@nil Z).
    change (h (cf_poly1305_init r_ s_)) with (repeat 0 17).
    reflexivity. }
  assert (Hpend : npartial ctx <> 0%nat ->
                  value (h (absorb_pending ctx)) mod p1305
                  = ((value (h ctx)
                      + (value (pending ctx)
                         + 256 ^ Z.of_nat (npartial ctx)))
                     * value (r ctx)) mod p1305).
  { intros Hn. unfold absorb_pending.
    destruct (Nat.eqb_spec (npartial ctx) 0) as [|_]; [contradiction|].
    exact (proj1 (proj2 (poly1305_last_block_ok ctx Hok))). }
  assert (Hnone : npartial ctx = 0%nat ->
                  value (h (absorb_pending ctx)) = value (h ctx)).
  { intros Hn. unfold absorb_pending. now rewrite Hn. }
  assert (Hmac : value (fst (cf_poly1305_finish ctx))
                 = poly1305_mac r_ s_ (concat chunks)).
  { rewrite Vt, Hhorner. reflexivity. }
  split; [exact Vsub|].
  assert (Hsel : mask_u32 (Z.land (nth 16 (poly1305_add
                    (h (absorb_pending ctx)) negative_1305) 0) 0x80) 0x80
                 = (if value (h (absorb_pending ctx)) <? p1305
                    then 0xffffffff else 0)
                 /\ poly1305_full_reduce (h (absorb_pending ctx))
                    = (if value (h (absorb_pending ctx)) <? p1305
                       then h (absorb_pending ctx)
                       else poly1305_add (h (absorb_pending ctx))
                              negative_1305)).
  { destruct Hcase as [(Hlt & _ & Hm & Hf) | (Hge & _ & Hm & Hf)].
    - destruct (Z.ltb_spec (value (h (absorb_pending ctx))) p1305); [|lia].
      now split.
    - destruct (Z.ltb_spec (value (h (absorb_pending ctx))) p1305); [lia|].
      now split. }
  destruct Hsel as (Hm & Hf).
  split; [exact Hm|]. split; [exact Hf|]. split; [exact Vfr|].
  split; [exact Nt|]. split; [exact Bt|]. split; [exact Vt|].
  split; [exact Hpend|]. split; [exact Hnone|]. split; [exact Hr|].
  split; [exact Hhorner|exact Hmac].
Qed.

(** ** The constant-time comparison *)

Lemma mem_eq_fold_zero (a b : list Z) (js : list nat) (d : Z) :
  0 <= d < 256 ->
  fold_left (fun diff i =>
               u8 (Z.lor diff (Z.lxor (nth i a 0) (nth i b 0)))) js d = 0
  <-> d = 0 /\ forall i, In i js -> u8 (Z.lxor (nth i a 0) (nth i b 0)) = 0.
Proof.
  revert d. induction js as [|j js IH]; intros d Hd; cbn [fold_left].
  - split; [intros ->; split; [reflexivity|intros ? []]|intros [-> _]; reflexivity].
  - assert (Hu : forall x, 0 <= u8 x < 256)
      by (intros; unfold u8; apply Z.mod_pos_bound; lia).
    rewrite IH by apply Hu.
    assert (Hor : u8 (Z.lor d (Z.lxor (nth j a 0) (nth j b 0))) = 0
                  <-> d = 0 /\ u8 (Z.lxor (nth j a 0) (nth j b 0)) = 0).
    { unfold u8. change (2 ^ 8) with (2 ^ 8).
      rewrite <- !Z.land_ones by lia.
      rewrite Z.land_lor_distr_l, Z.lor_eq_0_iff.
      rewrite (Z.land_ones d), (Z.mod_small d) by lia. reflexivity. }
    rewrite Hor. split.
    + intros ((-> & Hj) & Hrest). split; [reflexivity|].
      intros i [<-|Hi]; [exact Hj|now apply Hrest].
    + intros (-> & Hall). split; [split; [reflexivity|]|].
      * apply Hall. now left.
      * intros i Hi. apply Hall. now right.
Qed.

(** [mem_eq] scans all [len] positions and answers 1 exactly when no
    position differs (modulo the [uint8_t] truncation of the accumulator). *)
Lemma mem_eq_spec (a b : list Z) (len : nat) :
  (mem_eq a b len = 1 \/ mem_eq a b len = 0)
  /\ (mem_eq a b len = 1
      <-> forall i, (i < len)%nat -> u8 (Z.lxor (nth i a 0) (nth i b 0)) = 0).
Proof.
  unfold mem_eq.
  pose proof (mem_eq_fold_zero a b (seq 0 len) 0 ltac:(lia)) as Hz.
  destruct (Z.eqb_spec
              (fold_left (fun diff i =>
                 u8 (Z.lor diff (Z.lxor (nth i a 0) (nth i b 0))))
                 (seq 0 len) 0) 0) as [E|E].
  - split; [now left|]. split; [|reflexivity]. intros _ i Hi.
    apply Hz; [assumption|]. apply in_seq. lia.
  - split; [now right|]. split; [discriminate|]. intros Hall. exfalso.
    apply E, Hz. split; [reflexivity|]. intros i Hi. apply Hall.
    apply in_seq in Hi. lia.
Qed.

Lemma u8_lxor_bytes (x y : Z) :
  0 <= x <= 255 -> 0 <= y <= 255 -> (u8 (Z.lxor x y) = 0 <-> x = y).
Proof.
  intros Hx Hy. split.
  - intros E. apply Z.lxor_eq.
    assert (Hr : 0 <= Z.lxor x y < 2 ^ 8).
    { split; [apply Z.lxor_nonneg; lia|].
      destruct (Z.eq_dec x 0) as [->|]; [rewrite Z.lxor_0_l; lia|].
      destruct (Z.eq_dec y 0) as [->|]; [rewrite Z.lxor_0_r; lia|].
      destruct (Z.eq_dec (Z.lxor x y) 0) as [->|]; [lia|].
      apply Z.log2_lt_pow2; [pose proof (Z.lxor_nonneg x y); lia|].
      eapply Z.le_lt_trans; [apply Z.log2_lxor; lia|].
      apply Z.max_lub_lt; apply Z.log2_lt_pow2; lia. }
    rewrite u8_small in E by exact Hr. exact E.
  - intros ->. rewrite Z.lxor_nilpotent. reflexivity.
Qed.

(** On byte arrays [mem_eq] decides equality of the first [len] bytes. *)
Lemma mem_eq_bytes (a b : list Z) (len : nat) :
  limbs_le 255 a -> limbs_le 255 b ->
  (len <= length a)%nat -> (len <= length b)%nat ->
  (mem_eq a b len = 1 <-> firstn len a = firstn len b).
Proof.
  intros Ba Bb La Lb.
  rewrite (proj2 (mem_eq_spec a b len)). split.
  - intros Hall. apply nth_ext with (d := 0) (d' := 0).
    + rewrite !length_firstn. lia.
    + intros i Hi. rewrite length_firstn in Hi. rewrite !nth_firstn.
      destruct (Nat.ltb_spec i len); [|reflexivity].
      apply u8_lxor_bytes; try (apply limbs_le_nth; [assumption|lia]).
      apply Hall. lia.
  - intros E i Hi.
    assert (Ei : nth i a 0 = nth i b 0).
    { pose proof (f_equal (fun l => nth i l 0) E) as Hn. cbv beta in Hn.
      rewrite !nth_firstn in Hn.
      destruct (Nat.ltb_spec i len); [exact Hn|lia]. }
    rewrite Ei, Z.lxor_nilpotent. reflexivity.
Qed.

Lemma mem_eq_refl (a : list Z) (len : nat) : mem_eq a a len = 1.
Proof.
  apply (proj2 (mem_eq_spec a a len)). intros i _.
  rewrite Z.lxor_nilpotent. reflexivity.
Qed.

(** ** [process] *)

Lemma cf_poly1305_init_shape (r_ s_ : list Z) :
  ctx_shape (cf_poly1305_init r_ s_).
Proof. split; [reflexivity|cbn; lia]. Qed.

(** An update never trips the accumulator's assertion. *)
Lemma cf_poly1305_update_total (ctx : cf_poly1305) (buf : list Z) :
  ctx_shape ctx ->
  exists ctx', cf_poly1305_update ctx buf = Some ctx' /\ ctx_shape ctx'.
Proof.
  intros (Np & Hnp). unfold cf_poly1305_update.
  destruct (accumulate_spec poly1305_whole_block 16 ltac:(lia)
              (partial ctx) (npartial ctx) buf ctx Hnp Np)
    as (p' & n' & c' & E & Np' & Hn' & _).
  rewrite E. eexists. split; [reflexivity|]. split; assumption.
Qed.

Lemma updates_total (chunks : list (list Z)) (ctx : cf_poly1305) :
  ctx_shape ctx ->
  exists ctx', updates ctx chunks = Some ctx' /\ ctx_shape ctx'.
Proof.
  unfold updates. revert ctx.
  induction chunks as [|c chunks IH]; intros ctx Hs; cbn [fold_left].
  - now exists ctx.
  - destruct (cf_poly1305_update_total ctx c Hs) as (c1 & E1 & S1).
    rewrite E1. now apply IH.
Qed.

Lemma firstn_repeat0 (n m : nat) :
  (n <= m)%nat -> firstn n (repeat 0 m) = repeat 0 n.
Proof.
  revert m. induction n as [|n IH]; intros [|m] H; cbn [firstn repeat];
    try reflexivity; try lia.
  f_equal. apply IH. lia.
Qed.

Lemma PADLEN_lt (x : nat) : (PADLEN x < 16)%nat.
Proof.
  unfold PADLEN.
  change 0xf with (Z.ones 4). rewrite !Z.land_ones by lia.
  pose proof (Z.mod_pos_bound (16 - Z.of_nat x mod 2 ^ 4) (2 ^ 4) ltac:(lia)).
  lia.
Qed.

Lemma memcpy_at_0_firstn (dst src : list Z) :
  firstn (length src) (memcpy_at dst 0 src) = src.
Proof.
  unfold memcpy_at. cbn [firstn app Nat.add].
  rewrite firstn_app, Nat.sub_diag, firstn_O, app_nil_r. apply firstn_all.
Qed.

Lemma cipher_length (ks : list Z -> list Z -> nat -> nat -> Z)
      (c : cf_chacha20_ctx) (input : list Z) :
  length (snd (cf_chacha20_cipher ks c input)) = length input.
Proof. cbn [cf_chacha20_cipher snd]. now rewrite length_map, length_seq. Qed.

Section ProcessFacts.
Variable ks : list Z -> list Z -> nat -> nat -> Z.

Local Abbreviation proc := (ChaChaPoly.process ks).
Local Abbreviation pxor := (payload_xor ks).
Local Abbreviation mtag := (mac_tag ks).
Local Abbreviation otk := (one_time_key ks).

Lemma len_block_eq (nheader nbytes : nat) :
  firstn 16
    (memcpy_at (memcpy_at (repeat 0 16) 0
                  (write64_le (u64 (Z.of_nat nheader))))
       8 (write64_le (u64 (Z.of_nat nbytes))))
  = write64_le (u64 (Z.of_nat nheader)) ++ write64_le (u64 (Z.of_nat nbytes)).
Proof. reflexivity. Qed.

Lemma mem_clean_all (v : list Z) (n : nat) :
  length v = n -> mem_clean v n = repeat 0 n.
Proof.
  intros <-. unfold mem_clean, memset0_at, memcpy_at.
  destruct (Nat.ltb_spec 0 (length v)) as [H|H].
  - cbn [firstn app Nat.add]. rewrite repeat_length, skipn_all, app_nil_r.
    reflexivity.
  - destruct v; [reflexivity|cbn in H; lia].
Qed.

(** What [process] returns, in both modes. *)
Lemma process_eq (key_ nonce_ header input output_ tag_ : list Z) (mode : Z) :
  let pk := otk key_ nonce_ in
  let enc := mode =? ENCRYPT in
  let x := pxor key_ nonce_ input in
  let c := if enc then x else input in
  let t := mtag key_ nonce_ header c in
  let ch := chacha_clean (fst (cf_chacha20_cipher ks
                                 (chacha_at_payload ks key_ nonce_) input)) in
  proc key_ nonce_ header input output_ mode tag_
  = Some
      (if enc then
         {| ret := SUCCESS;
            output := memcpy_at output_ 0 x;
            tag := memcpy_at tag_ 0 t;
            chacha_final := ch;
            polykey_final := repeat 0 32;
            trace := mac_phase_trace pk header input c true
                     ++ [MacFinish t] |}
       else if negb (mem_eq t tag_ 16 =? 0) then
         {| ret := SUCCESS;
            output := memcpy_at output_ 0 x;
            tag := tag_;
            chacha_final := ch;
            polykey_final := repeat 0 32;
            trace := mac_phase_trace pk header input c false
                     ++ [MacFinish t;
                         TagCompare t (firstn 16 tag_) (mem_eq t tag_ 16);
                         Cipher input x] |}
       else
         {| ret := FAILURE;
            output := mem_clean output_ (length input);
            tag := tag_;
            chacha_final := chacha_clean (chacha_at_payload ks key_ nonce_);
            polykey_final := repeat 0 32;
            trace := mac_phase_trace pk header input c false
                     ++ [MacFinish t;
                         TagCompare t (firstn 16 tag_) (mem_eq t tag_ 16);
                         Erase (length input)] |}).
Proof.
  cbv zeta. unfold mac_tag, mac_chunks, mac_phase_trace.
  unfold payload_xor, one_time_key, chacha_at_payload. cbv zeta.
  unfold ChaChaPoly.process.
  set (c0 := cf_chacha20_init_custom key_ 32
               (memcpy_at (repeat 0 16) 4 (firstn 12 nonce_)) 4).
  pose proof (cipher_length ks c0 (repeat 0 32)) as Npk.
  destruct (cf_chacha20_cipher ks c0 (repeat 0 32)) as [ch1 pk] eqn:Ec1.
  cbn [fst snd] in *. rewrite repeat_length in Npk.
  rewrite (mem_clean_all pk 32 Npk).
  pose proof (cipher_length ks ch1 (repeat 0 32)) as Npk2.
  destruct (cf_chacha20_cipher ks ch1 (repeat 0 32)) as [ch2 pk2] eqn:Ec2.
  cbn [fst snd] in *. rewrite repeat_length in Npk2.
  rewrite (mem_clean_all pk2 32 Npk2).
  rewrite !(firstn_repeat0 _ 16) by (pose proof (PADLEN_lt (length header));
                                     pose proof (PADLEN_lt (length input)); lia).
  rewrite len_block_eq.
  pose proof (cipher_length ks ch2 input) as Nx.
  destruct (cf_chacha20_cipher ks ch2 input) as [ch3 x] eqn:Ec3.
  cbn [fst snd] in *.
  pose proof (cf_poly1305_init_shape pk (skipn 16 pk)) as S0.
  destruct (cf_poly1305_update_total _ header S0) as (p1 & E1 & S1).
  destruct (cf_poly1305_update_total p1 (repeat 0 (PADLEN (length header))) S1)
    as (p2 & E2 & S2).
  rewrite E1. cbn [bind]. rewrite E2. cbn [bind].
  rewrite updates_cons, E1, updates_cons, E2.
  destruct (mode =? ENCRYPT) eqn:Em.
  - assert (Hf : firstn (length input) (memcpy_at output_ 0 x) = x)
      by (rewrite <- Nx; apply memcpy_at_0_firstn).
    rewrite !Hf. rewrite <- !Nx.
    destruct (cf_poly1305_update_total p2 x S2) as (p3 & E3 & S3).
    destruct (cf_poly1305_update_total p3 (repeat 0 (PADLEN (length x))) S3)
      as (p4 & E4 & S4).
    destruct (cf_poly1305_update_total p4
                (write64_le (u64 (Z.of_nat (length header)))
                 ++ write64_le (u64 (Z.of_nat (length x)))) S4)
      as (p5 & E5 & S5).
    rewrite updates_cons, E3. cbn [bind].
    rewrite updates_cons, E4. cbn [bind].
    rewrite updates_cons, E5. cbn [bind].
    change (updates p5 []) with (Some p5). cbv iota.
    destruct (cf_poly1305_finish p5) as [t pw]. cbn [fst app]. reflexivity.
  - destruct (cf_poly1305_update_total p2 input S2) as (p3 & E3 & S3).
    destruct (cf_poly1305_update_total p3
                (repeat 0 (PADLEN (length input))) S3) as (p4 & E4 & S4).
    destruct (cf_poly1305_update_total p4
                (write64_le (u64 (Z.of_nat (length header)))
                 ++ write64_le (u64 (Z.of_nat (length input)))) S4)
      as (p5 & E5 & S5).
    rewrite updates_cons, E3. cbn [bind].
    rewrite updates_cons, E4. cbn [bind].
    rewrite updates_cons, E5. cbn [bind].
    change (updates p5 []) with (Some p5). cbv iota.
    destruct (cf_poly1305_finish p5) as [t pw]. cbn [fst app].
    rewrite Ec3. destruct (negb (mem_eq t tag_ 16 =? 0)); reflexivity.
Qed.

End ProcessFacts.

Lemma PADLEN_spec (x : nat) :
  (PADLEN x < 16)%nat /\ ((x + PADLEN x) mod 16 = 0)%nat
  /\ ((x mod 16 = 0)%nat -> PADLEN x = 0%nat).
Proof.
  split; [apply PADLEN_lt|].
  assert (E : Z.of_nat (PADLEN x) = (16 - Z.of_nat x mod 16) mod 16).
  { unfold PADLEN. change 0xf with (Z.ones 4). rewrite !Z.land_ones by lia.
    change (2 ^ 4) with 16. rewrite Z2Nat.id; [reflexivity|].
    apply Z.mod_pos_bound. lia. }
  pose proof (Z.mod_pos_bound (Z.of_nat x) 16 ltac:(lia)) as Hm.
  pose proof (Z.div_mod (Z.of_nat x) 16 ltac:(lia)) as Hd.
  split.
  - apply Nat2Z.inj. rewrite Nat2Z.inj_mod, Nat2Z.inj_add, E.
    change (Z.of_nat 16) with 16. change (Z.of_nat 0) with 0.
    destruct (Z.eq_dec (Z.of_nat x mod 16) 0) as [E0|E0].
    + rewrite E0. change ((16 - 0) mod 16) with 0. rewrite Z.add_0_r. exact E0.
    + rewrite (Z.mod_small (16 - Z.of_nat x mod 16)) by lia.
      replace (Z.of_nat x + (16 - Z.of_nat x mod 16))
        with (0 + (Z.of_nat x / 16 + 1) * 16) by lia.
      apply Z_mod_plus_full.
  - intros H0. apply Nat2Z.inj. rewrite E.
    apply (f_equal Z.of_nat) in H0. rewrite Nat2Z.inj_mod in H0.
    change (Z.of_nat 16) with 16 in H0. change (Z.of_nat 0) with 0 in *.
    rewrite H0. reflexivity.
Qed.

(** [write64_le] is the 8-byte little-endian encoding. *)
Lemma write64_le_spec (v : Z) :
  0 <= v ->
  length (write64_le v) = 8%nat
  /\ limbs_le 255 (write64_le v)
  /\ value (write64_le v) = v mod 2 ^ 64.
Proof.
  intros Hv. unfold write64_le.
  rewrite !land_0xff. rewrite !Z.shiftr_div_pow2 by lia.
  split; [reflexivity|]. split.
  - unfold limbs_le.
    repeat (constructor;
            [match goal with |- 0 <= ?a mod 256 <= 255 =>
               pose proof (Z.mod_pos_bound a 256 ltac:(lia)); lia end|]).
    constructor.
  - cbn [value].
    pose proof (Z.div_mod v 256 ltac:(lia)) as D0.
    assert (Hq : forall k, 0 <= k ->
                 v / 2 ^ k = 256 * (v / 2 ^ (k + 8)) + (v / 2 ^ k) mod 256).
    { intros k Hk. rewrite Z.pow_add_r by lia.
      rewrite <- Z.div_div by lia. change (2 ^ 8) with 256.
      apply Z.div_mod. lia. }
    pose proof (Hq 8 ltac:(lia)) as D1. pose proof (Hq 16 ltac:(lia)) as D2.
    pose proof (Hq 24 ltac:(lia)) as D3. pose proof (Hq 32 ltac:(lia)) as D4.
    pose proof (Hq 40 ltac:(lia)) as D5. pose proof (Hq 48 ltac:(lia)) as D6.
    pose proof (Hq 56 ltac:(lia)) as D7.
    cbn [Z.add Pos.add Pos.succ Pos.add_carry] in D1, D2, D3, D4, D5, D6, D7.
    replace (v / 256) with (v / 2 ^ 8) in D0 by reflexivity.
    apply Z.mod_unique_pos with (q := v / 2 ^ 64).
    + repeat match goal with |- context [?a mod 256] =>
        lazymatch goal with
        | _ : 0 <= a mod 256 < 256 |- _ => fail
        | _ => pose proof (Z.mod_pos_bound a 256 ltac:(lia))
        end end.
      lia.
    + lia.
Qed.

Lemma payload_xor_nth (ks : list Z -> list Z -> nat -> nat -> Z)
      (key_ nonce_ input : list Z) (i : nat) :
  (i < length input)%nat ->
  nth i (payload_xor ks key_ nonce_ input) 0
  = Z.lxor (nth i input 0)
      (ks (firstn 32 key_)
          (firstn 16 (memcpy_at (repeat 0 16) 4 (firstn 12 nonce_)))
          4%nat (64 + i)%nat).
Proof.
  intros Hi. unfold payload_xor, chacha_at_payload. cbv zeta.
  cbn [cf_chacha20_cipher fst snd key nonce ncounter pos
       cf_chacha20_init_custom].
  rewrite !repeat_length.
  rewrite (nth_indep _ 0 (Z.lxor (nth 0 input 0)
             (ks (firstn 32 key_)
                (firstn 16 (memcpy_at (repeat 0 16) 4 (firstn 12 nonce_)))
                4%nat (0 + 32 + 32 + 0)%nat)))
    by (rewrite length_map, length_seq; exact Hi).
  rewrite (map_nth (fun j => Z.lxor (nth j input 0)
             (ks (firstn 32 key_)
                (firstn 16 (memcpy_at (repeat 0 16) 4 (firstn 12 nonce_)))
                4%nat (0 + 32 + 32 + j)%nat)) (seq 0 (length input)) 0%nat i).
  rewrite seq_nth by exact Hi. reflexivity.
Qed.


Lemma finish_tag_bytes (ctx : cf_poly1305) :
  length (fst (cf_poly1305_finish ctx)) = 16%nat
  /\ limbs_le 255 (fst (cf_poly1305_finish ctx)).
Proof.
  unfold cf_poly1305_finish. cbv zeta. cbn [fst].
  split; [now rewrite length_map, length_seq|].
  unfold limbs_le. apply Forall_forall. intros v Hv.
  apply in_map_iff in Hv. destruct Hv as (i & <- & _).
  unfold u8. pose proof (Z.mod_pos_bound (nth i
    (poly1305_add
       (poly1305_full_reduce
          (h (if (npartial ctx =? 0)%nat then ctx else poly1305_last_block ctx)))
       (store
          (fold_left
             (fun s17 i0 =>
                store s17 i0
                  (nth i0
                     (s (if (npartial ctx =? 0)%nat then ctx
                         else poly1305_last_block ctx)) 0))
             (seq 0 16) (repeat 0 17)) 16 0)) 0) (2 ^ 8) ltac:(lia)).
  lia.
Qed.

Lemma mac_tag_bytes (ks : list Z -> list Z -> nat -> nat -> Z)
      (key_ nonce_ header c : list Z) :
  length (mac_tag ks key_ nonce_ header c) = 16%nat
  /\ limbs_le 255 (mac_tag ks key_ nonce_ header c).
Proof.
  unfold mac_tag. cbv zeta.
  destruct (updates_total (mac_chunks header c) _
              (cf_poly1305_init_shape (one_time_key ks key_ nonce_)
                 (skipn 16 (one_time_key ks key_ nonce_)))) as (ctx & E & _).
  rewrite E. apply finish_tag_bytes.
Qed.

Lemma mem_clean_zero (v : list Z) (n : nat) :
  (forall i, (i < n)%nat -> nth i (mem_clean v n) 0 = 0)
  /\ skipn n (mem_clean v n) = skipn n v
  /\ ((n <= length v)%nat -> length (mem_clean v n) = length v)
  /\ (Forall (fun b => b = 0) v -> (n <= length v)%nat -> mem_clean v n = v).
Proof.
  unfold mem_clean, memset0_at, memcpy_at.
  destruct (Nat.ltb_spec 0 n) as [Hn|Hn].
  - cbn [firstn app Nat.add]. rewrite repeat_length.
    split; [|split; [|split]].
    + intros i Hi. rewrite app_nth1 by (rewrite repeat_length; lia).
      apply nth_repeat.
    + rewrite skipn_app, repeat_length, Nat.sub_diag, skipn_O.
      rewrite skipn_all2 by (rewrite repeat_length; lia). reflexivity.
    + intros Hl. rewrite length_app, repeat_length, length_skipn. lia.
    + intros Hz Hl. rewrite <- (firstn_skipn n v) at 2. f_equal.
      apply nth_ext with (d := 0) (d' := 0).
      * rewrite repeat_length, length_firstn. lia.
      * intros i Hi. rewrite repeat_length in Hi. rewrite nth_repeat.
        rewrite nth_firstn. destruct (Nat.ltb_spec i n); [|reflexivity].
        rewrite Forall_forall in Hz. symmetry. apply Hz. apply nth_In. lia.
  - assert (n = 0%nat) by lia. subst n.
    split; [intros; lia|]. split; [reflexivity|]. split; reflexivity.
Qed.

Section ProcessModes.
Variable ks : list Z -> list Z -> nat -> nat -> Z.
Variables key_ nonce_ header input output_ tag_ : list Z.

Lemma process_encrypt_eq :
  let x := payload_xor ks key_ nonce_ input in
  let t := mac_tag ks key_ nonce_ header x in
  process ks key_ nonce_ header input output_ ENCRYPT tag_
  = Some {| ret := SUCCESS;
            output := memcpy_at output_ 0 x;
            tag := memcpy_at tag_ 0 t;
            chacha_final :=
              chacha_clean (fst (cf_chacha20_cipher ks
                                   (chacha_at_payload ks key_ nonce_) input));
            polykey_final := repeat 0 32;
            trace := mac_phase_trace (one_time_key ks key_ nonce_)
                       header input x true ++ [MacFinish t] |}.
Proof.
  pose proof (process_eq ks key_ nonce_ header input output_ tag_ ENCRYPT) as E.
  cbv zeta in E.
  assert (Hd : (ENCRYPT =? ENCRYPT) = true) by reflexivity.
  rewrite Hd in E. exact E.
Qed.

Lemma process_decrypt_match :
  let t := mac_tag ks key_ nonce_ header input in
  let x := payload_xor ks key_ nonce_ input in
  mem_eq t tag_ 16 = 1 ->
  process ks key_ nonce_ header input output_ DECRYPT tag_
  = Some {| ret := SUCCESS;
            output := memcpy_at output_ 0 x;
            tag := tag_;
            chacha_final :=
              chacha_clean (fst (cf_chacha20_cipher ks
                                   (chacha_at_payload ks key_ nonce_) input));
            polykey_final := repeat 0 32;
            trace := mac_phase_trace (one_time_key ks key_ nonce_)
                       header input input false
                     ++ [MacFinish t; TagCompare t (firstn 16 tag_) 1;
                         Cipher input x] |}.
Proof.
  cbv zeta. intros H.
  pose proof (process_eq ks key_ nonce_ header input output_ tag_ DECRYPT) as E.
  cbv zeta in E.
  assert (Hd : (DECRYPT =? ENCRYPT) = false) by reflexivity.
  assert (Hn : negb (1 =? 0) = true) by reflexivity.
  rewrite Hd, H, Hn in E. exact E.
Qed.

Lemma process_decrypt_mismatch :
  let t := mac_tag ks key_ nonce_ header input in
  mem_eq t tag_ 16 = 0 ->
  process ks key_ nonce_ header input output_ DECRYPT tag_
  = Some {| ret := FAILURE;
            output := mem_clean output_ (length input);
            tag := tag_;
            chacha_final := chacha_clean (chacha_at_payload ks key_ nonce_);
            polykey_final := repeat 0 32;
            trace := mac_phase_trace (one_time_key ks key_ nonce_)
                       header input input false
                     ++ [MacFinish t; TagCompare t (firstn 16 tag_) 0;
                         Erase (length input)] |}.
Proof.
  cbv zeta. intros H.
  pose proof (process_eq ks key_ nonce_ header input output_ tag_ DECRYPT) as E.
  cbv zeta in E.
  assert (Hd : (DECRYPT =? ENCRYPT) = false) by reflexivity.
  assert (Hn : negb (0 =? 0) = false) by reflexivity.
  rewrite Hd, H, Hn in E. exact E.
Qed.

End ProcessModes.

(** What [mac_tag] stands for: the Poly1305 engine run on the five
    chunks under the one-time key. *)
Lemma mac_tag_run (ks : list Z -> list Z -> nat -> nat -> Z)
      (key_ nonce_ header c : list Z) :
  let pk := one_time_key ks key_ nonce_ in
  exists ctx,
    updates (cf_poly1305_init pk (skipn 16 pk)) (mac_chunks header c)
    = Some ctx
    /\ mac_tag ks key_ nonce_ header c = fst (cf_poly1305_finish ctx).
Proof.
  cbv zeta.
  destruct (updates_total (mac_chunks header c)
              (cf_poly1305_init (one_time_key ks key_ nonce_)
                 (skipn 16 (one_time_key ks key_ nonce_)))
              (cf_poly1305_init_shape _ _)) as (ctx & E & _).
  exists ctx. split; [exact E|]. unfold mac_tag. now rewrite E.
Qed.

(** C6.  The MAC transcript of ChaCha20-Poly1305.  In either mode the
    chunks handed to Poly1305 are, in this order: the associated data, zero
    bytes up to the next multiple of 16 (none when the length already is a
    multiple), the ciphertext, zero bytes up to the next multiple of 16, and
    one 16-byte chunk made of the 8-byte little-endian lengths of the
    associated data and of the ciphertext.  When encrypting, the ciphertext
    fed to the MAC is the key stream XOR the plaintext, read back from the
    output buffer.  The chunks are fed to Poly1305: the tag written when
    encrypting, and the tag the supplied one is compared with when
    decrypting, is what [cf_poly1305_finish] returns after
    [cf_poly1305_init] under the one-time key and the updates with exactly
    these chunks. *)
Theorem C6_mac_transcript
    (ks : list Z -> list Z -> nat -> nat -> Z)
    (key_ nonce_ header input output_ tag_ : list Z) (mode : Z) :
  exists res,
    process ks key_ nonce_ header input output_ mode tag_ = Some res
    /\ let c := if mode =? ENCRYPT
                then firstn (length input) (output res) else input in
       let lh := write64_le (u64 (Z.of_nat (length header))) in
       let lc := write64_le (u64 (Z.of_nat (length c))) in
       mac_inputs (trace res)
       = [header; repeat 0 (PADLEN (length header));
          c; repeat 0 (PADLEN (length c)); lh ++ lc]
       /\ concat (mac_inputs (trace res))
          = header ++ repeat 0 (PADLEN (length header))
            ++ c ++ repeat 0 (PADLEN (length c)) ++ lh ++ lc
       /\ ((PADLEN (length header) < 16)%nat
           /\ ((length header + PADLEN (length header)) mod 16 = 0)%nat
           /\ (PADLEN (length c) < 16)%nat
           /\ ((length c + PADLEN (length c)) mod 16 = 0)%nat)
       /\ (length lh = 8%nat /\ limbs_le 255 lh
           /\ value lh = Z.of_nat (length header) mod 2 ^ 64)
       /\ (length lc = 8%nat /\ limbs_le 255 lc
           /\ value lc = Z.of_nat (length c) mod 2 ^ 64)
       /\ (mode = ENCRYPT ->
           length c = length input
           /\ forall i, (i < length input)%nat ->
                nth i c 0
                = Z.lxor (nth i input 0)
                    (ks (firstn 32 key_)
                        (firstn 16 (memcpy_at (repeat 0 16) 4
                                      (firstn 12 nonce_)))
                        4%nat (64 + i)%nat))
       (* the chunks are what the Poly1305 engine is run on, and its result
          is the tag *)
       /\ (let pk := one_time_key ks key_ nonce_ in
           exists ctx,
             updates (cf_poly1305_init pk (skipn 16 pk))
               (mac_inputs (trace res)) = Some ctx
             /\ let t := fst (cf_poly1305_finish ctx) in
                In (MacInit (firstn 16 pk) (skipn 16 pk)) (trace res)
                /\ In (MacFinish t) (trace res)
                /\ (mode = ENCRYPT ->
                    ret res = SUCCESS /\ firstn 16 (tag res) = t)
                /\ (mode <> ENCRYPT ->
                    tag res = tag_
                    /\ (ret res = SUCCESS <-> mem_eq t tag_ 16 = 1)
                    /\ (ret res = FAILURE <-> mem_eq t tag_ 16 = 0))).
Proof.
  pose proof (process_eq ks key_ nonce_ header input output_ tag_ mode) as E.
  cbv zeta in E.
  eexists. split; [exact E|]. cbv zeta.
  pose proof (cipher_length ks (chacha_at_payload ks key_ nonce_) input) as Nx.
  fold (payload_xor ks key_ nonce_ input) in Nx.
  assert (Hf : firstn (length input)
                 (memcpy_at output_ 0 (payload_xor ks key_ nonce_ input))
               = payload_xor ks key_ nonce_ input)
    by (rewrite <- Nx; apply memcpy_at_0_firstn).
  assert (Hu : forall n, u64 (Z.of_nat n) mod 2 ^ 64 = Z.of_nat n mod 2 ^ 64)
    by (intros; unfold u64; apply Z.mod_mod; lia).
  assert (Hn : forall n, 0 <= u64 (Z.of_nat n))
    by (intros; unfold u64; apply Z.mod_pos_bound; lia).
  assert (Hsf : SUCCESS <> FAILURE) by (unfold SUCCESS, FAILURE; lia).
  destruct (mode =? ENCRYPT) eqn:Em.
  - cbn [output trace ret tag]. rewrite Hf.
    set (c := payload_xor ks key_ nonce_ input) in *.
    destruct (write64_le_spec _ (Hn (length header))) as (L1 & L2 & L3).
    destruct (write64_le_spec _ (Hn (length c))) as (M1 & M2 & M3).
    rewrite Hu in L3, M3.
    destruct (PADLEN_spec (length header)) as (P1 & P2 & _).
    destruct (PADLEN_spec (length c)) as (Q1 & Q2 & _).
    destruct (mac_tag_run ks key_ nonce_ header c) as (ctx & Erun & Et).
    destruct (mac_tag_bytes ks key_ nonce_ header c) as (Nt & _).
    split; [reflexivity|]. split.
    { cbn [mac_phase_trace mac_inputs flat_map app concat].
      rewrite app_nil_r. reflexivity. }
    split; [repeat split; assumption|].
    split; [repeat split; assumption|].
    split; [repeat split; assumption|].
    split.
    { intros _. split; [exact Nx|]. intros i Hi. now apply payload_xor_nth. }
    exists ctx. split; [exact Erun|]. rewrite <- Et.
    split; [cbn [mac_phase_trace app In]; auto|].
    split; [apply in_or_app; right; left; reflexivity|].
    split.
    + intros _. split; [reflexivity|].
      rewrite <- Nt at 1. apply memcpy_at_0_firstn.
    + intros Hne. apply Z.eqb_eq in Em. contradiction.
  - destruct (write64_le_spec _ (Hn (length header))) as (L1 & L2 & L3).
    destruct (write64_le_spec _ (Hn (length input))) as (M1 & M2 & M3).
    rewrite Hu in L3, M3.
    destruct (PADLEN_spec (length header)) as (P1 & P2 & _).
    destruct (PADLEN_spec (length input)) as (Q1 & Q2 & _).
    destruct (mac_tag_run ks key_ nonce_ header input) as (ctx & Erun & Et).
    assert (Hb1 : negb (1 =? 0) = true) by reflexivity.
    assert (Hb0 : negb (0 =? 0) = false) by reflexivity.
    destruct (mem_eq_spec (mac_tag ks key_ nonce_ header input) tag_ 16)
      as ([H1 | H0] & _).
    + rewrite H1, Hb1. cbn [trace ret tag].
      split; [reflexivity|]. split.
      { cbn [mac_phase_trace mac_inputs flat_map app concat].
        rewrite app_nil_r. reflexivity. }
      split; [repeat split; assumption|].
      split; [repeat split; assumption|].
      split; [repeat split; assumption|].
      split; [intros Hmode; rewrite Hmode in Em; discriminate|].
      exists ctx. split; [exact Erun|]. rewrite <- Et, H1.
      split; [cbn [mac_phase_trace app In]; auto|].
      split; [apply in_or_app; right; left; reflexivity|].
      split; [intros Hmode; rewrite Hmode in Em; discriminate|].
      intros _. split; [reflexivity|]. split.
      * split; reflexivity.
      * split; intros Hx; [now apply Hsf in Hx|discriminate Hx].
    + rewrite H0, Hb0. cbn [trace ret tag].
      split; [reflexivity|]. split.
      { cbn [mac_phase_trace mac_inputs flat_map app concat].
        rewrite app_nil_r. reflexivity. }
      split; [repeat split; assumption|].
      split; [repeat split; assumption|].
      split; [repeat split; assumption|].
      split; [intros Hmode; rewrite Hmode in Em; discriminate|].
      exists ctx. split; [exact Erun|]. rewrite <- Et, H0.
      split; [cbn [mac_phase_trace app In]; auto|].
      split; [apply in_or_app; right; left; reflexivity|].
      split; [intros Hmode; rewrite Hmode in Em; discriminate|].
      intros _. split; [reflexivity|]. split.
      * split; intros Hx;
          [symmetry in Hx; now apply Hsf in Hx|discriminate Hx].
      * split; reflexivity.
Qed.

(** C1.  ChaCha20-Poly1305 decryption authenticates first.  The Poly1305
    tag is computed over the received ciphertext and compared with the
    supplied tag over all 16 bytes; no cipher run over the payload precedes
    the comparison.  On a mismatch the call returns FAILURE, the first
    [nbytes] bytes of the output buffer are zero and the rest is untouched
    (a buffer that was zero before the call is unchanged), and the payload
    is never run through the cipher. *)
Theorem C1_decrypt_checks_tag_first
    (ks : list Z -> list Z -> nat -> nat -> Z)
    (key_ nonce_ header input output_ tag_ : list Z) :
  exists res pre,
    let t := mac_tag ks key_ nonce_ header input in
    let eq := mem_eq t tag_ 16 in
    process ks key_ nonce_ header input output_ DECRYPT tag_ = Some res
    (* the tag is computed over the received ciphertext, then compared *)
    /\ trace res
       = pre ++ TagCompare t (firstn 16 tag_) eq
             :: (if eq =? 0 then [Erase (length input)]
                 else [Cipher input (payload_xor ks key_ nonce_ input)])
    /\ mac_inputs pre = mac_chunks header input
    /\ In (MacFinish t) pre
    /\ forallb (fun e => negb (is_payload_cipher e)) pre = true
    (* the comparison covers all 16 bytes *)
    /\ (eq = 1 \/ eq = 0)
    /\ (eq = 1 <->
        forall i, (i < 16)%nat -> u8 (Z.lxor (nth i t 0) (nth i tag_ 0)) = 0)
    /\ (limbs_le 255 tag_ -> (16 <= length tag_)%nat ->
        (eq = 1 <-> t = firstn 16 tag_))
    (* mismatch *)
    /\ (eq = 0 ->
        ret res = FAILURE
        /\ output res = mem_clean output_ (length input)
        /\ (forall i, (i < length input)%nat -> nth i (output res) 0 = 0)
        /\ skipn (length input) (output res) = skipn (length input) output_
        /\ (Forall (fun b => b = 0) output_ ->
            (length input <= length output_)%nat -> output res = output_)
        /\ forallb (fun e => negb (is_payload_cipher e)) (trace res) = true).
Proof.
  cbv zeta.
  set (t := mac_tag ks key_ nonce_ header input).
  destruct (mem_eq_spec t tag_ 16) as (Hcases & Hiff).
  destruct (mac_tag_bytes ks key_ nonce_ header input) as (Nt & Bt).
  fold t in Nt, Bt.
  assert (Hbytes : limbs_le 255 tag_ -> (16 <= length tag_)%nat ->
                   (mem_eq t tag_ 16 = 1 <-> t = firstn 16 tag_)).
  { intros Btag Ltag.
    rewrite (mem_eq_bytes t tag_ 16 Bt Btag ltac:(lia) Ltag).
    rewrite <- Nt at 1. rewrite firstn_all. reflexivity. }
  assert (Htr : forall tail,
             (mac_phase_trace (one_time_key ks key_ nonce_) header input input
                false ++ [MacFinish t]) ++ tail
             = mac_phase_trace (one_time_key ks key_ nonce_) header input input
                 false ++ MacFinish t :: tail)
    by (intros; rewrite <- app_assoc; reflexivity).
  assert (Hpre1 : mac_inputs
                    (mac_phase_trace (one_time_key ks key_ nonce_) header
                       input input false ++ [MacFinish t])
                  = mac_chunks header input) by reflexivity.
  assert (Hpre2 : In (MacFinish t)
                    (mac_phase_trace (one_time_key ks key_ nonce_) header
                       input input false ++ [MacFinish t]))
    by (apply in_or_app; right; now left).
  assert (Hpre3 : forallb (fun e => negb (is_payload_cipher e))
                    (mac_phase_trace (one_time_key ks key_ nonce_) header
                       input input false ++ [MacFinish t]) = true)
    by reflexivity.
  destruct (mem_clean_zero output_ (length input)) as (Z1 & Z2 & _ & Z4).
  destruct Hcases as [H1 | H0].
  - pose proof (process_decrypt_match ks key_ nonce_ header input output_ tag_
                  H1) as E.
    rewrite H1 in Hiff, Hbytes |- *.
    eexists. eexists. split; [exact E|]. cbn [trace ret output Z.eqb].
    split; [symmetry; apply Htr|].
    split; [exact Hpre1|]. split; [exact Hpre2|]. split; [exact Hpre3|].
    split; [now left|]. split; [exact Hiff|]. split; [exact Hbytes|].
    intros H. discriminate H.
  - pose proof (process_decrypt_mismatch ks key_ nonce_ header input output_
                  tag_ H0) as E.
    rewrite H0 in Hiff, Hbytes |- *.
    eexists. eexists. split; [exact E|]. cbn [trace ret output Z.eqb].
    split; [symmetry; apply Htr|].
    split; [exact Hpre1|]. split; [exact Hpre2|]. split; [exact Hpre3|].
    split; [now right|]. split; [exact Hiff|]. split; [exact Hbytes|].
    intros _.
    split; [reflexivity|]. split; [reflexivity|]. split; [exact Z1|].
    split; [exact Z2|]. split; [exact Z4|].
    rewrite <- Htr, forallb_app, Hpre3. reflexivity.
Qed.

Lemma payload_xor_involutive (ks : list Z -> list Z -> nat -> nat -> Z)
      (key_ nonce_ input : list Z) :
  payload_xor ks key_ nonce_ (payload_xor ks key_ nonce_ input) = input.
Proof.
  pose proof (cipher_length ks (chacha_at_payload ks key_ nonce_) input) as N1.
  fold (payload_xor ks key_ nonce_ input) in N1.
  pose proof (cipher_length ks (chacha_at_payload ks key_ nonce_)
                (payload_xor ks key_ nonce_ input)) as N2.
  fold (payload_xor ks key_ nonce_ (payload_xor ks key_ nonce_ input)) in N2.
  apply nth_ext with (d := 0) (d' := 0); [congruence|].
  intros i Hi. rewrite N2, N1 in Hi.
  rewrite payload_xor_nth by (rewrite N1; exact Hi).
  rewrite payload_xor_nth by exact Hi.
  rewrite Z.lxor_assoc, Z.lxor_nilpotent, Z.lxor_0_r. reflexivity.
Qed.

(** Round trip of the ChaCha20-Poly1305 construction. *)
Lemma chacha20poly1305_round_trip
    (ks : list Z -> list Z -> nat -> nat -> Z)
    (key_ nonce_ header plaintext cbuf tbuf pbuf : list Z) :
  exists e d,
    cf_chacha20poly1305_encrypt ks key_ nonce_ header plaintext cbuf tbuf
    = Some e
    /\ ret e = SUCCESS
    /\ cf_chacha20poly1305_decrypt ks key_ nonce_ header
         (firstn (length plaintext) (output e)) (firstn 16 (tag e)) pbuf
       = Some d
    /\ ret d = SUCCESS
    /\ firstn (length plaintext) (output d) = plaintext.
Proof.
  unfold cf_chacha20poly1305_encrypt, cf_chacha20poly1305_decrypt.
  pose proof (process_encrypt_eq ks key_ nonce_ header plaintext cbuf tbuf)
    as E.
  cbv zeta in E.
  set (c := payload_xor ks key_ nonce_ plaintext) in *.
  set (t := mac_tag ks key_ nonce_ header c) in *.
  assert (Nc : length c = length plaintext) by apply cipher_length.
  destruct (mac_tag_bytes ks key_ nonce_ header c) as (Nt & _). fold t in Nt.
  eexists. eexists. split; [exact E|]. split; [reflexivity|].
  cbn [output tag].
  assert (Hc : firstn (length plaintext) (memcpy_at cbuf 0 c) = c)
    by (rewrite <- Nc; apply memcpy_at_0_firstn).
  assert (Ht : memcpy_at (repeat 0 16) 0
                 (firstn 16 (firstn 16 (memcpy_at tbuf 0 t))) = t).
  { pose proof (memcpy_at_0_firstn tbuf t) as Ht1. rewrite Nt in Ht1.
    rewrite Ht1, (firstn_all2 t) by lia.
    unfold memcpy_at. cbn [firstn app Nat.add].
    rewrite Nt. cbn [skipn repeat]. apply app_nil_r. }
  rewrite Hc, Ht.
  pose proof (process_decrypt_match ks key_ nonce_ header c pbuf t
                (mem_eq_refl _ 16)) as D.
  split; [exact D|]. split; [reflexivity|].
  cbn [output].
  assert (Hx : payload_xor ks key_ nonce_ c = plaintext)
    by apply payload_xor_involutive.
  rewrite Hx. apply memcpy_at_0_firstn.
Qed.

(** ** GHASH *)

Module GcmFacts.
Import GCM GcmSpec.

Section Facts.
Context {E : capabilities}.

Local Abbreviation ghash_ctx := (@ghash_ctx E).
Local Abbreviation gcm_H := (@gcm_H E).
Local Abbreviation nonce_ghash := (@nonce_ghash E).
Local Abbreviation gcm_Y0 := (@gcm_Y0 E).
Local Abbreviation gcm_ctr0 := (@gcm_ctr0 E).
Local Abbreviation gcm_e_Y0 := (@gcm_e_Y0 E).
Local Abbreviation gcm_ctr1 := (@gcm_ctr1 E).
Local Abbreviation gcm_ctr_xor := (@gcm_ctr_xor E).
Local Abbreviation gcm_full_tag := (@gcm_full_tag E).
Local Abbreviation gcm_tag := (@gcm_tag E).
Local Abbreviation gcm_trace_prefix := (@gcm_trace_prefix E).
Local Abbreviation ctr_block := (@ctr_block E).
Local Abbreviation ctr_keystream := (@ctr_keystream E).
Local Abbreviation ghash_init := (@ghash_init E).
Local Abbreviation cf_ctr_cipher := (@cf_ctr_cipher E).
Local Abbreviation cf_gcm_encrypt := (@cf_gcm_encrypt E).
Local Abbreviation cf_gcm_decrypt := (@cf_gcm_decrypt E).

Lemma run_blocks_inv_any {S : Type} (process : S -> list Z -> S)
      (nblock : nat) (P : S -> Prop) :
  (0 < nblock)%nat ->
  (forall ctx blk, P ctx -> P (process ctx blk)) ->
  forall data ctx, P ctx -> P (snd (run_blocks process nblock data ctx)).
Proof.
  intros Hpos Hstep data.
  remember (length data) as n eqn:En. revert data En.
  induction n as [n IH] using lt_wf_ind. intros data En ctx HP.
  destruct (Nat.lt_ge_cases (length data) nblock) as [Hlt|Hge].
  - rewrite run_blocks_short by assumption. exact HP.
  - rewrite run_blocks_step by assumption.
    apply (IH (length (skipn nblock data))).
    + rewrite length_skipn. lia.
    + reflexivity.
    + now apply Hstep.
Qed.

Lemma same_frame_refl (a : ghash_ctx) : same_frame a a.
Proof. repeat split. Qed.

Lemma ghash_block_frame (ctx : ghash_ctx) (blk : list Z) :
  same_frame ctx (ghash_block ctx blk).
Proof. repeat split. Qed.

(** [ghash_add] never trips the accumulator's assertion on a well-shaped
    context, and hashes exactly the whole blocks of the pending bytes
    followed by the new ones. *)
Lemma ghash_add_spec (ctx : ghash_ctx) (buf : list Z) :
  length (buffer ctx) = 16%nat -> (buffer_used ctx < 16)%nat ->
  exists ctx',
    ghash_add ctx buf = Some ctx'
    /\ length (buffer ctx') = 16%nat /\ (buffer_used ctx' < 16)%nat
    /\ same_frame ctx ctx'
    /\ (firstn (buffer_used ctx') (buffer ctx'),
        Y ctx')
       = (fst (run_blocks ghash_block 16
                 (firstn (buffer_used ctx) (buffer ctx) ++ buf) ctx),
          Y (snd (run_blocks ghash_block 16
                    (firstn (buffer_used ctx) (buffer ctx) ++ buf) ctx))).
Proof.
  intros Nb Hu. unfold ghash_add.
  destruct (accumulate_spec ghash_block 16 ltac:(lia)
              (buffer ctx) (buffer_used ctx) buf ctx Hu Nb)
    as (p' & n' & c' & Eacc & Np' & Hn' & Hrun & _).
  rewrite Eacc. cbn [bind].
  eexists. split; [reflexivity|]. cbn [set_buffer buffer buffer_used Y].
  split; [exact Np'|]. split; [exact Hn'|].
  assert (Hc' : c' = snd (run_blocks ghash_block 16
                            (firstn (buffer_used ctx) (buffer ctx) ++ buf) ctx))
    by (rewrite <- Hrun; reflexivity).
  split.
  - assert (F : same_frame ctx c').
    { rewrite Hc'.
      apply (run_blocks_inv_any ghash_block 16 (same_frame ctx)); [lia| |].
      - intros c blk (F1 & F2 & F3 & F4 & F5).
        repeat split; cbn [ghash_block H gf128_mul state len_aad len_cipher];
          assumption.
      - apply same_frame_refl. }
    destruct F as (F1 & F2 & F3 & F4 & F5).
    repeat split; cbn [H gf128_mul state len_aad len_cipher]; assumption.
  - rewrite <- Hrun. reflexivity.
Qed.

Lemma ghash_add_pad_spec (ctx : ghash_ctx) :
  length (buffer ctx) = 16%nat -> (buffer_used ctx < 16)%nat ->
  length (buffer (ghash_add_pad ctx)) = 16%nat
  /\ buffer_used (ghash_add_pad ctx) = 0%nat
  /\ same_frame ctx (ghash_add_pad ctx)
  /\ Y (ghash_add_pad ctx)
     = if (buffer_used ctx =? 0)%nat then Y ctx
       else ghash_Y_step (gf128_mul ctx) (H ctx) (Y ctx)
              (firstn (buffer_used ctx) (buffer ctx)
               ++ repeat 0 (16 - buffer_used ctx)).
Proof.
  intros Nb Hu. unfold ghash_add_pad.
  destruct (Nat.eqb_spec (buffer_used ctx) 0) as [E0|E0].
  - repeat split; try assumption.
  - cbn [set_buffer ghash_block buffer buffer_used Y H gf128_mul state
         len_aad len_cipher].
    assert (Nm : length (memset0_at (buffer ctx) (buffer_used ctx)
                           (16 - buffer_used ctx)) = 16%nat).
    { unfold memset0_at, memcpy_at.
      rewrite !length_app, length_firstn, length_skipn, !repeat_length.
      lia. }
    split; [exact Nm|]. split; [reflexivity|]. split; [repeat split|].
    unfold ghash_Y_step. do 3 f_equal.
    rewrite firstn_all2 by lia.
    unfold memset0_at, memcpy_at. rewrite repeat_length.
    replace (buffer_used ctx + (16 - buffer_used ctx))%nat with 16%nat by lia.
    rewrite skipn_all2 by lia. now rewrite app_nil_r.
Qed.

Lemma ghash_init_shape (H_ : list Z) :
  gshape (ghash_init H_) /\ state (ghash_init H_) = STATE_AAD.
Proof. repeat split; cbn; lia || discriminate. Qed.

Lemma ghash_add_aad_spec (ctx : ghash_ctx) (buf : list Z) :
  gshape ctx ->
  (state ctx = STATE_AAD ->
   exists ctx', ghash_add_aad ctx buf = Some ctx'
                /\ gshape ctx' /\ state ctx' = STATE_AAD
                /\ H ctx' = H ctx /\ gf128_mul ctx' = gf128_mul ctx
                /\ len_aad ctx' = u64 (len_aad ctx + Z.of_nat (length buf))
                /\ len_cipher ctx' = len_cipher ctx)
  /\ (state ctx <> STATE_AAD -> ghash_add_aad ctx buf = None).
Proof.
  intros (Nb & Hu & _). unfold ghash_add_aad. split.
  - intros Est. rewrite Est. cbn [state_eqb negb].
    match goal with |- context [ghash_add ?c buf] =>
      destruct (ghash_add_spec c buf Nb Hu)
        as (c' & Ea & Nb' & Hu' & (F1 & F2 & F3 & F4 & F5) & _)
    end.
    exists c'. cbn [H gf128_mul state len_aad len_cipher] in *.
    split; [exact Ea|]. split.
    { split; [exact Nb'|]. split; [exact Hu'|].
      intros Ei. rewrite F3 in Ei. discriminate Ei. }
    repeat split; assumption.
  - intros Hne. destruct (state ctx); try reflexivity. contradiction.
Qed.

Lemma ghash_add_cipher_spec (ctx : ghash_ctx) (buf : list Z) :
  gshape ctx ->
  (state ctx = STATE_AAD ->
   ghash_add_cipher ctx buf
   = ghash_add_cipher (set_state (ghash_add_pad ctx) STATE_CIPHER) buf)
  /\ (state ctx = STATE_AAD \/ state ctx = STATE_CIPHER ->
      exists ctx', ghash_add_cipher ctx buf = Some ctx'
                   /\ gshape ctx' /\ state ctx' = STATE_CIPHER
                   /\ H ctx' = H ctx /\ gf128_mul ctx' = gf128_mul ctx
                   /\ len_aad ctx' = len_aad ctx
                   /\ len_cipher ctx'
                      = u64 (len_cipher ctx + Z.of_nat (length buf)))
  /\ (state ctx = STATE_INVALID -> ghash_add_cipher ctx buf = None).
Proof.
  intros (Nb & Hu & _).
  destruct (ghash_add_pad_spec ctx Nb Hu) as (Np & Up & (P1 & P2 & P3 & P4 & P5) & _).
  split; [|split].
  - intros Est. unfold ghash_add_cipher at 1 2. rewrite Est.
    cbn [state_eqb set_state state]. reflexivity.
  - intros Est. unfold ghash_add_cipher.
    destruct Est as [Est|Est]; rewrite Est; cbn [state_eqb negb set_state state].
    + match goal with |- context [ghash_add ?c buf] =>
        destruct (ghash_add_spec c buf) as
          (c' & Ea & Nb' & Hu' & (F1 & F2 & F3 & F4 & F5) & _)
      end.
      { cbn [buffer set_state]. exact Np. }
      { cbn [buffer_used set_state]. rewrite Up. lia. }
      exists c'. cbn [H gf128_mul state len_aad len_cipher buffer
                      buffer_used set_state] in *.
      split; [exact Ea|]. split.
      { split; [exact Nb'|]. split; [exact Hu'|].
        intros Ei. rewrite F3 in Ei. discriminate Ei. }
      repeat split; congruence.
    + rewrite Est. cbn [state_eqb negb].
      match goal with |- context [ghash_add ?c buf] =>
        destruct (ghash_add_spec c buf Nb Hu) as
          (c' & Ea & Nb' & Hu' & (F1 & F2 & F3 & F4 & F5) & _)
      end.
      exists c'. cbn [H gf128_mul state len_aad len_cipher] in *.
      split; [exact Ea|]. split.
      { split; [exact Nb'|]. split; [exact Hu'|].
        intros Ei. rewrite F3 in Ei. discriminate Ei. }
      repeat split; assumption.
  - intros Est. unfold ghash_add_cipher. rewrite Est.
    cbn [state_eqb]. rewrite Est. reflexivity.
Qed.

Lemma write64_be_length (v : Z) : length (write64_be v) = 8%nat.
Proof. reflexivity. Qed.

(** The context after [ghash_add_pad], in the state finalisation sets. *)
Lemma ghash_final_spec (ctx : ghash_ctx) :
  gshape ctx ->
  exists ctx',
    ghash_final ctx = Some (ctx', cf_gf128_tobytes_be E (Y ctx'))
    /\ gshape ctx' /\ state ctx' = STATE_INVALID
    /\ H ctx' = H ctx /\ gf128_mul ctx' = gf128_mul ctx
    /\ len_aad ctx' = len_aad ctx /\ len_cipher ctx' = len_cipher ctx
    /\ Y ctx'
       = ghash_Y_step (gf128_mul ctx) (H ctx)
           (if state_eqb (state ctx) STATE_INVALID then Y ctx
            else Y (ghash_add_pad ctx))
           (write64_be (u64 (len_aad ctx * 8))
            ++ write64_be (u64 (len_cipher ctx * 8))).
Proof.
  intros (Nb & Hu & Hinv).
  destruct (ghash_add_pad_spec ctx Nb Hu)
    as (Np & Up & (P1 & P2 & P3 & P4 & P5) & _).
  unfold ghash_final.
  set (c0 := if state_eqb (state ctx) STATE_AAD
                || state_eqb (state ctx) STATE_CIPHER
             then set_state (ghash_add_pad ctx) STATE_INVALID else ctx).
  assert (H0 : length (buffer c0) = 16%nat /\ buffer_used c0 = 0%nat
               /\ state c0 = STATE_INVALID
               /\ H c0 = H ctx /\ gf128_mul c0 = gf128_mul ctx
               /\ len_aad c0 = len_aad ctx /\ len_cipher c0 = len_cipher ctx
               /\ Y c0 = (if state_eqb (state ctx) STATE_INVALID then Y ctx
                          else Y (ghash_add_pad ctx))).
  { unfold c0. destruct (state ctx) eqn:Est; cbn [state_eqb orb set_state
      buffer buffer_used state H gf128_mul len_aad len_cipher Y];
      repeat split; auto. }
  clearbody c0. destruct H0 as (N0 & U0 & S0 & H0 & M0 & LA0 & LC0 & Y0).
  destruct (ghash_add_spec c0 (write64_be (u64 (len_aad c0 * 8))) N0
              ltac:(lia))
    as (c1 & E1 & N1 & U1 & (F1 & F2 & F3 & F4 & F5) & R1).
  rewrite E1. cbn [bind].
  rewrite U0 in R1. cbn [firstn app] in R1.
  rewrite run_blocks_short in R1 by (rewrite ?write64_be_length; lia).
  cbn [fst snd] in R1.
  pose proof (f_equal fst R1) as R1b. pose proof (f_equal snd R1) as R1y.
  cbn [fst snd] in R1b, R1y. clear R1.
  assert (U1' : buffer_used c1 = 8%nat).
  { pose proof (f_equal (@length Z) R1b) as R1l.
    rewrite length_firstn, write64_be_length, N1 in R1l. lia. }
  destruct (ghash_add_spec c1 (write64_be (u64 (len_cipher c1 * 8))) N1 U1)
    as (c2 & E2 & N2 & U2 & (G1 & G2 & G3 & G4 & G5) & R2).
  rewrite E2. cbn [bind].
  rewrite R1b in R2.
  rewrite run_blocks_step in R2
    by (rewrite ?length_app, ?write64_be_length; lia).
  match type of R2 with context [skipn 16 ?l] =>
    rewrite (skipn_all2 (n := 16) l) in R2
      by (rewrite length_app, !write64_be_length; lia);
    rewrite (firstn_all2 (n := 16) l) in R2
      by (rewrite length_app, !write64_be_length; lia)
  end.
  rewrite run_blocks_short in R2 by (cbn; lia).
  cbn [fst snd] in R2.
  pose proof (f_equal fst R2) as R2b. pose proof (f_equal snd R2) as R2y.
  cbn [fst snd] in R2b, R2y. clear R2.
  assert (U2' : buffer_used c2 = 0%nat).
  { apply (f_equal (@length Z)) in R2b.
    rewrite length_firstn, N2 in R2b. cbn [length] in R2b. lia. }
  rewrite U2'. cbn [Nat.eqb negb].
  exists c2. split; [reflexivity|].
  split; [split; [exact N2|]; split; [lia|]; intros _; exact U2'|].
  split; [congruence|]. split; [congruence|]. split; [congruence|].
  split; [congruence|]. split; [congruence|].
  rewrite R2y. cbn [ghash_block Y]. unfold ghash_Y_step.
  rewrite F2, M0, F1, H0, R1y, Y0, F5, LC0, LA0. reflexivity.
Qed.

Lemma ghash_step_spec (ctx ctx' : ghash_ctx) (op : ghash_op) :
  gshape ctx -> ghash_step ctx op = Some ctx' ->
  gshape ctx' /\ (state_rank (state ctx) <= state_rank (state ctx'))%nat.
Proof.
  intros Hs Hstep. destruct op as [buf|buf|]; cbn [ghash_step] in Hstep.
  - destruct (ghash_add_aad_spec ctx buf Hs) as (Ha & Hn).
    destruct (state ctx) eqn:Est;
      try (rewrite Hn in Hstep by discriminate; discriminate Hstep).
    destruct (Ha eq_refl) as (c & Ec & Sc & Stc & _).
    rewrite Ec in Hstep. injection Hstep as <-. rewrite Stc.
    split; [exact Sc|]. cbn. lia.
  - destruct (ghash_add_cipher_spec ctx buf Hs) as (_ & Ha & Hn).
    destruct (state ctx) eqn:Est;
      try (rewrite Hn in Hstep by reflexivity; discriminate Hstep).
    + destruct (Ha (or_introl eq_refl)) as (c & Ec & Sc & Stc & _).
      rewrite Ec in Hstep. injection Hstep as <-. rewrite Stc.
      split; [exact Sc|]. cbn. lia.
    + destruct (Ha (or_intror eq_refl)) as (c & Ec & Sc & Stc & _).
      rewrite Ec in Hstep. injection Hstep as <-. rewrite Stc.
      split; [exact Sc|]. cbn. lia.
  - destruct (ghash_final_spec ctx Hs) as (c & Ec & Sc & Stc & _).
    rewrite Ec in Hstep. injection Hstep as <-. rewrite Stc.
    split; [exact Sc|]. destruct (state ctx); cbn; lia.
Qed.

Lemma ghash_run_spec (ops : list ghash_op) (ctx ctx' : ghash_ctx) :
  gshape ctx -> ghash_run ctx ops = Some ctx' ->
  gshape ctx' /\ (state_rank (state ctx) <= state_rank (state ctx'))%nat.
Proof.
  revert ctx. induction ops as [|op ops IH]; intros ctx Hs Hrun;
    cbn [ghash_run] in Hrun.
  - injection Hrun as <-. split; [exact Hs|lia].
  - destruct (ghash_step ctx op) as [c1|] eqn:E1; [|discriminate Hrun].
    destruct (ghash_step_spec ctx c1 op Hs E1) as (S1 & R1).
    destruct (IH c1 S1 Hrun) as (S2 & R2). split; [exact S2|lia].
Qed.

Lemma ghash_run_app (ops1 ops2 : list ghash_op) (ctx : ghash_ctx) :
  ghash_run ctx (ops1 ++ ops2)
  = match ghash_run ctx ops1 with
    | Some c => ghash_run c ops2
    | None => None
    end.
Proof.
  revert ctx. induction ops1 as [|op ops1 IH]; intros ctx; cbn [ghash_run app].
  - reflexivity.
  - destruct (ghash_step ctx op); [apply IH|reflexivity].
Qed.

(** C8.  GHASH phase monotonicity.  A fresh context is in state AAD.  In
    every context reached from [ghash_init]: [ghash_add_aad] is accepted
    exactly when the state is AAD; [ghash_add_cipher] in state AAD first
    pads the buffered associated data to a block boundary and moves to
    CIPHER, after which [ghash_add_aad] fails its assertion; after
    [ghash_final] the state is INVALID and both input operations fail their
    assertion; and along any run the state only moves forward in the order
    AAD, CIPHER, INVALID. *)
Theorem C8_ghash_phase_monotone (H_ : list Z) (ops : list ghash_op)
    (ctx : ghash_ctx) :
  ghash_run (ghash_init H_) ops = Some ctx ->
  state (ghash_init H_) = STATE_AAD
  (* add_aad *)
  /\ (forall buf,
        (state ctx = STATE_AAD ->
         exists c, ghash_add_aad ctx buf = Some c /\ state c = STATE_AAD)
        /\ (state ctx <> STATE_AAD -> ghash_add_aad ctx buf = None))
  (* add_cipher *)
  /\ (forall buf,
        (state ctx = STATE_AAD ->
         ghash_add_cipher ctx buf
         = ghash_add_cipher (set_state (ghash_add_pad ctx) STATE_CIPHER) buf
         /\ buffer_used (ghash_add_pad ctx) = 0%nat
         /\ Y (ghash_add_pad ctx)
            = (if (buffer_used ctx =? 0)%nat then Y ctx
               else ghash_Y_step (gf128_mul ctx) (H ctx) (Y ctx)
                      (firstn (buffer_used ctx) (buffer ctx)
                       ++ repeat 0 (16 - buffer_used ctx))))
        /\ (state ctx = STATE_AAD \/ state ctx = STATE_CIPHER ->
            exists c, ghash_add_cipher ctx buf = Some c
                      /\ state c = STATE_CIPHER
                      /\ forall buf', ghash_add_aad c buf' = None)
        /\ (state ctx = STATE_INVALID -> ghash_add_cipher ctx buf = None))
  (* final *)
  /\ (exists c out,
        ghash_final ctx = Some (c, out) /\ state c = STATE_INVALID
        /\ forall buf, ghash_add_aad c buf = None
                       /\ ghash_add_cipher c buf = None)
  (* the state never moves backwards *)
  /\ (forall ops1 ops2 (c1 : ghash_ctx),
        ops = ops1 ++ ops2 -> ghash_run (ghash_init H_) ops1 = Some c1 ->
        (state_rank (state c1) <= state_rank (state ctx))%nat)
  /\ (forall op (c : ghash_ctx), ghash_step ctx op = Some c ->
                   (state_rank (state ctx) <= state_rank (state c))%nat).
Proof.
  intros Hrun.
  destruct (ghash_init_shape H_) as (S0 & St0).
  destruct (ghash_run_spec ops _ ctx S0 Hrun) as (Hs & _).
  pose proof Hs as (Nb & Hu & _).
  split; [exact St0|]. split; [|split; [|split; [|split]]].
  - intros buf. destruct (ghash_add_aad_spec ctx buf Hs) as (Ha & Hn).
    split; [|exact Hn]. intros Est.
    destruct (Ha Est) as (c & Ec & _ & Stc & _). now exists c.
  - intros buf. destruct (ghash_add_cipher_spec ctx buf Hs) as (Hp & Ha & Hn).
    destruct (ghash_add_pad_spec ctx Nb Hu) as (_ & Up & _ & Yp).
    split; [|split; [|exact Hn]].
    + intros Est. split; [exact (Hp Est)|]. split; [exact Up|exact Yp].
    + intros Est. destruct (Ha Est) as (c & Ec & Sc & Stc & _).
      exists c. split; [exact Ec|]. split; [exact Stc|].
      intros buf'. apply (ghash_add_aad_spec c buf' Sc). rewrite Stc.
      discriminate.
  - destruct (ghash_final_spec ctx Hs) as (c & Ec & Sc & Stc & _).
    exists c, (cf_gf128_tobytes_be E (Y c)). split; [exact Ec|].
    split; [exact Stc|]. intros buf. split.
    + apply (ghash_add_aad_spec c buf Sc). rewrite Stc. discriminate.
    + apply (ghash_add_cipher_spec c buf Sc). exact Stc.
  - intros ops1 ops2 c1 -> H1. rewrite ghash_run_app, H1 in Hrun.
    destruct (ghash_run_spec ops1 _ c1 S0 H1) as (S1 & _).
    apply (ghash_run_spec ops2 c1 ctx S1 Hrun).
  - intros op c Hstep. apply (ghash_step_spec ctx c op Hs Hstep).
Qed.

(** ** The GCM entry points *)

Lemma Y0_of_12 (nonce_ : list Z) :
  length nonce_ = 12%nat ->
  store (store (store (store (memcpy_at (repeat 0 16) 0 nonce_) 14 0) 13 0)
               12 0) 15 1
  = nonce_ ++ [0; 0; 0; 1].
Proof.
  intros Hn.
  do 12 (destruct nonce_ as [|? nonce_]; [discriminate Hn|]).
  destruct nonce_; [|discriminate Hn]. reflexivity.
Qed.

Lemma nonce_ghash_total (nonce_ : list Z) :
  exists gh gh',
    ghash_add_cipher (ghash_init gcm_H) nonce_ = Some gh
    /\ ghash_final gh = Some (gh', nonce_ghash nonce_)
    /\ len_aad gh' = 0
    /\ len_cipher gh' = u64 (Z.of_nat (length nonce_)).
Proof.
  destruct (ghash_init_shape gcm_H) as (S0 & St0).
  destruct (ghash_add_cipher_spec _ nonce_ S0) as (_ & Ha & _).
  destruct (Ha (or_introl St0)) as (gh & E1 & S1 & St1 & _ & _ & LA & LC).
  destruct (ghash_final_spec gh S1) as (gh' & E2 & _ & _ & _ & _ & LA' & LC' & _).
  exists gh, gh'. unfold nonce_ghash. rewrite E1, E2.
  split; [reflexivity|]. split; [reflexivity|].
  split; [rewrite LA', LA; reflexivity|].
  rewrite LC', LC. reflexivity.
Qed.

Lemma gcm_full_tag_total (header c : list Z) :
  exists g1 g2 g3,
    ghash_add_aad (ghash_init gcm_H) header = Some g1
    /\ ghash_add_cipher g1 c = Some g2
    /\ ghash_final g2 = Some (g3, gcm_full_tag header c).
Proof.
  destruct (ghash_init_shape gcm_H) as (S0 & St0).
  destruct (proj1 (ghash_add_aad_spec _ header S0) St0)
    as (g1 & E1 & S1 & St1 & _).
  destruct (ghash_add_cipher_spec g1 c S1) as (_ & Ha & _).
  destruct (Ha (or_introl St1)) as (g2 & E2 & S2 & St2 & _).
  destruct (ghash_final_spec g2 S2) as (g3 & E3 & _).
  exists g1, g2, g3. unfold gcm_full_tag. rewrite E1, E2, E3.
  repeat split; reflexivity.
Qed.

Lemma ctr_cipher_length (ctr : cf_ctr) (input : list Z) :
  length (snd (cf_ctr_cipher ctr input)) = length input.
Proof.
  revert ctr. induction input as [|b input IH]; intros ctr;
    cbn [cf_ctr_cipher]; [reflexivity|].
  match goal with |- context [cf_ctr_cipher ?c input] =>
    specialize (IH c); destruct (cf_ctr_cipher c input) as [c' out]
  end.
  cbn [snd length] in *. now rewrite IH.
Qed.

(** The nonce-dependent prefix shared by the two entry points. *)
Lemma gcm_Y0_branch (nonce_ : list Z) (log : list event) :
  (if (length nonce_ =? 12)%nat
   then Some (store (store (store (store (memcpy_at (repeat 0 16) 0 nonce_)
                                         14 0) 13 0) 12 0) 15 1, log)
   else
     gh <- ghash_add_cipher (ghash_init gcm_H) nonce_ ;;
     ' (gh, Y0) <- ghash_final gh ;;
     Some (Y0, log ++ [NonceHash nonce_ Y0]))
  = Some (gcm_Y0 nonce_,
          log ++ (if (length nonce_ =? 12)%nat then []
                  else [NonceHash nonce_ (gcm_Y0 nonce_)])).
Proof.
  unfold gcm_Y0.
  destruct (Nat.eqb_spec (length nonce_) 12) as [E12|E12].
  - rewrite (Y0_of_12 nonce_ E12), app_nil_r. reflexivity.
  - destruct (nonce_ghash_total nonce_) as (gh & gh' & E1 & E2 & _).
    rewrite E1. cbn [bind]. rewrite E2. cbn [bind]. reflexivity.
Qed.

Lemma ntag_check (ntag : nat) :
  (1 < ntag <= 16)%nat ->
  negb ((1 <? ntag)%nat && (ntag <=? 16)%nat) = false.
Proof.
  intros [H1 H2]. apply Nat.ltb_lt in H1. apply Nat.leb_le in H2.
  now rewrite H1, H2.
Qed.

Lemma gcm_encrypt_eq (plain header nonce_ cipher tag : list Z) (ntag : nat) :
  (1 < ntag <= 16)%nat ->
  let c := gcm_ctr_xor nonce_ plain in
  let ft := gcm_full_tag header c in
  cf_gcm_encrypt plain header nonce_ cipher tag ntag
  = Some {| enc_cipher := memcpy_at cipher 0 c;
            enc_tag := xor_bb tag ft (gcm_e_Y0 nonce_) ntag;
            enc_trace := gcm_trace_prefix nonce_ header
                         ++ [CtrPayload plain c; HashCipher c; HashFinal ft] |}.
Proof.
  intros Hntag. cbv zeta. unfold cf_gcm_encrypt.
  fold gcm_H.
  rewrite gcm_Y0_branch. cbn [bind].
  set (c := gcm_ctr_xor nonce_ plain).
  destruct (gcm_full_tag_total header c) as (g1 & g2 & g3 & E1 & E2 & E3).
  rewrite E1. cbn [bind].
  unfold cf_ctr_custom_counter, cf_ctr_init.
  cbn [Nat.leb Nat.add negb bind GCM.nonce keymat nkeymat].
  fold (gcm_ctr0 nonce_).
  assert (P0 : cf_ctr_cipher (gcm_ctr0 nonce_) (repeat 0 16)
               = (gcm_ctr1 nonce_, gcm_e_Y0 nonce_))
    by (unfold gcm_ctr1, gcm_e_Y0; apply surjective_pairing).
  rewrite P0.
  assert (P1 : cf_ctr_cipher (gcm_ctr1 nonce_) plain
               = (fst (cf_ctr_cipher (gcm_ctr1 nonce_) plain), c))
    by (unfold c, gcm_ctr_xor; apply surjective_pairing).
  rewrite P1.
  assert (Nc : length c = length plain) by apply ctr_cipher_length.
  assert (Hf : firstn (length plain) (memcpy_at cipher 0 c) = c)
    by (rewrite <- Nc; apply memcpy_at_0_firstn).
  rewrite Hf, E2. cbn [bind]. rewrite E3. cbn [bind].
  rewrite (ntag_check ntag Hntag).
  unfold gcm_trace_prefix. rewrite <- !app_assoc. reflexivity.
Qed.

Lemma gcm_encrypt_bad_ntag (plain header nonce_ cipher tag : list Z)
      (ntag : nat) :
  ~ (1 < ntag <= 16)%nat ->
  cf_gcm_encrypt plain header nonce_ cipher tag ntag = None.
Proof.
  intros Hntag. unfold cf_gcm_encrypt.
  fold gcm_H.
  rewrite gcm_Y0_branch. cbn [bind].
  set (c := gcm_ctr_xor nonce_ plain).
  destruct (gcm_full_tag_total header c) as (g1 & g2 & g3 & E1 & E2 & E3).
  rewrite E1. cbn [bind].
  unfold cf_ctr_custom_counter, cf_ctr_init.
  cbn [Nat.leb Nat.add negb bind GCM.nonce keymat nkeymat].
  fold (gcm_ctr0 nonce_).
  assert (P0 : cf_ctr_cipher (gcm_ctr0 nonce_) (repeat 0 16)
               = (gcm_ctr1 nonce_, gcm_e_Y0 nonce_))
    by (unfold gcm_ctr1, gcm_e_Y0; apply surjective_pairing).
  rewrite P0.
  assert (P1 : cf_ctr_cipher (gcm_ctr1 nonce_) plain
               = (fst (cf_ctr_cipher (gcm_ctr1 nonce_) plain), c))
    by (unfold c, gcm_ctr_xor; apply surjective_pairing).
  rewrite P1.
  assert (Nc : length c = length plain) by apply ctr_cipher_length.
  assert (Hf : firstn (length plain) (memcpy_at cipher 0 c) = c)
    by (rewrite <- Nc; apply memcpy_at_0_firstn).
  rewrite Hf, E2. cbn [bind]. rewrite E3. cbn [bind].
  destruct (Nat.ltb_spec 1 ntag); destruct (Nat.leb_spec ntag 16);
    cbn [andb negb]; try reflexivity. lia.
Qed.

(** The masked tag the decryption compares, and the events before the
    comparison. *)
Lemma gcm_decrypt_eq (cipher header nonce_ tag : list Z) (ntag : nat)
      (plain : list Z) (eq : Z) :
  (1 < ntag <= 16)%nat ->
  let ft := gcm_full_tag header cipher in
  let ft' := xor_bb ft ft (gcm_e_Y0 nonce_) ntag in
  let pre := gcm_trace_prefix nonce_ header
             ++ [HashCipher cipher; HashFinal ft;
                 TagCompare (firstn ntag ft') (firstn ntag tag) ntag eq] in
  mem_eq ft' tag ntag = eq ->
  cf_gcm_decrypt cipher header nonce_ tag ntag plain
  = Some (if eq =? 0
          then {| dec_err := 1; dec_plain := plain; dec_trace := pre |}
          else {| dec_err := 0;
                  dec_plain := memcpy_at plain 0 (gcm_ctr_xor nonce_ cipher);
                  dec_trace := pre ++ [CtrPayload cipher
                                         (gcm_ctr_xor nonce_ cipher)] |}).
Proof.
  intros Hntag. cbv zeta. intros Heq. unfold cf_gcm_decrypt.
  fold gcm_H.
  rewrite gcm_Y0_branch. cbn [bind].
  destruct (gcm_full_tag_total header cipher)
    as (g1 & g2 & g3 & E1 & E2 & E3).
  rewrite E1. cbn [bind].
  unfold cf_ctr_custom_counter, cf_ctr_init.
  cbn [Nat.leb Nat.add negb bind GCM.nonce keymat nkeymat].
  fold (gcm_ctr0 nonce_).
  assert (P0 : cf_ctr_cipher (gcm_ctr0 nonce_) (repeat 0 16)
               = (gcm_ctr1 nonce_, gcm_e_Y0 nonce_))
    by (unfold gcm_ctr1, gcm_e_Y0; apply surjective_pairing).
  rewrite P0.
  rewrite E2. cbn [bind]. rewrite E3. cbn [bind].
  rewrite (ntag_check ntag Hntag), Heq.
  assert (P1 : cf_ctr_cipher (gcm_ctr1 nonce_) cipher
               = (fst (cf_ctr_cipher (gcm_ctr1 nonce_) cipher),
                  gcm_ctr_xor nonce_ cipher))
    by (unfold gcm_ctr_xor; apply surjective_pairing).
  rewrite P1.
  unfold gcm_trace_prefix. rewrite <- !app_assoc.
  destruct (eq =? 0); reflexivity.
Qed.

(** ** Counter mode *)

Lemma ctr_cipher_nth (data : list Z) :
  forall (ctr : cf_ctr) (i : nat),
    (nkeymat ctr <= 16)%nat -> (i < length data)%nat ->
    nth i (snd (cf_ctr_cipher ctr data)) 0
    = Z.lxor (nth i data 0) (ctr_keystream ctr i).
Proof.
  induction data as [|b data IH]; intros ctr i Hk Hi; [cbn in Hi; lia|].
  cbn [cf_ctr_cipher].
  destruct (Nat.eqb_spec (nkeymat ctr) 0) as [E0|E0].
  - cbn [nkeymat keymat GCM.nonce counter_offset counter_width].
    match goal with |- context [cf_ctr_cipher ?c data] =>
      specialize (IH c); destruct (cf_ctr_cipher c data) as [c' out] eqn:Ec
    end.
    cbn [snd nkeymat keymat GCM.nonce counter_offset counter_width] in *.
    destruct i as [|i].
    + cbn [nth]. unfold ctr_keystream. rewrite E0. cbn.
      reflexivity.
    + cbn [nth length] in *. rewrite IH by lia.
      f_equal. unfold ctr_keystream.
      cbn [nkeymat keymat GCM.nonce counter_offset counter_width].
      rewrite E0. change (S i <? 0)%nat with false. cbv iota zeta.
      rewrite Nat.sub_0_r. change (16 - 1)%nat with 15%nat.
      destruct (Nat.ltb_spec i 15) as [Hlt|Hge].
      * rewrite (Nat.mod_small (S i) 16), (Nat.div_small (S i) 16) by lia.
        cbn [Nat.iter nat_rect]. reflexivity.
      * assert (Hm : (S i mod 16 = (i - 15) mod 16)%nat).
        { rewrite <- (Nat.Div0.mod_add (i - 15) 1 16). f_equal. lia. }
        assert (Hd : (S i / 16 = S ((i - 15) / 16))%nat).
        { transitivity (((i - 15) + 1 * 16) / 16)%nat; [f_equal; lia|].
          rewrite Nat.div_add by lia. lia. }
        rewrite Hm, Hd, Nat.iter_succ_r. reflexivity.
  - match goal with |- context [cf_ctr_cipher ?c data] =>
      specialize (IH c); destruct (cf_ctr_cipher c data) as [c' out] eqn:Ec
    end.
    cbn [snd nkeymat keymat GCM.nonce counter_offset counter_width] in *.
    destruct i as [|i].
    + cbn [nth]. unfold ctr_keystream.
      destruct (Nat.ltb_spec 0 (nkeymat ctr)); [|lia].
      rewrite Nat.add_0_r. reflexivity.
    + cbn [nth length] in *. rewrite IH by lia.
      f_equal. unfold ctr_keystream.
      cbn [nkeymat keymat GCM.nonce counter_offset counter_width].
      destruct (Nat.ltb_spec i (nkeymat ctr - 1));
        destruct (Nat.ltb_spec (S i) (nkeymat ctr)); try lia.
      * f_equal. lia.
      * cbv zeta. replace (S i - nkeymat ctr)%nat
          with (i - (nkeymat ctr - 1))%nat by lia. reflexivity.
Qed.

(** The key stream does not depend on the data: running the cipher twice
    from the same context gives the input back. *)
Lemma ctr_cipher_involutive (ctr : cf_ctr) (data : list Z) :
  (nkeymat ctr <= 16)%nat ->
  snd (cf_ctr_cipher ctr (snd (cf_ctr_cipher ctr data))) = data.
Proof.
  intros Hk.
  pose proof (ctr_cipher_length ctr data) as N1.
  pose proof (ctr_cipher_length ctr (snd (cf_ctr_cipher ctr data))) as N2.
  apply nth_ext with (d := 0) (d' := 0); [congruence|].
  intros i Hi. rewrite N2, N1 in Hi.
  rewrite ctr_cipher_nth by (try rewrite N1; assumption).
  rewrite ctr_cipher_nth by assumption.
  rewrite Z.lxor_assoc, Z.lxor_nilpotent, Z.lxor_0_r. reflexivity.
Qed.

(** After the tag offset has been drawn, the context sits at the start of
    key stream block 1. *)
Lemma gcm_ctr1_eq (nonce_ : list Z) :
  gcm_ctr1 nonce_
  = {| GCM.nonce := incr_be (firstn 16 (gcm_Y0 nonce_)) 12 4;
       counter_offset := 12; counter_width := 4;
       keymat := firstn 16 (prp_encrypt E (firstn 16 (gcm_Y0 nonce_)));
       nkeymat := 0 |}
  /\ gcm_e_Y0 nonce_
     = map (fun i => nth i (prp_encrypt E (firstn 16 (gcm_Y0 nonce_))) 0)
           (seq 0 16).
Proof.
  unfold gcm_ctr1, gcm_e_Y0, gcm_ctr0.
  generalize (firstn 16 (gcm_Y0 nonce_)). intros y0.
  cbv [cf_ctr_cipher repeat nkeymat keymat GCM.nonce counter_offset
       counter_width Nat.eqb Nat.sub fst snd map seq].
  rewrite !Z.lxor_0_l. rewrite !nth_firstn.
  cbn [Nat.ltb Nat.leb]. split; reflexivity.
Qed.

(** ** Claims about GCM *)

Lemma CtrInit_in_prefix (nonce_ header : list Z) (tail : list event)
      (y : list Z) :
  (forall e, In e tail -> match e with CtrInit _ => False | _ => True end) ->
  In (CtrInit y) (gcm_trace_prefix nonce_ header ++ tail) <->
  y = gcm_Y0 nonce_.
Proof.
  intros Htail. unfold gcm_trace_prefix. split.
  - intros Hin. rewrite !in_app_iff in Hin.
    destruct Hin as [[Hin|[Hin|Hin]]|Hin].
    + destruct Hin as [Hin|[]]. discriminate Hin.
    + destruct (length nonce_ =? 12)%nat; [destruct Hin|].
      destruct Hin as [Hin|[]]. discriminate Hin.
    + destruct Hin as [Hin|[Hin|[Hin|[]]]]; try discriminate Hin.
      now injection Hin.
    + apply Htail in Hin. contradiction.
  - intros ->. rewrite !in_app_iff. left. right. right. right. now left.
Qed.

(** C7.  The initial counter block.  Both entry points start the counter
    mode from the same [Y0]: for a 12-byte nonce it is the nonce followed by
    00 00 00 01; for any other length it is the output of [ghash_final] on a
    fresh context under the subkey [H] into which the nonce was fed with
    [ghash_add_cipher] (no associated data: the hashed AAD length is 0). *)
Theorem C7_initial_counter_block
    (plain header nonce_ cbuf tbuf cipher tag pbuf : list Z) (ntag : nat) :
  (1 < ntag <= 16)%nat ->
  exists e d,
    cf_gcm_encrypt plain header nonce_ cbuf tbuf ntag = Some e
    /\ cf_gcm_decrypt cipher header nonce_ tag ntag pbuf = Some d
    /\ (forall y, In (CtrInit y) (enc_trace e) <-> y = gcm_Y0 nonce_)
    /\ (forall y, In (CtrInit y) (dec_trace d) <-> y = gcm_Y0 nonce_)
    /\ (length nonce_ = 12%nat -> gcm_Y0 nonce_ = nonce_ ++ [0; 0; 0; 1])
    /\ (length nonce_ <> 12%nat ->
        exists gh gh',
          ghash_add_cipher (ghash_init gcm_H) nonce_ = Some gh
          /\ ghash_final gh = Some (gh', gcm_Y0 nonce_)
          /\ state (ghash_init gcm_H) = STATE_AAD
          /\ buffer_used (ghash_init gcm_H) = 0%nat
          /\ len_aad gh' = 0
          /\ len_cipher gh' = u64 (Z.of_nat (length nonce_))).
Proof.
  intros Hntag.
  pose proof (gcm_encrypt_eq plain header nonce_ cbuf tbuf ntag Hntag) as Ee.
  cbv zeta in Ee.
  pose proof (gcm_decrypt_eq cipher header nonce_ tag ntag pbuf _ Hntag
                eq_refl) as Ed.
  cbv zeta in Ed.
  eexists. eexists. split; [exact Ee|]. split; [exact Ed|].
  cbn [enc_trace]. split; [|split; [|split; [|]]].
  - intros y. apply CtrInit_in_prefix.
    intros e [<-|[<-|[<-|[]]]]; exact I.
  - intros y.
    match goal with |- context [if ?b then _ else _] => destruct b end;
      cbn [dec_trace].
    + apply CtrInit_in_prefix. intros e [<-|[<-|[<-|[]]]]; exact I.
    + rewrite <- app_assoc. apply CtrInit_in_prefix.
      intros e [<-|[<-|[<-|[<-|[]]]]]; exact I.
  - intros H12. unfold gcm_Y0. apply Nat.eqb_eq in H12. now rewrite H12.
  - intros H12. unfold gcm_Y0. apply Nat.eqb_neq in H12. rewrite H12.
    destruct (nonce_ghash_total nonce_) as (gh & gh' & E1 & E2 & LA & LC).
    exists gh, gh'. repeat split; assumption.
Qed.

Lemma xor_bb_firstn (out x y : list Z) (n : nat) :
  firstn n (xor_bb out x y n)
  = map (fun i => Z.lxor (nth i x 0) (nth i y 0)) (seq 0 n)
  /\ skipn n (xor_bb out x y n) = skipn n out.
Proof.
  unfold xor_bb.
  set (src := map (fun i => Z.lxor (nth i x 0) (nth i y 0)) (seq 0 n)).
  assert (Ns : length src = n) by (unfold src; now rewrite length_map, length_seq).
  split.
  - rewrite <- Ns at 1. apply memcpy_at_0_firstn.
  - unfold memcpy_at. cbn [firstn app Nat.add]. rewrite Ns.
    rewrite skipn_app, Ns, Nat.sub_diag, skipn_O.
    rewrite skipn_all2 by lia. reflexivity.
Qed.

Lemma firstn_seq_le (n m s : nat) :
  (n <= m)%nat -> firstn n (seq s m) = seq s n.
Proof.
  revert m s. induction n as [|n IH]; intros [|m] s H; cbn [firstn seq];
    try reflexivity; try lia.
  f_equal. apply IH. lia.
Qed.

Lemma firstn_map_seq {A} (f : nat -> A) (n m : nat) :
  (n <= m)%nat -> firstn n (map f (seq 0 m)) = map f (seq 0 n).
Proof.
  intros H. rewrite firstn_map, firstn_seq_le by exact H. reflexivity.
Qed.

(** C9.  GCM tag truncation.  For a tag length [n] with [1 < n <= 16] the
    [n] tag bytes written are the first [n] bytes of the 16-byte tag for the
    same inputs, namely the first [n] bytes of the raw GHASH value XOR
    [e_Y0]; [e_Y0] is key stream block 0, the encryption of [Y0], and the
    payload is encrypted with the blocks from counter 1 on.  The ciphertext
    does not depend on [n], and the tag buffer beyond [n] is untouched. *)
Theorem C9_tag_truncation
    (plain header nonce_ cbuf tbuf : list Z) (n : nat) :
  (1 < n <= 16)%nat ->
  exists e_n e_16,
    cf_gcm_encrypt plain header nonce_ cbuf tbuf n = Some e_n
    /\ cf_gcm_encrypt plain header nonce_ cbuf tbuf 16 = Some e_16
    /\ firstn n (enc_tag e_n) = firstn n (enc_tag e_16)
    /\ enc_cipher e_n = enc_cipher e_16
    /\ skipn n (enc_tag e_n) = skipn n tbuf
    /\ (let c := firstn (length plain) (enc_cipher e_n) in
        let ft := gcm_full_tag header c in
        In (HashFinal ft) (enc_trace e_n)
        /\ In (CtrTagOffset (gcm_e_Y0 nonce_)) (enc_trace e_n)
        /\ firstn n (enc_tag e_n)
           = map (fun i => Z.lxor (nth i ft 0) (nth i (gcm_e_Y0 nonce_) 0))
                 (seq 0 n)
        /\ gcm_e_Y0 nonce_
           = map (fun i => nth i (prp_encrypt E (firstn 16 (gcm_Y0 nonce_))) 0)
                 (seq 0 16)
        /\ ((16 <= length (prp_encrypt E (firstn 16 (gcm_Y0 nonce_))))%nat ->
            gcm_e_Y0 nonce_
            = firstn 16 (prp_encrypt E (firstn 16 (gcm_Y0 nonce_))))
        /\ (forall i, (i < length plain)%nat ->
              nth i c 0
              = Z.lxor (nth i plain 0)
                  (nth (i mod 16)
                     (ctr_block (firstn 16 (gcm_Y0 nonce_)) (1 + i / 16))
                     0))).
Proof.
  intros Hn.
  pose proof (gcm_encrypt_eq plain header nonce_ cbuf tbuf n Hn) as En.
  pose proof (gcm_encrypt_eq plain header nonce_ cbuf tbuf 16
                ltac:(lia)) as E16.
  cbv zeta in En, E16.
  set (c := gcm_ctr_xor nonce_ plain) in *.
  set (ft := gcm_full_tag header c) in *.
  eexists. eexists. split; [exact En|]. split; [exact E16|].
  cbn [enc_tag enc_cipher enc_trace].
  destruct (xor_bb_firstn tbuf ft (gcm_e_Y0 nonce_) n) as (X1 & X2).
  destruct (xor_bb_firstn tbuf ft (gcm_e_Y0 nonce_) 16) as (Y1 & _).
  assert (Nc : length c = length plain) by apply ctr_cipher_length.
  assert (Hc : firstn (length plain) (memcpy_at cbuf 0 c) = c)
    by (rewrite <- Nc; apply memcpy_at_0_firstn).
  destruct (gcm_ctr1_eq nonce_) as (C1 & C2).
  split.
  { rewrite X1.
    transitivity (firstn n (firstn 16 (xor_bb tbuf ft (gcm_e_Y0 nonce_) 16))).
    - rewrite Y1. symmetry. apply firstn_map_seq. lia.
    - rewrite firstn_firstn. f_equal. lia. }
  split; [reflexivity|]. split; [exact X2|].
  cbv zeta. rewrite Hc. fold ft.
  split; [apply in_or_app; right; right; right; now left|].
  split.
  { unfold gcm_trace_prefix. rewrite !in_app_iff. left. right. right.
    right. right. now left. }
  split; [exact X1|]. split; [exact C2|]. split.
  { intros Hl. rewrite C2.
    apply nth_ext with (d := 0) (d' := 0).
    - rewrite length_map, length_seq, length_firstn. lia.
    - intros i Hi. rewrite length_map, length_seq in Hi.
      rewrite nth_firstn. destruct (Nat.ltb_spec i 16); [|lia].
      rewrite (nth_indep _ 0 (nth 0 (prp_encrypt E
                                       (firstn 16 (gcm_Y0 nonce_))) 0))
        by (rewrite length_map, length_seq; lia).
      rewrite (map_nth (fun j => nth j (prp_encrypt E
                                          (firstn 16 (gcm_Y0 nonce_))) 0)
                 (seq 0 16) 0%nat i).
      rewrite seq_nth by lia. reflexivity. }
  intros i Hi. unfold c, gcm_ctr_xor.
  rewrite ctr_cipher_nth by (try rewrite C1; cbn; lia).
  f_equal. rewrite C1. unfold ctr_keystream, ctr_block.
  cbn [nkeymat keymat GCM.nonce counter_offset counter_width].
  change (i <? 0)%nat with false. cbv iota zeta. rewrite Nat.sub_0_r.
  do 3 f_equal. cbn [Nat.add]. rewrite Nat.iter_succ_r. reflexivity.
Qed.

Lemma xor_bb_nth (out x y : list Z) (n i : nat) :
  (i < n)%nat ->
  nth i (xor_bb out x y n) 0 = Z.lxor (nth i x 0) (nth i y 0).
Proof.
  intros Hi. destruct (xor_bb_firstn out x y n) as (X1 & _).
  pose proof (f_equal (fun l => nth i l 0) X1) as Hn. cbv beta in Hn.
  rewrite nth_firstn in Hn. destruct (Nat.ltb_spec i n); [|lia].
  rewrite Hn.
  rewrite (nth_indep _ 0 (Z.lxor (nth 0 x 0) (nth 0 y 0)))
    by (rewrite length_map, length_seq; lia).
  rewrite (map_nth (fun j => Z.lxor (nth j x 0) (nth j y 0)) (seq 0 n) 0%nat i).
  rewrite seq_nth by lia. reflexivity.
Qed.

Lemma map_seq_nth (f : nat -> Z) (n i : nat) :
  (i < n)%nat -> nth i (map f (seq 0 n)) 0 = f i.
Proof.
  intros Hi.
  rewrite (nth_indep _ 0 (f 0%nat)) by (rewrite length_map, length_seq; lia).
  rewrite (map_nth f (seq 0 n) 0%nat i), seq_nth by lia. reflexivity.
Qed.

Lemma mem_eq_ext (a a' b : list Z) (n : nat) :
  (forall i, (i < n)%nat -> nth i a 0 = nth i a' 0) ->
  mem_eq a b n = mem_eq a' b n.
Proof.
  intros Hext.
  destruct (mem_eq_spec a b n) as ([H1|H0] & Hi);
    destruct (mem_eq_spec a' b n) as ([H1'|H0'] & Hi'); try congruence.
  - exfalso. assert (mem_eq a' b n = 1); [|congruence].
    apply Hi'. intros i Hlt. rewrite <- Hext by exact Hlt.
    now apply (proj1 Hi H1).
  - exfalso. assert (mem_eq a b n = 1); [|congruence].
    apply Hi. intros i Hlt. rewrite Hext by exact Hlt.
    now apply (proj1 Hi' H1').
Qed.

(** C2.  GCM decryption authenticates first.  The tag is computed by
    hashing the associated data, then the received ciphertext, finalising,
    masking with [e_Y0] and truncating to [ntag] bytes; it is compared with
    the supplied tag over all [ntag] bytes before the counter mode runs over
    the ciphertext.  On a mismatch the function returns 1 and the plaintext
    buffer is untouched; on a match it decrypts and returns 0. *)
Theorem C2_gcm_decrypt_checks_tag_first
    (cipher header nonce_ tag pbuf : list Z) (ntag : nat) :
  (1 < ntag <= 16)%nat ->
  exists d pre,
    let ft := gcm_full_tag header cipher in
    let computed := gcm_tag nonce_ header cipher ntag in
    let eq := mem_eq computed tag ntag in
    cf_gcm_decrypt cipher header nonce_ tag ntag pbuf = Some d
    (* how the tag is computed *)
    /\ (exists g1 g2 g3,
          ghash_add_aad (ghash_init gcm_H) header = Some g1
          /\ ghash_add_cipher g1 cipher = Some g2
          /\ ghash_final g2 = Some (g3, ft))
    /\ computed
       = map (fun i => Z.lxor (nth i ft 0) (nth i (gcm_e_Y0 nonce_) 0))
             (seq 0 ntag)
    (* the order of the calls *)
    /\ pre = [Subkey gcm_H]
             ++ (if (length nonce_ =? 12)%nat then []
                 else [NonceHash nonce_ (gcm_Y0 nonce_)])
             ++ [HashAad header; CtrInit (gcm_Y0 nonce_);
                 CtrTagOffset (gcm_e_Y0 nonce_);
                 HashCipher cipher; HashFinal ft]
    /\ forallb (fun e => negb (is_payload_ctr e)) pre = true
    /\ dec_trace d
       = pre ++ TagCompare computed (firstn ntag tag) ntag eq
             :: (if eq =? 0 then []
                 else [CtrPayload cipher (gcm_ctr_xor nonce_ cipher)])
    (* the comparison *)
    /\ (eq = 1 \/ eq = 0)
    /\ (eq = 1 <->
        forall i, (i < ntag)%nat ->
                  u8 (Z.lxor (nth i computed 0) (nth i tag 0)) = 0)
    /\ (limbs_le 255 computed -> limbs_le 255 tag ->
        (ntag <= length tag)%nat ->
        (eq = 1 <-> computed = firstn ntag tag))
    (* mismatch: failure, nothing written *)
    /\ (eq = 0 ->
        dec_err d = 1 /\ dec_plain d = pbuf
        /\ forallb (fun e => negb (is_payload_ctr e)) (dec_trace d) = true)
    (* match: decrypt and succeed *)
    /\ (eq = 1 ->
        dec_err d = 0
        /\ dec_plain d = memcpy_at pbuf 0 (gcm_ctr_xor nonce_ cipher)
        /\ firstn (length cipher) (dec_plain d) = gcm_ctr_xor nonce_ cipher
        /\ skipn (length cipher) (dec_plain d) = skipn (length cipher) pbuf).
Proof.
  intros Hntag. cbv zeta.
  set (ft := gcm_full_tag header cipher).
  set (computed := gcm_tag nonce_ header cipher ntag).
  assert (Nco : length computed = ntag)
    by (unfold computed, GcmSpec.gcm_tag; now rewrite length_map, length_seq).
  assert (Hext : forall i, (i < ntag)%nat ->
                   nth i (xor_bb ft ft (gcm_e_Y0 nonce_) ntag) 0
                   = nth i computed 0).
  { intros i Hi. rewrite xor_bb_nth by exact Hi.
    unfold computed, GcmSpec.gcm_tag. fold ft.
    now rewrite map_seq_nth by exact Hi. }
  assert (Hfx : firstn ntag (xor_bb ft ft (gcm_e_Y0 nonce_) ntag) = computed).
  { rewrite (proj1 (xor_bb_firstn ft ft (gcm_e_Y0 nonce_) ntag)).
    reflexivity. }
  pose proof (mem_eq_ext _ _ tag ntag Hext) as Hme.
  pose proof (gcm_decrypt_eq cipher header nonce_ tag ntag pbuf _ Hntag
                eq_refl) as Ed.
  cbv zeta in Ed. fold ft in Ed. rewrite Hfx, Hme in Ed.
  destruct (mem_eq_spec computed tag ntag) as (Hcases & Hiff).
  assert (Hbytes : limbs_le 255 computed -> limbs_le 255 tag ->
                   (ntag <= length tag)%nat ->
                   (mem_eq computed tag ntag = 1
                    <-> computed = firstn ntag tag)).
  { intros Bc Bt Lt.
    rewrite (mem_eq_bytes computed tag ntag Bc Bt ltac:(lia) Lt).
    rewrite <- Nco at 1. rewrite firstn_all. reflexivity. }
  destruct (gcm_full_tag_total header cipher) as (g1 & g2 & g3 & T1 & T2 & T3).
  fold ft in T3.
  assert (Nx : length (gcm_ctr_xor nonce_ cipher) = length cipher)
    by apply ctr_cipher_length.
  clear Hme.
  remember (mem_eq computed tag ntag) as eq eqn:Hdef. clear Hdef.
  eexists. eexists. split; [exact Ed|].
  split; [exists g1, g2, g3; repeat split; assumption|].
  split; [reflexivity|]. split; [reflexivity|].
  split.
  { destruct (length nonce_ =? 12)%nat; reflexivity. }
  split.
  { unfold gcm_trace_prefix.
    destruct Hcases as [-> | ->]; cbn [Z.eqb dec_trace];
      rewrite <- ?app_assoc; cbn [app];
      destruct (length nonce_ =? 12)%nat; reflexivity. }
  split; [exact Hcases|]. split; [exact Hiff|]. split; [exact Hbytes|].
  split.
  - intros ->. cbn [Z.eqb dec_err dec_plain dec_trace].
    split; [reflexivity|]. split; [reflexivity|].
    unfold gcm_trace_prefix.
    destruct (length nonce_ =? 12)%nat; reflexivity.
  - intros ->. cbn [Z.eqb dec_err dec_plain dec_trace].
    split; [reflexivity|]. split; [reflexivity|]. split.
    + rewrite <- Nx. apply memcpy_at_0_firstn.
    + unfold memcpy_at. cbn [firstn app Nat.add].
      rewrite skipn_app, Nx, Nat.sub_diag, skipn_O.
      rewrite skipn_all2 by lia. reflexivity.
Qed.

(** Round trip of the GCM construction, for every block cipher and both
    multiplier backends. *)
Lemma gcm_round_trip (plain header nonce_ cbuf tbuf pbuf : list Z)
      (ntag : nat) :
  (1 < ntag <= 16)%nat ->
  exists e d,
    cf_gcm_encrypt plain header nonce_ cbuf tbuf ntag = Some e
    /\ cf_gcm_decrypt (firstn (length plain) (enc_cipher e)) header nonce_
         (enc_tag e) ntag pbuf = Some d
    /\ dec_err d = 0
    /\ firstn (length plain) (dec_plain d) = plain.
Proof.
  intros Hntag.
  pose proof (gcm_encrypt_eq plain header nonce_ cbuf tbuf ntag Hntag) as Ee.
  cbv zeta in Ee.
  set (c := gcm_ctr_xor nonce_ plain) in *.
  set (ft := gcm_full_tag header c) in *.
  assert (Nc : length c = length plain) by apply ctr_cipher_length.
  assert (Hc : firstn (length plain) (memcpy_at cbuf 0 c) = c)
    by (rewrite <- Nc; apply memcpy_at_0_firstn).
  eexists. eexists. split; [exact Ee|]. cbn [enc_cipher enc_tag].
  rewrite Hc.
  assert (Heq : mem_eq (xor_bb ft ft (gcm_e_Y0 nonce_) ntag)
                  (xor_bb tbuf ft (gcm_e_Y0 nonce_) ntag) ntag = 1).
  { apply (proj2 (mem_eq_spec _ _ ntag)). intros i Hi.
    rewrite !xor_bb_nth by exact Hi. rewrite Z.lxor_nilpotent. reflexivity. }
  pose proof (gcm_decrypt_eq c header nonce_
                (xor_bb tbuf ft (gcm_e_Y0 nonce_) ntag) ntag pbuf 1 Hntag Heq)
    as Ed.
  cbv zeta in Ed.
  assert (H10 : (1 =? 0) = false) by reflexivity.
  rewrite H10 in Ed.
  split; [exact Ed|]. split; [reflexivity|]. cbn [dec_plain].
  assert (Hx : gcm_ctr_xor nonce_ c = plain).
  { unfold c, gcm_ctr_xor. apply ctr_cipher_involutive.
    rewrite (proj1 (gcm_ctr1_eq nonce_)). cbn. lia. }
  rewrite Hx. apply memcpy_at_0_firstn.
Qed.

End Facts.

(** C3.  AEAD round trip.  For both constructions, decrypting what encrypt
    produced under the same key, nonce and associated data succeeds and
    returns the original plaintext: for ChaCha20-Poly1305 with any key
    stream generator, for GCM with any block cipher, either multiplier
    backend and any tag length [1 < ntag <= 16]. *)
Theorem C3_aead_round_trip :
  (forall (ks : list Z -> list Z -> nat -> nat -> Z)
          (key_ nonce_ header plaintext cbuf tbuf pbuf : list Z),
      exists e d,
        ChaChaPoly.cf_chacha20poly1305_encrypt ks key_ nonce_ header
          plaintext cbuf tbuf = Some e
        /\ ChaChaPoly.ret e = ChaChaPoly.SUCCESS
        /\ ChaChaPoly.cf_chacha20poly1305_decrypt ks key_ nonce_ header
             (firstn (length plaintext) (ChaChaPoly.output e))
             (firstn 16 (ChaChaPoly.tag e)) pbuf = Some d
        /\ ChaChaPoly.ret d = ChaChaPoly.SUCCESS
        /\ firstn (length plaintext) (ChaChaPoly.output d) = plaintext)
  /\ (forall (E : capabilities)
             (plain header nonce_ cbuf tbuf pbuf : list Z) (ntag : nat),
        (1 < ntag <= 16)%nat ->
        exists e d,
          cf_gcm_encrypt (E:=E) plain header nonce_ cbuf tbuf ntag = Some e
          /\ cf_gcm_decrypt (E:=E) (firstn (length plain) (enc_cipher e))
               header nonce_ (enc_tag e) ntag pbuf = Some d
          /\ dec_err d = 0
          /\ firstn (length plain) (dec_plain d) = plain).
Proof.
  split.
  - intros. apply chacha20poly1305_round_trip.
  - intros. now apply gcm_round_trip.
Qed.

(** *** Instances on concrete inputs *)

Lemma C8_ghash_phase_witness :
  state GcmTestData.ctx2 = STATE_CIPHER
  /\ (forall buf, ghash_add_aad GcmTestData.ctx2 buf = None).
Proof.
  assert (Hrun : ghash_run (E:=TestData.toy)
                   (ghash_init (E:=TestData.toy) TestData.block16)
                   GcmTestData.ops2 = Some GcmTestData.ctx2)
    by reflexivity.
  pose proof (C8_ghash_phase_monotone (E:=TestData.toy) TestData.block16
                GcmTestData.ops2 GcmTestData.ctx2 Hrun) as (_ & Haad & _).
  assert (Hst : state GcmTestData.ctx2 = STATE_CIPHER) by reflexivity.
  split; [exact Hst|].
  intros buf. apply (proj2 (Haad buf)). rewrite Hst. discriminate.
Defined.

Lemma C7_initial_counter_witness :
  exists e d,
    cf_gcm_encrypt (E:=TestData.toy) TestData.msg20 TestData.aad5
      TestData.nonce12 (repeat 0 20) (repeat 0 16) 16 = Some e
    /\ cf_gcm_decrypt (E:=TestData.toy) TestData.msg20 TestData.aad5
         TestData.nonce12 TestData.block16 16 (repeat 0 20) = Some d
    /\ In (CtrInit (TestData.nonce12 ++ [0; 0; 0; 1])) (enc_trace e)
    /\ In (CtrInit (TestData.nonce12 ++ [0; 0; 0; 1])) (dec_trace d).
Proof.
  assert (Hn : (1 < 16 <= 16)%nat) by lia.
  destruct (C7_initial_counter_block (E:=TestData.toy) TestData.msg20
              TestData.aad5 TestData.nonce12 (repeat 0 20) (repeat 0 16)
              TestData.msg20 TestData.block16 (repeat 0 20) 16 Hn)
    as (e & d & He & Hd & Ie & Id & H12 & _).
  exists e, d. split; [exact He|]. split; [exact Hd|].
  rewrite <- (H12 eq_refl).
  split; [apply Ie|apply Id]; reflexivity.
Defined.

Lemma C9_tag_truncation_witness :
  exists e_4 e_16,
    cf_gcm_encrypt (E:=TestData.toy) TestData.msg20 TestData.aad5
      TestData.nonce8 (repeat 0 20) (repeat 0 16) 4 = Some e_4
    /\ cf_gcm_encrypt (E:=TestData.toy) TestData.msg20 TestData.aad5
         TestData.nonce8 (repeat 0 20) (repeat 0 16) 16 = Some e_16
    /\ firstn 4 (enc_tag e_4) = firstn 4 (enc_tag e_16).
Proof.
  assert (Hn : (1 < 4 <= 16)%nat) by lia.
  destruct (C9_tag_truncation (E:=TestData.toy) TestData.msg20 TestData.aad5
              TestData.nonce8 (repeat 0 20) (repeat 0 16) 4 Hn)
    as (e4 & e16 & H4 & H16 & Ht & _).
  exists e4, e16. split; [exact H4|]. split; [exact H16|exact Ht].
Defined.

Lemma C2_gcm_decrypt_witness :
  exists d,
    cf_gcm_decrypt (E:=TestData.toy) TestData.msg20 TestData.aad5
      TestData.nonce12 TestData.block16 16 (repeat 0 20) = Some d.
Proof.
  assert (Hn : (1 < 16 <= 16)%nat) by lia.
  destruct (C2_gcm_decrypt_checks_tag_first (E:=TestData.toy) TestData.msg20
              TestData.aad5 TestData.nonce12 TestData.block16 (repeat 0 20)
              16 Hn) as (d & pre & H).
  exists d. cbv zeta in H. exact (proj1 H).
Defined.

Lemma C3_aead_round_trip_witness :
  (exists e d,
      ChaChaPoly.cf_chacha20poly1305_encrypt TestData.toy_ks TestData.key32
        TestData.nonce12 TestData.aad5 TestData.msg20 (repeat 0 20)
        (repeat 0 16) = Some e
      /\ ChaChaPoly.cf_chacha20poly1305_decrypt TestData.toy_ks
           TestData.key32 TestData.nonce12 TestData.aad5
           (firstn 20 (ChaChaPoly.output e))
           (firstn 16 (ChaChaPoly.tag e)) (repeat 0 20) = Some d
      /\ firstn 20 (ChaChaPoly.output d) = TestData.msg20)
  /\ (exists e d,
        cf_gcm_encrypt (E:=TestData.toy) TestData.msg20 TestData.aad5
          TestData.nonce8 (repeat 0 20) (repeat 0 16) 12 = Some e
        /\ cf_gcm_decrypt (E:=TestData.toy) (firstn 20 (enc_cipher e))
             TestData.aad5 TestData.nonce8 (enc_tag e) 12 (repeat 0 20)
           = Some d
        /\ dec_err d = 0
        /\ firstn 20 (dec_plain d) = TestData.msg20).
Proof.
  destruct C3_aead_round_trip as (Hc & Hg).
  split.
  - destruct (Hc TestData.toy_ks TestData.key32 TestData.nonce12
                TestData.aad5 TestData.msg20 (repeat 0 20) (repeat 0 16)
                (repeat 0 20)) as (e & d & H1 & _ & H2 & _ & H3).
    exists e, d. split; [exact H1|]. split; [exact H2|exact H3].
  - assert (Hn : (1 < 12 <= 16)%nat) by lia.
    exact (Hg TestData.toy TestData.msg20 TestData.aad5 TestData.nonce8
              (repeat 0 20) (repeat 0 16) (repeat 0 20) 12%nat Hn).
Defined.

End GcmFacts.

(** ** Instances on concrete inputs *)

(** RFC 8439, section 2.5.2: the Poly1305 test vector. *)
Example poly1305_rfc8439_vector :
  option_map (fun ctx => fst (cf_poly1305_finish ctx))
    (cf_poly1305_update
       (cf_poly1305_init TestData.rfc_key_r TestData.rfc_key_s)
       TestData.rfc_msg)
  = Some TestData.rfc_tag.
Proof. vm_compute. reflexivity. Qed.

Lemma ctx_pending_ok : ctx_ok TestData.ctx_pending.
Proof.
  unfold ctx_ok, h_ok, limbs_le, TestData.ctx_pending.
  cbn [h r s partial npartial firstn nth length TestData.rfc_key_s].
  repeat split; try lia; repeat (constructor; [lia|]); constructor.
Defined.

Lemma block16_bytes : limbs_le 255 TestData.block16.
Proof.
  unfold limbs_le, TestData.block16. repeat (constructor; [lia|]). constructor.
Defined.

Lemma C5_block_marker_witness :
  whole_block_limbs TestData.block16 = TestData.block16 ++ [1]
  /\ nth 3 (last_block_limbs (partial TestData.ctx_pending) 3) 0 = 1.
Proof.
  pose proof (C5_block_marker_placement TestData.ctx_pending TestData.block16
                ctx_pending_ok eq_refl block16_bytes) as (Hw & Hl & _).
  split; [exact (proj1 Hw)|].
  assert (Hpos : (0 < npartial TestData.ctx_pending)%nat) by (cbn; lia).
  exact (proj1 (proj2 (proj2 (Hl Hpos)))).
Defined.

Lemma rfc_key_r_bytes : limbs_le 255 TestData.rfc_key_r.
Proof.
  unfold limbs_le, TestData.rfc_key_r. repeat (constructor; [lia|]).
  constructor.
Defined.

Lemma rfc_key_s_bytes : limbs_le 255 TestData.rfc_key_s.
Proof.
  unfold limbs_le, TestData.rfc_key_s. repeat (constructor; [lia|]).
  constructor.
Defined.

Lemma rfc_msg_bytes : Forall (limbs_le 255) [TestData.rfc_msg].
Proof.
  constructor; [|constructor].
  unfold limbs_le, TestData.rfc_msg. repeat (constructor; [lia|]).
  constructor.
Defined.

Lemma C4_finish_tag_witness :
  exists ctx,
    updates (cf_poly1305_init TestData.rfc_key_r TestData.rfc_key_s)
      [TestData.rfc_msg] = Some ctx
    /\ value (fst (cf_poly1305_finish ctx))
       = (value (h (if (npartial ctx =? 0)%nat then ctx
                    else poly1305_last_block ctx)) mod p1305
          + value TestData.rfc_key_s) mod 2 ^ 128.
Proof.
  destruct (C4_finish_tag TestData.rfc_key_r TestData.rfc_key_s
              [TestData.rfc_msg] eq_refl rfc_key_r_bytes eq_refl
              rfc_key_s_bytes rfc_msg_bytes) as (ctx & E & H).
  exists ctx. split; [exact E|]. cbv zeta in H.
  exact (proj1 (proj2 (proj2 (proj2 (proj2 (proj2 (proj2 H))))))).
Defined.

(** * Further properties of the code *)

(** ** Poly1305 and ChaCha20-Poly1305 *)

(** The tag is the Poly1305 polynomial of the concatenated input: with the
    clamped key [r] and the blocks [c_1 .. c_n] of the message, each extended
    by a byte 1, it is [((c_1 r^n + ... + c_n r) mod 2^130-5) + s] modulo
    2^128, however the input was cut into updates. *)
Theorem poly1305_mac_is_polynomial (r_ s_ : list Z)
    (chunks : list (list Z)) :
  length r_ = 16%nat -> limbs_le 255 r_ ->
  length s_ = 16%nat -> limbs_le 255 s_ ->
  Forall (limbs_le 255) chunks ->
  exists ctx,
    updates (cf_poly1305_init r_ s_) chunks = Some ctx
    /\ length (fst (cf_poly1305_finish ctx)) = 16%nat
    /\ limbs_le 255 (fst (cf_poly1305_finish ctx))
    /\ value (fst (cf_poly1305_finish ctx))
       = poly1305_mac r_ s_ (concat chunks).
Proof.
  intros Nr Br Ns Bs Hc.
  pose proof (cf_poly1305_init_ok r_ s_ Br Ns Bs) as Hok0.
  destruct (updates_poly chunks _ Hok0 Hc) as (ctx & E & Hok & Er & Es & P).
  exists ctx. split; [exact E|].
  destruct (cf_poly1305_finish_correct ctx Hok) as (F1 & F2 & F3).
  split; [exact F1|]. split; [exact F2|].
  rewrite F3, (absorb_pending_poly ctx Hok).
  specialize (P []). rewrite !app_nil_r in P.
  rewrite Er in *. rewrite <- P.
  unfold poly1305_mac. rewrite <- (init_r_value r_ s_ Nr Br).
  rewrite Es.
  change (s (cf_poly1305_init r_ s_)) with (firstn 16 s_).
  rewrite firstn_all2 by lia.
  change (pending (cf_poly1305_init r_ s_)) with (@nil Z).
  change (h (cf_poly1305_init r_ s_)) with (repeat 0 17).
  reflexivity.
Qed.

Lemma poly1305_mac_witness :
  exists ctx,
    updates (cf_poly1305_init TestData.rfc_key_r TestData.rfc_key_s)
      [TestData.rfc_msg] = Some ctx
    /\ value (fst (cf_poly1305_finish ctx))
       = poly1305_mac TestData.rfc_key_r TestData.rfc_key_s TestData.rfc_msg.
Proof.
  destruct (poly1305_mac_is_polynomial TestData.rfc_key_r TestData.rfc_key_s
              [TestData.rfc_msg] eq_refl rfc_key_r_bytes eq_refl
              rfc_key_s_bytes rfc_msg_bytes) as (ctx & E & _ & _ & H).
  exists ctx. split; [exact E|].
  cbn [concat] in H. rewrite app_nil_r in H. exact H.
Defined.

(** The tag does not depend on how the message was cut into updates. *)
Theorem poly1305_chunking_invariant (r_ s_ : list Z)
    (chunks chunks' : list (list Z)) :
  length r_ = 16%nat -> limbs_le 255 r_ ->
  length s_ = 16%nat -> limbs_le 255 s_ ->
  Forall (limbs_le 255) chunks -> Forall (limbs_le 255) chunks' ->
  concat chunks = concat chunks' ->
  exists ctx ctx',
    updates (cf_poly1305_init r_ s_) chunks = Some ctx
    /\ updates (cf_poly1305_init r_ s_) chunks' = Some ctx'
    /\ fst (cf_poly1305_finish ctx) = fst (cf_poly1305_finish ctx').
Proof.
  intros Nr Br Ns Bs Hc Hc' Heq.
  destruct (poly1305_mac_value r_ s_ chunks Nr Br Ns Bs Hc)
    as (c1 & E1 & N1 & B1 & V1).
  destruct (poly1305_mac_value r_ s_ chunks' Nr Br Ns Bs Hc')
    as (c2 & E2 & N2 & B2 & V2).
  exists c1, c2. split; [exact E1|]. split; [exact E2|].
  apply value_inj; try assumption; congruence.
Qed.

Lemma poly1305_chunking_witness :
  exists ctx ctx',
    updates (cf_poly1305_init TestData.rfc_key_r TestData.rfc_key_s)
      [TestData.rfc_msg] = Some ctx
    /\ updates (cf_poly1305_init TestData.rfc_key_r TestData.rfc_key_s)
         [firstn 5 TestData.rfc_msg; skipn 5 TestData.rfc_msg] = Some ctx'
    /\ fst (cf_poly1305_finish ctx) = fst (cf_poly1305_finish ctx').
Proof.
  assert (Hb : Forall (limbs_le 255)
                 [firstn 5 TestData.rfc_msg; skipn 5 TestData.rfc_msg]).
  { pose proof rfc_msg_bytes as Hm. inversion Hm as [|? ? Hm1 _]; subst.
    constructor; [now apply limbs_le_firstn|].
    constructor; [now apply limbs_le_skipn|constructor]. }
  exact (poly1305_chunking_invariant TestData.rfc_key_r TestData.rfc_key_s
           [TestData.rfc_msg]
           [firstn 5 TestData.rfc_msg; skipn 5 TestData.rfc_msg]
           eq_refl rfc_key_r_bytes eq_refl rfc_key_s_bytes rfc_msg_bytes Hb
           eq_refl).
Defined.

(** [mask_u32] is all ones on equal arguments and zero otherwise, so the
    masked merge [(a & mask) | (b & ~mask)] of [poly1305_full_reduce] picks
    [a] or [b] whole. *)
Theorem mask_u32_selects (x y a b : Z) :
  is_u32 x -> is_u32 y -> is_u32 a -> is_u32 b ->
  let m := mask_u32 x y in
  m = (if x =? y then 0xffffffff else 0)
  /\ Z.lor (Z.land a m) (Z.land b (Z.lxor m 0xffffffff))
     = (if x =? y then a else b).
Proof.
  intros Hx Hy Ha Hb. cbv zeta. rewrite (mask_u32_spec x y Hx Hy).
  split; [reflexivity|].
  destruct (x =? y).
  - change (Z.lxor 0xffffffff 0xffffffff) with 0.
    rewrite Z.land_0_r, Z.lor_0_r, land_0xffffffff.
    apply Z.mod_small. exact Ha.
  - change (Z.lxor 0 0xffffffff) with 0xffffffff.
    rewrite Z.land_0_r, Z.lor_0_l, land_0xffffffff.
    apply Z.mod_small. exact Hb.
Qed.

Lemma mask_u32_selects_witness :
  mask_u32 0x80 0x80 = 0xffffffff
  /\ Z.lor (Z.land 7 (mask_u32 0x80 0x80))
           (Z.land 9 (Z.lxor (mask_u32 0x80 0x80) 0xffffffff)) = 7.
Proof.
  assert (H80 : is_u32 0x80) by (unfold is_u32; lia).
  assert (H7 : is_u32 7) by (unfold is_u32; lia).
  assert (H9 : is_u32 9) by (unfold is_u32; lia).
  exact (mask_u32_selects 0x80 0x80 7 9 H80 H80 H7 H9).
Defined.

(** [cf_poly1305_init] clamps the key: the 17 limbs of [r] represent the 16
    key bytes AND 0x0ffffffc0ffffffc0ffffffc0fffffff; the accumulator
    starts at zero with nothing pending, and [s] is copied. *)
Theorem cf_poly1305_init_clamps (r_ s_ : list Z) :
  length r_ = 16%nat -> limbs_le 255 r_ -> length s_ = 16%nat ->
  let ctx := cf_poly1305_init r_ s_ in
  value (r ctx) = Z.land (value r_) clamp_mask
  /\ 0 <= value (r ctx) <= clamp_mask
  /\ h ctx = repeat 0 17 /\ npartial ctx = 0%nat /\ s ctx = s_.
Proof.
  intros Nr Br Ns. cbv zeta. rewrite (init_r_value r_ s_ Nr Br).
  split; [reflexivity|]. split.
  - split.
    + apply Z.land_nonneg. right. unfold clamp_mask. lia.
    + apply land_le_r. unfold clamp_mask. lia.
  - split; [reflexivity|]. split; [reflexivity|].
    cbn [cf_poly1305_init s]. apply firstn_all2. lia.
Qed.

Lemma cf_poly1305_init_clamps_witness :
  value (r (cf_poly1305_init TestData.rfc_key_r TestData.rfc_key_s))
  = Z.land (value TestData.rfc_key_r) clamp_mask.
Proof.
  exact (proj1 (cf_poly1305_init_clamps TestData.rfc_key_r
                  TestData.rfc_key_s eq_refl rfc_key_r_bytes eq_refl)).
Defined.

(** Adding a block to a reduced accumulator is exact: the carry chain of
    [poly1305_add] never drops a carry out of limb 16. *)
Theorem poly1305_add_exact (hl c : list Z) :
  h_ok hl -> length c = 17%nat -> limbs_le 255 c -> nth 16 c 0 <= 1 ->
  length (poly1305_add hl c) = 17%nat
  /\ limbs_le 255 (poly1305_add hl c)
  /\ value (poly1305_add hl c) = value hl + value c.
Proof.
  intros Hok Nc Bc Hc. pose proof Hok as (Nh & _).
  destruct (poly1305_add_correct hl c Nh Nc
              (limbs_le_mono 255 (2 ^ 30) _ ltac:(lia) (h_ok_limbs _ Hok))
              (limbs_le_mono 255 (2 ^ 30) _ ltac:(lia) Bc))
    as (N & B & V).
  split; [exact N|]. split; [exact B|]. rewrite V.
  pose proof (h_ok_value hl Hok) as Vh.
  assert (Vc : 0 <= value c < 2 * 2 ^ 128).
  { rewrite (split_17 c Nc), value_app, length_firstn, Nc.
    change (Nat.min 16 17) with 16%nat. rewrite pow256_16. cbn [value].
    pose proof (value_bound (firstn 16 c) (limbs_le_firstn _ 16 _ Bc)) as Bl.
    rewrite length_firstn, Nc in Bl. change (Nat.min 16 17) with 16%nat in Bl.
    rewrite pow256_16 in Bl.
    pose proof (limbs_le_nth 255 c 16 Bc ltac:(lia)). lia. }
  apply Z.mod_small. lia.
Qed.

Lemma poly1305_add_exact_witness :
  value (poly1305_add (h TestData.ctx_pending) (r TestData.ctx_pending))
  = value (h TestData.ctx_pending) + value (r TestData.ctx_pending).
Proof.
  assert (Hok : h_ok (h TestData.ctx_pending)) by apply ctx_pending_ok.
  assert (Bc : limbs_le 255 (r TestData.ctx_pending))
    by apply ctx_pending_ok.
  assert (Hc : nth 16 (r TestData.ctx_pending) 0 <= 1)
    by (cbn [nth r TestData.ctx_pending]; lia).
  exact (proj2 (proj2 (poly1305_add_exact (h TestData.ctx_pending)
                         (r TestData.ctx_pending) Hok eq_refl Bc Hc))).
Defined.

(** [poly1305_mul] on byte-sized limbs multiplies modulo 2^130 - 5 and
    leaves limbs small enough for the next block. *)
Theorem poly1305_mul_is_modular_product (x y : list Z) :
  length x = 17%nat -> length y = 17%nat ->
  limbs_le 255 x -> limbs_le 255 y ->
  length (poly1305_mul x y) = 17%nat
  /\ limbs_le 255 (poly1305_mul x y)
  /\ nth 16 (poly1305_mul x y) 0 <= 4
  /\ value (poly1305_mul x y) mod p1305 = (value x * value y) mod p1305
  /\ value (poly1305_mul x y) mod p1305
     = value (poly1305_mul y x) mod p1305.
Proof.
  intros Nx Ny Bx By.
  destruct (poly1305_mul_correct x y Nx Ny Bx By) as (Hok & V).
  destruct (poly1305_mul_correct y x Ny Nx By Bx) as (_ & V').
  split; [apply Hok|]. split; [now apply h_ok_limbs|].
  split; [apply Hok|]. split; [exact V|].
  rewrite V, V'. f_equal. ring.
Qed.

Lemma poly1305_mul_witness :
  value (poly1305_mul (h TestData.ctx_pending) (r TestData.ctx_pending))
    mod p1305
  = (value (h TestData.ctx_pending) * value (r TestData.ctx_pending))
      mod p1305.
Proof.
  assert (Hx : limbs_le 255 (h TestData.ctx_pending))
    by (apply h_ok_limbs, ctx_pending_ok).
  assert (Hy : limbs_le 255 (r TestData.ctx_pending))
    by apply ctx_pending_ok.
  exact (proj1 (proj2 (proj2 (proj2
           (poly1305_mul_is_modular_product (h TestData.ctx_pending)
              (r TestData.ctx_pending) eq_refl eq_refl Hx Hy))))).
Defined.

Lemma h_ok_of_small (x : list Z) :
  length x = 17%nat -> limbs_le 255 x -> value x < p1305 -> h_ok x.
Proof.
  intros N B V. split; [exact N|]. split; [now apply limbs_le_firstn|].
  pose proof (limbs_le_nth 255 x 16 B ltac:(lia)) as H16.
  split; [lia|].
  rewrite (split_17 x N), value_app, length_firstn, N in V.
  change (Nat.min 16 17) with 16%nat in V. rewrite pow256_16 in V.
  cbn [value] in V.
  pose proof (value_bound (firstn 16 x) (limbs_le_firstn _ 16 _ B)) as Bl.
  unfold p1305 in V. lia.
Qed.

(** [poly1305_full_reduce] yields the canonical residue modulo 2^130 - 5,
    and reducing twice changes nothing. *)
Theorem poly1305_full_reduce_canonical (x : list Z) :
  h_ok x ->
  value (poly1305_full_reduce x) = value x mod p1305
  /\ 0 <= value (poly1305_full_reduce x) < p1305
  /\ limbs_le 255 (poly1305_full_reduce x)
  /\ poly1305_full_reduce (poly1305_full_reduce x) = poly1305_full_reduce x.
Proof.
  intros Hok.
  destruct (poly1305_full_reduce_correct x Hok) as (N & B & V).
  assert (Hp : 0 < p1305) by (unfold p1305; lia).
  pose proof (Z.mod_pos_bound (value x) p1305 Hp) as Hb.
  split; [exact V|]. split; [rewrite V; exact Hb|]. split; [exact B|].
  assert (Hok' : h_ok (poly1305_full_reduce x))
    by (apply h_ok_of_small; [exact N|exact B|rewrite V; apply Hb]).
  destruct (poly1305_full_reduce_correct _ Hok') as (N' & B' & V').
  apply value_inj; try assumption; [congruence|].
  rewrite V'. apply Z.mod_small. rewrite V. exact Hb.
Qed.

Lemma poly1305_full_reduce_witness :
  value (poly1305_full_reduce (h TestData.ctx_pending))
  = value (h TestData.ctx_pending) mod p1305.
Proof.
  assert (Hok : h_ok (h TestData.ctx_pending)) by apply ctx_pending_ok.
  exact (proj1 (poly1305_full_reduce_canonical _ Hok)).
Defined.

(** An update with no bytes leaves the context as it is. *)
Theorem cf_poly1305_update_empty (ctx : cf_poly1305) :
  length (partial ctx) = 16%nat -> (npartial ctx < 16)%nat ->
  cf_poly1305_update ctx [] = Some ctx.
Proof.
  intros Np Hn. destruct ctx as [h0 r0 s0 p0 n0]. cbn [partial npartial] in *.
  unfold cf_poly1305_update, Blockwise.cf_blockwise_accumulate.
  cbn [partial npartial h r s length].
  destruct (Nat.ltb_spec n0 16) as [_|]; [|lia]. cbn [negb].
  rewrite Bool.andb_false_r. cbn [Blockwise.whole_blocks length].
  unfold memcpy_at. cbn [app length]. rewrite Nat.add_0_r, firstn_skipn.
  reflexivity.
Qed.

Lemma cf_poly1305_update_empty_witness :
  cf_poly1305_update TestData.ctx_pending [] = Some TestData.ctx_pending.
Proof.
  assert (Hn : (npartial TestData.ctx_pending < 16)%nat)
    by (cbn [npartial TestData.ctx_pending]; lia).
  exact (cf_poly1305_update_empty TestData.ctx_pending eq_refl Hn).
Defined.

(** [mem_clean] zeroes exactly the first [len] bytes; a length of zero
    touches nothing. *)
Theorem mem_clean_zeroes_prefix (v : list Z) (len : nat) :
  (len <= length v)%nat ->
  length (mem_clean v len) = length v
  /\ firstn len (mem_clean v len) = repeat 0 len
  /\ skipn len (mem_clean v len) = skipn len v
  /\ mem_clean v 0 = v.
Proof.
  intros Hl. destruct (mem_clean_zero v len) as (Z1 & Z2 & Z3 & _).
  split; [now apply Z3|]. split; [|split; [exact Z2|reflexivity]].
  apply (nth_ext _ _ 0 0).
  - rewrite length_firstn, repeat_length, (Z3 Hl). lia.
  - intros i Hi. rewrite length_firstn, (Z3 Hl) in Hi.
    rewrite nth_firstn.
    destruct (Nat.ltb_spec i len); [|lia].
    rewrite (Z1 i) by lia. symmetry. apply nth_repeat.
Qed.

Lemma mem_clean_zeroes_witness :
  firstn 3 (mem_clean TestData.block16 3) = repeat 0 3.
Proof.
  assert (Hl : (3 <= length TestData.block16)%nat)
    by (cbn [length TestData.block16]; lia).
  exact (proj1 (proj2 (mem_clean_zeroes_prefix TestData.block16 3 Hl))).
Defined.

Import ChaChaPoly.

(** [mem_eq] returns 1 exactly when the first [len] bytes agree, 0
    otherwise, and does not care about the order of its arguments. *)
Theorem mem_eq_decides_byte_equality (a b : list Z) (len : nat) :
  limbs_le 255 a -> limbs_le 255 b ->
  (len <= length a)%nat -> (len <= length b)%nat ->
  (mem_eq a b len = 1 <-> firstn len a = firstn len b)
  /\ (mem_eq a b len = 0 <-> firstn len a <> firstn len b)
  /\ mem_eq a b len = mem_eq b a len.
Proof.
  intros Ba Bb La Lb.
  pose proof (mem_eq_bytes a b len Ba Bb La Lb) as Hab.
  pose proof (mem_eq_bytes b a len Bb Ba Lb La) as Hba.
  destruct (mem_eq_spec a b len) as ([H1|H0] & _);
    destruct (mem_eq_spec b a len) as ([H1'|H0'] & _).
  - split; [exact Hab|]. split; [|congruence].
    split; [congruence|]. intros Hne. exfalso. apply Hne. now apply Hab.
  - exfalso. assert (mem_eq b a len = 1); [|congruence].
    apply Hba. symmetry. now apply Hab.
  - exfalso. assert (mem_eq a b len = 1); [|congruence].
    apply Hab. symmetry. now apply Hba.
  - split; [exact Hab|]. split; [|congruence].
    split; [|intros _; exact H0].
    intros _ Heq. apply Hab in Heq. congruence.
Qed.

Lemma mem_eq_decides_witness :
  mem_eq TestData.rfc_key_r TestData.rfc_key_s 16 = 0
  <-> firstn 16 TestData.rfc_key_r <> firstn 16 TestData.rfc_key_s.
Proof.
  assert (La : (16 <= length TestData.rfc_key_r)%nat)
    by (cbn [length TestData.rfc_key_r]; lia).
  assert (Lb : (16 <= length TestData.rfc_key_s)%nat)
    by (cbn [length TestData.rfc_key_s]; lia).
  exact (proj1 (proj2 (mem_eq_decides_byte_equality TestData.rfc_key_r
                         TestData.rfc_key_s 16 rfc_key_r_bytes
                         rfc_key_s_bytes La Lb))).
Defined.

(** [write64_le] writes the 8 little-endian bytes of a 64-bit value. *)
Theorem write64_le_little_endian (v : Z) :
  0 <= v < 2 ^ 64 ->
  length (write64_le v) = 8%nat
  /\ limbs_le 255 (write64_le v)
  /\ value (write64_le v) = v
  /\ forall w, 0 <= w < 2 ^ 64 -> write64_le v = write64_le w -> v = w.
Proof.
  intros Hv. destruct (write64_le_spec v (proj1 Hv)) as (N & B & V).
  rewrite Z.mod_small in V by exact Hv.
  repeat (split; [assumption|]).
  intros w Hw Heq. destruct (write64_le_spec w (proj1 Hw)) as (_ & _ & V').
  rewrite Z.mod_small in V' by exact Hw. congruence.
Qed.

Lemma write64_le_witness : value (write64_le 0x0102030405060708) = 0x0102030405060708.
Proof.
  assert (Hv : 0 <= 0x0102030405060708 < 2 ^ 64) by lia.
  exact (proj1 (proj2 (proj2 (write64_le_little_endian _ Hv)))).
Defined.

(** Whatever the mode and the outcome, [process] leaves no key material
    behind: the one-time key buffer and the cipher context are zero. *)
Theorem chacha20poly1305_secrets_wiped
    (ks : list Z -> list Z -> nat -> nat -> Z)
    (key_ nonce_ header input output_ tag_ : list Z) (mode : Z) :
  exists res,
    process ks key_ nonce_ header input output_ mode tag_ = Some res
    /\ polykey_final res = repeat 0 32
    /\ Forall (fun b => b = 0) (key (chacha_final res))
    /\ nonce (chacha_final res) = repeat 0 16
    /\ pos (chacha_final res) = 0%nat
    /\ (ret res = SUCCESS \/ ret res = FAILURE)
    /\ (mode = ENCRYPT -> ret res = SUCCESS).
Proof.
  pose proof (process_eq ks key_ nonce_ header input output_ tag_ mode) as E.
  cbv zeta in E. eexists. split; [exact E|].
  assert (Hz : forall n, Forall (fun b => b = 0) (repeat 0 n)).
  { intros n. apply Forall_forall. intros x Hx.
    now apply repeat_spec in Hx. }
  destruct (mode =? ENCRYPT) eqn:Em.
  - cbn [polykey_final chacha_final ret chacha_clean key nonce pos].
    repeat split; auto.
  - destruct (negb _);
      cbn [polykey_final chacha_final ret chacha_clean key nonce pos];
      (repeat split; auto);
      intros ->; discriminate Em.
Qed.

Lemma lxor_byte (a b : Z) :
  0 <= a <= 255 -> 0 <= b <= 255 -> 0 <= Z.lxor a b <= 255.
Proof.
  intros Ha Hb.
  assert (E : Z.lxor a b = Z.lxor a b mod 2 ^ 8).
  { rewrite <- Z.land_ones by lia.
    apply Z.bits_inj'. intros n Hn.
    rewrite Z.land_spec, !Z.lxor_spec.
    destruct (Z.ltb_spec n 8) as [Hlt|Hge].
    - rewrite Z.ones_spec_low by lia. now rewrite Bool.andb_true_r.
    - rewrite Z.ones_spec_high by lia. rewrite Bool.andb_false_r.
      assert (Ta : Z.testbit a n = false).
      { destruct (Z.eq_dec a 0) as [->|Na]; [apply Z.bits_0|].
        apply Z.bits_above_log2; [lia|].
        assert (Z.log2 a < 8) by (apply Z.log2_lt_pow2; lia). lia. }
      assert (Tb : Z.testbit b n = false).
      { destruct (Z.eq_dec b 0) as [->|Nb]; [apply Z.bits_0|].
        apply Z.bits_above_log2; [lia|].
        assert (Z.log2 b < 8) by (apply Z.log2_lt_pow2; lia). lia. }
      now rewrite Ta, Tb. }
  pose proof (Z.mod_pos_bound (Z.lxor a b) (2 ^ 8) ltac:(lia)). lia.
Qed.

Lemma cipher_bytes (ks : list Z -> list Z -> nat -> nat -> Z)
      (c : cf_chacha20_ctx) (input : list Z) :
  (forall k n m i, 0 <= ks k n m i <= 255) -> limbs_le 255 input ->
  limbs_le 255 (snd (cf_chacha20_cipher ks c input)).
Proof.
  intros Hks Hin. cbn [cf_chacha20_cipher snd].
  apply Forall_forall. intros v Hv. apply in_map_iff in Hv.
  destruct Hv as (i & <- & _).
  apply lxor_byte; [|apply Hks]. apply limbs_le_nth; [exact Hin|lia].
Qed.

Lemma init_firstn (r_ s_ : list Z) :
  cf_poly1305_init r_ s_ = cf_poly1305_init (firstn 16 r_) s_.
Proof.
  unfold cf_poly1305_init. rewrite !nth_firstn. reflexivity.
Qed.

(** The tag of [cf_chacha20poly1305_encrypt] is the Poly1305 polynomial,
    under the one-time key drawn from key stream bytes 0..31, of the
    padded associated data, the padded ciphertext and the two lengths. *)
Theorem chacha20poly1305_tag_is_poly1305
    (ks : list Z -> list Z -> nat -> nat -> Z)
    (key_ nonce_ header plaintext cbuf tbuf : list Z) :
  (forall k n m i, 0 <= ks k n m i <= 255) ->
  limbs_le 255 header -> limbs_le 255 plaintext ->
  exists e,
    cf_chacha20poly1305_encrypt ks key_ nonce_ header plaintext cbuf tbuf
    = Some e
    /\ let pk := one_time_key ks key_ nonce_ in
       let c := firstn (length plaintext) (output e) in
       length pk = 32%nat
       /\ value (firstn 16 (tag e))
          = poly1305_mac (firstn 16 pk) (skipn 16 pk)
              (header ++ repeat 0 (PADLEN (length header))
               ++ c ++ repeat 0 (PADLEN (length c))
               ++ write64_le (u64 (Z.of_nat (length header)))
               ++ write64_le (u64 (Z.of_nat (length c)))).
Proof.
  intros Hks Bh Bp. unfold cf_chacha20poly1305_encrypt.
  pose proof (process_encrypt_eq ks key_ nonce_ header plaintext cbuf tbuf)
    as E.
  cbv zeta in E. eexists. split; [exact E|]. cbv zeta. cbn [output tag].
  set (pk := one_time_key ks key_ nonce_).
  set (x := payload_xor ks key_ nonce_ plaintext).
  assert (Nx : length x = length plaintext) by apply cipher_length.
  assert (Bx : limbs_le 255 x) by (apply cipher_bytes; assumption).
  assert (Npk : length pk = 32%nat).
  { unfold pk, one_time_key. rewrite cipher_length. apply repeat_length. }
  assert (Bpk : limbs_le 255 pk).
  { apply cipher_bytes; [exact Hks|]. apply limbs_le_repeat0. lia. }
  split; [exact Npk|].
  rewrite <- Nx, memcpy_at_0_firstn.
  destruct (mac_tag_bytes ks key_ nonce_ header x) as (Nt & _).
  rewrite <- Nt, memcpy_at_0_firstn.
  unfold mac_tag. fold pk. rewrite init_firstn.
  assert (Hchunks : Forall (limbs_le 255) (mac_chunks header x)).
  { unfold mac_chunks.
    destruct (write64_le_spec (u64 (Z.of_nat (length header))))
      as (_ & B1 & _); [unfold u64; apply Z.mod_pos_bound; lia|].
    destruct (write64_le_spec (u64 (Z.of_nat (length x))))
      as (_ & B2 & _); [unfold u64; apply Z.mod_pos_bound; lia|].
    repeat (constructor; [first [assumption
                                | apply limbs_le_repeat0; lia
                                | now apply limbs_le_app]|]).
    constructor. }
  destruct (poly1305_mac_value (firstn 16 pk) (skipn 16 pk)
              (mac_chunks header x)
              ltac:(rewrite length_firstn; lia)
              (limbs_le_firstn _ _ _ Bpk)
              ltac:(rewrite length_skipn; lia)
              (limbs_le_skipn _ _ _ Bpk) Hchunks)
    as (ctx & Eu & _ & _ & V).
  rewrite Eu, V. unfold mac_chunks. cbn [concat].
  rewrite app_nil_r. reflexivity.
Qed.

Lemma toy_ks_bytes (k n : list Z) (m i : nat) :
  0 <= TestData.toy_ks k n m i <= 255.
Proof.
  unfold TestData.toy_ks, u8.
  pose proof (Z.mod_pos_bound
                (nth (i mod 32) k 0 + 5 * nth (i mod 16) n 0 + Z.of_nat i)
                (2 ^ 8) ltac:(lia)).
  lia.
Defined.

Lemma aad5_bytes : limbs_le 255 TestData.aad5.
Proof.
  unfold limbs_le, TestData.aad5. repeat (constructor; [lia|]). constructor.
Defined.

Lemma msg20_bytes : limbs_le 255 TestData.msg20.
Proof.
  unfold limbs_le, TestData.msg20. apply Forall_forall. intros v Hv.
  apply in_map_iff in Hv. destruct Hv as (i & <- & Hi).
  apply in_seq in Hi. lia.
Defined.

Lemma chacha20poly1305_tag_witness :
  exists e,
    cf_chacha20poly1305_encrypt TestData.toy_ks TestData.key32
      TestData.nonce12 TestData.aad5 TestData.msg20 (repeat 0 20)
      (repeat 0 16) = Some e
    /\ length (one_time_key TestData.toy_ks TestData.key32 TestData.nonce12)
       = 32%nat.
Proof.
  destruct (chacha20poly1305_tag_is_poly1305 TestData.toy_ks TestData.key32
              TestData.nonce12 TestData.aad5 TestData.msg20 (repeat 0 20)
              (repeat 0 16) toy_ks_bytes aad5_bytes msg20_bytes)
    as (e & E & H).
  exists e. split; [exact E|]. cbv zeta in H. exact (proj1 H).
Defined.

(** [PADLEN] completes a length to the next multiple of 16. *)
Theorem PADLEN_is_pad_to_16 (x : nat) :
  PADLEN x = ((16 - x mod 16) mod 16)%nat
  /\ ((x + PADLEN x) mod 16 = 0)%nat
  /\ (PADLEN x < 16)%nat.
Proof.
  destruct (PADLEN_spec x) as (H1 & H2 & _). split; [|split; assumption].
  pose proof (Nat.mod_upper_bound x 16 ltac:(lia)) as Hx.
  pose proof (Nat.div_mod_eq x 16) as Hd.
  pose proof (Nat.div_mod_eq (x + PADLEN x) 16) as Hd2.
  rewrite H2 in Hd2.
  destruct (Nat.eq_dec (x mod 16) 0) as [E0|N0].
  - rewrite E0. cbn [Nat.sub]. rewrite Nat.Div0.mod_same. lia.
  - rewrite (Nat.mod_small (16 - x mod 16) 16) by lia. lia.
Qed.

(** [cf_chacha20poly1305_decrypt] accepts exactly the tag the MAC pass
    computes over the received ciphertext: it returns SUCCESS if and only if
    the first 16 bytes of the supplied tag are that tag; then the output is
    the ciphertext XOR the key stream, otherwise the output is erased. *)
Theorem chacha20poly1305_decrypt_accepts_iff
    (ks : list Z -> list Z -> nat -> nat -> Z)
    (key_ nonce_ header ciphertext tag_ pbuf : list Z) :
  limbs_le 255 tag_ -> (16 <= length tag_)%nat ->
  exists d,
    cf_chacha20poly1305_decrypt ks key_ nonce_ header ciphertext tag_ pbuf
    = Some d
    /\ (ret d = SUCCESS \/ ret d = FAILURE)
    /\ (ret d = SUCCESS
        <-> firstn 16 tag_ = mac_tag ks key_ nonce_ header ciphertext)
    /\ (ret d = SUCCESS ->
        output d = memcpy_at pbuf 0 (payload_xor ks key_ nonce_ ciphertext))
    /\ (ret d = FAILURE ->
        output d = mem_clean pbuf (length ciphertext)).
Proof.
  intros Bt Lt. unfold cf_chacha20poly1305_decrypt.
  assert (Ho : memcpy_at (repeat 0 16) 0 (firstn 16 tag_) = firstn 16 tag_).
  { assert (N16 : length (firstn 16 tag_) = 16%nat)
      by (rewrite length_firstn; lia).
    remember (firstn 16 tag_) as t16 eqn:Ht16. clear Ht16.
    unfold memcpy_at. cbn [firstn app Nat.add]. rewrite N16.
    cbn [skipn repeat]. apply app_nil_r. }
  rewrite Ho.
  set (t := mac_tag ks key_ nonce_ header ciphertext).
  destruct (mac_tag_bytes ks key_ nonce_ header ciphertext) as (Nt & Bt').
  fold t in Nt, Bt'.
  assert (Hiff : mem_eq t (firstn 16 tag_) 16 = 1 <-> firstn 16 tag_ = t).
  { pose proof (mem_eq_bytes t (firstn 16 tag_) 16 Bt'
                  (limbs_le_firstn _ _ _ Bt) ltac:(lia)
                  ltac:(rewrite length_firstn; lia)) as Hb.
    rewrite (firstn_all2 t) in Hb by lia.
    rewrite firstn_firstn, Nat.min_id in Hb.
    split; intros Hx; [symmetry; now apply Hb|apply Hb; now symmetry]. }
  destruct (mem_eq_spec t (firstn 16 tag_) 16) as ([H1|H0] & _).
  - eexists. split;
      [exact (process_decrypt_match ks key_ nonce_ header ciphertext pbuf
                (firstn 16 tag_) H1)|].
    cbn [ret output]. split; [now left|]. split.
    + split; [intros _; now apply Hiff|reflexivity].
    + split; [reflexivity|]. unfold SUCCESS, FAILURE. discriminate.
  - eexists. split;
      [exact (process_decrypt_mismatch ks key_ nonce_ header ciphertext pbuf
                (firstn 16 tag_) H0)|].
    cbn [ret output]. split; [now right|]. split.
    + split; [unfold SUCCESS, FAILURE; discriminate|].
      intros Hx. apply Hiff in Hx. congruence.
    + split; [unfold SUCCESS, FAILURE; discriminate|reflexivity].
Qed.

Lemma chacha20poly1305_decrypt_witness :
  exists d,
    cf_chacha20poly1305_decrypt TestData.toy_ks TestData.key32
      TestData.nonce12 TestData.aad5 TestData.msg20 TestData.block16
      (repeat 0 20) = Some d
    /\ (ret d = SUCCESS \/ ret d = FAILURE).
Proof.
  assert (Lt : (16 <= length TestData.block16)%nat)
    by (cbn [length TestData.block16]; lia).
  destruct (chacha20poly1305_decrypt_accepts_iff TestData.toy_ks
              TestData.key32 TestData.nonce12 TestData.aad5 TestData.msg20
              TestData.block16 (repeat 0 20) block16_bytes Lt)
    as (d & E & H & _).
  exists d. split; [exact E|exact H].
Defined.

(** ** GHASH and GCM *)

Module GhashFacts.
Import GCM GcmSpec GcmFacts GhashSpec.
Section Facts.
Context {E : capabilities}.

Local Abbreviation ghash_ctx := (@ghash_ctx E).
Local Abbreviation ghash_init := (@ghash_init E).
Local Abbreviation GB c Yv d :=
  (ghash_blocks (length d) (gf128_mul c) (H c) Yv d).

Lemma ghash_blocks_fuel (f1 : nat) :
  forall f2 mul (Hk Yv : gf128 E) data,
    (length data <= f1)%nat -> (length data <= f2)%nat ->
    ghash_blocks f1 mul Hk Yv data = ghash_blocks f2 mul Hk Yv data.
Proof.
  induction f1 as [|f1 IH]; intros [|f2] mul Hk Yv [|x data] H1 H2;
    cbn [length] in *; try lia; try reflexivity.
  cbn [ghash_blocks]. apply IH; rewrite length_skipn; cbn [length]; lia.
Qed.

Lemma ghash_blocks_step mul (Hk Yv : gf128 E) (data : list Z) :
  (0 < length data)%nat ->
  ghash_blocks (length data) mul Hk Yv data
  = ghash_blocks (length (skipn 16 data)) mul Hk
      (ghash_Y_step mul Hk Yv
         (firstn 16 data ++ repeat 0 (16 - length (firstn 16 data))))
      (skipn 16 data).
Proof.
  intros Hlen. destruct data as [|x data]; [cbn in Hlen; lia|].
  cbn [length ghash_blocks]. apply ghash_blocks_fuel.
  - rewrite length_skipn. cbn [length]. lia.
  - lia.
Qed.

Lemma run_blocks_ghash (n : nat) :
  forall data (ctx : ghash_ctx), (length data <= n)%nat ->
  forall rest,
    GB ctx (Y ctx) (data ++ rest)
    = GB ctx (Y (snd (run_blocks ghash_block 16 data ctx)))
        (fst (run_blocks ghash_block 16 data ctx) ++ rest).
Proof.
  induction n as [|n IH]; intros data ctx Hn rest.
  - destruct data; [|cbn in Hn; lia].
    rewrite run_blocks_short by (cbn; lia). reflexivity.
  - destruct (Nat.lt_ge_cases (length data) 16) as [Hs|Hl].
    + rewrite run_blocks_short by (lia || exact Hs). reflexivity.
    + rewrite run_blocks_step by (lia || exact Hl).
      assert (H16 : length (firstn 16 data) = 16%nat)
        by (rewrite length_firstn; lia).
      specialize (IH (skipn 16 data) (ghash_block ctx (firstn 16 data))
                    ltac:(rewrite length_skipn; lia) rest).
      cbn [ghash_block H gf128_mul Y] in IH. rewrite <- IH.
      rewrite ghash_blocks_step by (rewrite length_app; lia).
      rewrite firstn_app, skipn_app.
      replace (16 - length data)%nat with 0%nat by lia.
      rewrite firstn_O, skipn_O, app_nil_r, H16. cbn [Nat.sub repeat].
      rewrite app_nil_r. reflexivity.
Qed.

Lemma ghash_add_Y (ctx : ghash_ctx) (buf : list Z) :
  length (buffer ctx) = 16%nat -> (buffer_used ctx < 16)%nat ->
  exists ctx',
    ghash_add ctx buf = Some ctx'
    /\ length (buffer ctx') = 16%nat /\ (buffer_used ctx' < 16)%nat
    /\ same_frame ctx ctx'
    /\ forall rest,
         GB ctx (Y ctx) ((gpending ctx ++ buf) ++ rest)
         = GB ctx (Y ctx') (gpending ctx' ++ rest).
Proof.
  intros Nb Hu.
  destruct (ghash_add_spec ctx buf Nb Hu) as (c' & Ea & Nb' & Hu' & F & R).
  exists c'. split; [exact Ea|]. split; [exact Nb'|]. split; [exact Hu'|].
  split; [exact F|]. intros rest.
  pose proof (f_equal fst R) as R1. pose proof (f_equal snd R) as R2.
  cbn [fst snd] in R1, R2. unfold gpending. rewrite R1, R2.
  apply (run_blocks_ghash _ _ ctx (Nat.le_refl _)).
Qed.

Lemma ghash_add_pad_Y (ctx : ghash_ctx) :
  length (buffer ctx) = 16%nat -> (buffer_used ctx < 16)%nat ->
  Y (ghash_add_pad ctx) = GB ctx (Y ctx) (gpending ctx).
Proof.
  intros Nb Hu.
  destruct (ghash_add_pad_spec ctx Nb Hu) as (_ & _ & _ & HY).
  rewrite HY.
  assert (Hl : length (gpending ctx) = buffer_used ctx)
    by (unfold gpending; rewrite length_firstn; lia).
  destruct (Nat.eqb_spec (buffer_used ctx) 0) as [E0|N0].
  - rewrite Hl, E0. reflexivity.
  - rewrite ghash_blocks_step by lia.
    rewrite (skipn_all2 (n:=16)) by lia.
    rewrite (firstn_all2 (n:=16)) by lia.
    cbn [length ghash_blocks]. rewrite Hl. reflexivity.
Qed.

Lemma u64_add_idemp (a b : Z) : u64 (u64 a + b) = u64 (a + b).
Proof. unfold u64. now rewrite Z.add_mod_idemp_l by lia. Qed.

Lemma u64_mul8 (a : Z) : u64 (u64 a * 8) = u64 (8 * a).
Proof.
  unfold u64. rewrite Z.mul_mod_idemp_l by lia. now rewrite Z.mul_comm.
Qed.

Lemma u64_mul8_congr (a b : Z) : u64 a = u64 b -> u64 (a * 8) = u64 (8 * b).
Proof.
  unfold u64. intros Hab.
  rewrite <- Z.mul_mod_idemp_l, Hab, Z.mul_mod_idemp_l by lia.
  now rewrite Z.mul_comm.
Qed.

Lemma ghash_add_aad_Y (ctx : ghash_ctx) (buf : list Z) :
  gshape ctx -> state ctx = STATE_AAD ->
  exists ctx',
    ghash_add_aad ctx buf = Some ctx'
    /\ gshape ctx' /\ state ctx' = STATE_AAD
    /\ H ctx' = H ctx /\ gf128_mul ctx' = gf128_mul ctx
    /\ len_aad ctx' = u64 (len_aad ctx + Z.of_nat (length buf))
    /\ len_cipher ctx' = len_cipher ctx
    /\ forall rest,
         GB ctx (Y ctx) ((gpending ctx ++ buf) ++ rest)
         = GB ctx (Y ctx') (gpending ctx' ++ rest).
Proof.
  intros (Nb & Hu & _) Est. unfold ghash_add_aad. rewrite Est.
  cbn [state_eqb negb].
  match goal with |- context [ghash_add ?c buf] =>
    destruct (ghash_add_Y c buf Nb Hu)
      as (c' & Ea & Nb' & Hu' & (F1 & F2 & F3 & F4 & F5) & R)
  end.
  exists c'. cbn [H gf128_mul state len_aad len_cipher Y] in *.
  split; [exact Ea|]. split.
  { split; [exact Nb'|]. split; [exact Hu'|].
    intros Ei. rewrite F3 in Ei. discriminate Ei. }
  repeat (split; [assumption|]). exact R.
Qed.

Lemma ghash_add_cipher_Y (ctx : ghash_ctx) (buf : list Z) :
  gshape ctx -> state ctx = STATE_CIPHER ->
  exists ctx',
    ghash_add_cipher ctx buf = Some ctx'
    /\ gshape ctx' /\ state ctx' = STATE_CIPHER
    /\ H ctx' = H ctx /\ gf128_mul ctx' = gf128_mul ctx
    /\ len_aad ctx' = len_aad ctx
    /\ len_cipher ctx' = u64 (len_cipher ctx + Z.of_nat (length buf))
    /\ forall rest,
         GB ctx (Y ctx) ((gpending ctx ++ buf) ++ rest)
         = GB ctx (Y ctx') (gpending ctx' ++ rest).
Proof.
  intros (Nb & Hu & _) Est. unfold ghash_add_cipher. rewrite Est.
  cbn [state_eqb negb]. rewrite Est. cbn [state_eqb negb].
  match goal with |- context [ghash_add ?c buf] =>
    destruct (ghash_add_Y c buf Nb Hu)
      as (c' & Ea & Nb' & Hu' & (F1 & F2 & F3 & F4 & F5) & R)
  end.
  exists c'. cbn [H gf128_mul state len_aad len_cipher Y] in *.
  split; [exact Ea|]. split.
  { split; [exact Nb'|]. split; [exact Hu'|].
    intros Ei. rewrite F3 in Ei. discriminate Ei. }
  repeat (split; [assumption|]). exact R.
Qed.

Lemma aad_phase (aads : list (list Z)) :
  forall ctx : ghash_ctx,
  gshape ctx -> state ctx = STATE_AAD ->
  exists ctx',
    ghash_run ctx (map OpAad aads) = Some ctx'
    /\ gshape ctx' /\ state ctx' = STATE_AAD
    /\ H ctx' = H ctx /\ gf128_mul ctx' = gf128_mul ctx
    /\ u64 (len_aad ctx')
       = u64 (len_aad ctx + Z.of_nat (length (concat aads)))
    /\ len_cipher ctx' = len_cipher ctx
    /\ forall rest,
         GB ctx (Y ctx) ((gpending ctx ++ concat aads) ++ rest)
         = GB ctx (Y ctx') (gpending ctx' ++ rest).
Proof.
  induction aads as [|a aads IH]; intros ctx Hs Est.
  - exists ctx. cbn [map ghash_run concat length].
    rewrite Z.add_0_r, app_nil_r. repeat (split; [auto; fail|]). auto.
  - destruct (ghash_add_aad_Y ctx a Hs Est)
      as (c1 & E1 & S1 & St1 & H1 & M1 & L1 & C1 & R1).
    destruct (IH c1 S1 St1) as (c2 & E2 & S2 & St2 & H2 & M2 & L2 & C2 & R2).
    exists c2. cbn [map ghash_run ghash_step concat]. rewrite E1.
    split; [exact E2|]. split; [exact S2|]. split; [exact St2|].
    split; [congruence|]. split; [congruence|]. split.
    { rewrite L2, L1, u64_add_idemp, length_app, Nat2Z.inj_add.
      f_equal. lia. }
    split; [congruence|]. intros rest.
    specialize (R2 rest). rewrite H1, M1 in R2. rewrite <- R2.
    rewrite <- (app_assoc (gpending c1)).
    rewrite <- (R1 (concat aads ++ rest)).
    rewrite <- !app_assoc. reflexivity.
Qed.

Lemma cipher_phase (cs : list (list Z)) :
  forall ctx : ghash_ctx,
  gshape ctx -> state ctx = STATE_CIPHER ->
  exists ctx',
    ghash_run ctx (map OpCipher cs) = Some ctx'
    /\ gshape ctx' /\ state ctx' = STATE_CIPHER
    /\ H ctx' = H ctx /\ gf128_mul ctx' = gf128_mul ctx
    /\ len_aad ctx' = len_aad ctx
    /\ u64 (len_cipher ctx')
       = u64 (len_cipher ctx + Z.of_nat (length (concat cs)))
    /\ forall rest,
         GB ctx (Y ctx) ((gpending ctx ++ concat cs) ++ rest)
         = GB ctx (Y ctx') (gpending ctx' ++ rest).
Proof.
  induction cs as [|a cs IH]; intros ctx Hs Est.
  - exists ctx. cbn [map ghash_run concat length].
    rewrite Z.add_0_r, app_nil_r. repeat (split; [auto; fail|]). auto.
  - destruct (ghash_add_cipher_Y ctx a Hs Est)
      as (c1 & E1 & S1 & St1 & H1 & M1 & L1 & C1 & R1).
    destruct (IH c1 S1 St1) as (c2 & E2 & S2 & St2 & H2 & M2 & L2 & C2 & R2).
    exists c2. cbn [map ghash_run ghash_step concat]. rewrite E1.
    split; [exact E2|]. split; [exact S2|]. split; [exact St2|].
    split; [congruence|]. split; [congruence|]. split; [congruence|]. split.
    { rewrite C2, C1, u64_add_idemp, length_app, Nat2Z.inj_add.
      f_equal. lia. }
    intros rest.
    specialize (R2 rest). rewrite H1, M1 in R2. rewrite <- R2.
    rewrite <- (app_assoc (gpending c1)).
    rewrite <- (R1 (concat cs ++ rest)).
    rewrite <- !app_assoc. reflexivity.
Qed.

Lemma to_cipher_phase (ctx : ghash_ctx) :
  gshape ctx -> state ctx = STATE_AAD ->
  let c1 := set_state (ghash_add_pad ctx) STATE_CIPHER in
  gshape c1 /\ state c1 = STATE_CIPHER /\ gpending c1 = []
  /\ Y c1 = GB ctx (Y ctx) (gpending ctx)
  /\ H c1 = H ctx /\ gf128_mul c1 = gf128_mul ctx
  /\ len_aad c1 = len_aad ctx /\ len_cipher c1 = len_cipher ctx
  /\ (forall buf, ghash_add_cipher ctx buf = ghash_add_cipher c1 buf)
  /\ ghash_final ctx = ghash_final c1.
Proof.
  intros Hs Est. pose proof Hs as (Nb & Hu & _). cbv zeta.
  destruct (ghash_add_pad_spec ctx Nb Hu)
    as (Nb' & Hu' & (F1 & F2 & F3 & F4 & F5) & _).
  pose proof (ghash_add_pad_Y ctx Nb Hu) as HY.
  cbn [set_state state H gf128_mul len_aad len_cipher Y].
  split.
  { split; [exact Nb'|]. split; [cbn [set_state buffer_used]; lia|].
    cbn [set_state state]. discriminate. }
  split; [reflexivity|]. split.
  { unfold gpending. cbn [set_state buffer_used buffer]. now rewrite Hu'. }
  split; [exact HY|]. repeat (split; [assumption|]). split.
  - intros buf. apply (proj1 (ghash_add_cipher_spec ctx buf Hs) Est).
  - assert (Hp : ghash_add_pad (set_state (ghash_add_pad ctx) STATE_CIPHER)
                 = set_state (ghash_add_pad ctx) STATE_CIPHER).
    { unfold ghash_add_pad at 1. cbn [set_state buffer_used].
      rewrite Hu'. reflexivity. }
    unfold ghash_final. rewrite Est.
    cbn [state_eqb orb set_state state]. rewrite Hp. reflexivity.
Qed.

Lemma ghash_final_Y (ctx : ghash_ctx) :
  gshape ctx -> state ctx = STATE_CIPHER ->
  exists ctx',
    ghash_final ctx = Some (ctx', cf_gf128_tobytes_be E (Y ctx'))
    /\ state ctx' = STATE_INVALID
    /\ Y ctx'
       = GB ctx (GB ctx (Y ctx) (gpending ctx))
           (write64_be (u64 (len_aad ctx * 8))
            ++ write64_be (u64 (len_cipher ctx * 8))).
Proof.
  intros Hs Est. pose proof Hs as (Nb & Hu & _).
  destruct (ghash_final_spec ctx Hs)
    as (c' & Ef & _ & St & _ & _ & _ & _ & HY).
  exists c'. split; [exact Ef|]. split; [exact St|].
  rewrite HY, Est. cbn [state_eqb].
  rewrite (ghash_add_pad_Y ctx Nb Hu).
  rewrite (ghash_blocks_step _ _ _ (write64_be _ ++ write64_be _))
    by (rewrite length_app, !write64_be_length; lia).
  rewrite (skipn_all2 (n:=16))
    by (rewrite length_app, !write64_be_length; lia).
  rewrite (firstn_all2 (n:=16))
    by (rewrite length_app, !write64_be_length; lia).
  rewrite length_app, !write64_be_length.
  cbn [length ghash_blocks Nat.add Nat.sub repeat].
  rewrite app_nil_r. reflexivity.
Qed.

Lemma ghash_init_mul (H_ : list Z) :
  gf128_mul (ghash_init H_) = ghash_mul
  /\ H (ghash_init H_) = cf_gf128_frombytes_be E H_
  /\ Y (ghash_init H_) = gf128_zero E
  /\ gpending (ghash_init H_) = []
  /\ len_aad (ghash_init H_) = 0 /\ len_cipher (ghash_init H_) = 0.
Proof. repeat split. Qed.

Lemma ghash_run_fold (H_ : list Z) (aads cs : list (list Z)) :
  exists ctx : ghash_ctx,
    ghash_run (ghash_init H_) (map OpAad aads ++ map OpCipher cs ++ [OpFinal])
    = Some ctx
    /\ state ctx = STATE_INVALID
    /\ Y ctx
       = ghash_value ghash_mul (cf_gf128_frombytes_be E H_)
           (concat aads) (concat cs).
Proof.
  destruct (ghash_init_shape (E:=E) H_) as (S0 & St0).
  destruct (ghash_init_mul H_) as (M0 & H0 & Y0 & P0 & LA0 & LC0).
  destruct (aad_phase aads (ghash_init H_) S0 St0)
    as (c1 & E1 & S1 & St1 & H1 & M1 & L1 & C1 & R1).
  destruct (to_cipher_phase c1 S1 St1)
    as (S2 & St2 & P2 & Y2 & H2 & M2 & L2 & C2 & A2 & F2).
  set (c2 := set_state (ghash_add_pad c1) STATE_CIPHER) in *.
  destruct (cipher_phase cs c2 S2 St2)
    as (c3 & E3 & S3 & St3 & H3 & M3 & L3 & C3 & R3).
  destruct (ghash_final_Y c3 S3 St3) as (c4 & E4 & St4 & Y4).
  exists c4. rewrite ghash_run_app, E1.
  assert (Erun : ghash_run c1 (map OpCipher cs ++ [OpFinal])
                 = ghash_run c2 (map OpCipher cs ++ [OpFinal])).
  { destruct cs as [|c cs'];
      cbn [map app ghash_run ghash_step]; [now rewrite F2|now rewrite A2]. }
  rewrite Erun, ghash_run_app, E3. cbn [ghash_run ghash_step]. rewrite E4.
  split; [reflexivity|]. split; [exact St4|].
  rewrite Y4. unfold ghash_value, ghash_len_block.
  rewrite H3, M3, H2, M2, H1, M1, H0, M0.
  specialize (R3 []). rewrite P2, !app_nil_r in R3. cbn [app] in R3.
  rewrite H2, M2, H1, M1, H0, M0 in R3. rewrite <- R3, Y2.
  specialize (R1 []). rewrite P0, !app_nil_r in R1. cbn [app] in R1.
  rewrite H1, M1, H0, M0. rewrite H0, M0 in R1. rewrite <- R1, Y0.
  rewrite (u64_mul8_congr (len_aad c3) (Z.of_nat (length (concat aads))))
    by (rewrite L3, L2, L1, LA0; reflexivity).
  rewrite (u64_mul8_congr (len_cipher c3) (Z.of_nat (length (concat cs))))
    by (rewrite C3, C2, C1, LC0; reflexivity).
  reflexivity.
Qed.

(** However associated data and ciphertext are cut into calls, a GHASH
    context ends with the fold of the block step over the zero-padded
    associated data, the zero-padded ciphertext and the length block. *)
Theorem ghash_is_block_fold (H_ : list Z) (aads cs : list (list Z)) :
  exists ctx : ghash_ctx,
    ghash_run (ghash_init H_) (map OpAad aads ++ map OpCipher cs ++ [OpFinal])
    = Some ctx
    /\ state ctx = STATE_INVALID
    /\ Y ctx
       = ghash_value ghash_mul (cf_gf128_frombytes_be E H_)
           (concat aads) (concat cs).
Proof.
  destruct (ghash_init_shape (E:=E) H_) as (S0 & St0).
  destruct (ghash_init_mul H_) as (M0 & H0 & Y0 & P0 & LA0 & LC0).
  destruct (aad_phase aads (ghash_init H_) S0 St0)
    as (c1 & E1 & S1 & St1 & H1 & M1 & L1 & C1 & R1).
  destruct (to_cipher_phase c1 S1 St1)
    as (S2 & St2 & P2 & Y2 & H2 & M2 & L2 & C2 & A2 & F2).
  set (c2 := set_state (ghash_add_pad c1) STATE_CIPHER) in *.
  destruct (cipher_phase cs c2 S2 St2)
    as (c3 & E3 & S3 & St3 & H3 & M3 & L3 & C3 & R3).
  destruct (ghash_final_Y c3 S3 St3) as (c4 & E4 & St4 & Y4).
  exists c4. rewrite ghash_run_app, E1.
  assert (Erun : ghash_run c1 (map OpCipher cs ++ [OpFinal])
                 = ghash_run c2 (map OpCipher cs ++ [OpFinal])).
  { destruct cs as [|c cs'];
      cbn [map app ghash_run ghash_step]; [now rewrite F2|now rewrite A2]. }
  rewrite Erun, ghash_run_app, E3. cbn [ghash_run ghash_step]. rewrite E4.
  split; [reflexivity|]. split; [exact St4|].
  rewrite Y4. unfold ghash_value, ghash_len_block.
  rewrite H3, M3, H2, M2, H1, M1, H0, M0.
  specialize (R3 []). rewrite P2, !app_nil_r in R3. cbn [app] in R3.
  rewrite H2, M2, H1, M1, H0, M0 in R3. rewrite <- R3, Y2.
  specialize (R1 []). rewrite P0, !app_nil_r in R1. cbn [app] in R1.
  rewrite H1, M1, H0, M0. rewrite H0, M0 in R1. rewrite <- R1, Y0.
  rewrite (u64_mul8_congr (len_aad c3) (Z.of_nat (length (concat aads))))
    by (rewrite L3, L2, L1, LA0; reflexivity).
  rewrite (u64_mul8_congr (len_cipher c3) (Z.of_nat (length (concat cs))))
    by (rewrite C3, C2, C1, LC0; reflexivity).
  reflexivity.
Qed.

End Facts.
End GhashFacts.

Module GcmMore.
Import GCM GcmSpec GcmFacts GhashSpec GhashFacts.
Section More.
Context {E : capabilities}.

Local Abbreviation ghash_ctx := (@ghash_ctx E).
Local Abbreviation ghash_init := (@ghash_init E).
Local Abbreviation gcm_H := (@gcm_H E).
Local Abbreviation gcm_Y0 := (@gcm_Y0 E).
Local Abbreviation gcm_e_Y0 := (@gcm_e_Y0 E).
Local Abbreviation gcm_ctr0 := (@gcm_ctr0 E).
Local Abbreviation gcm_ctr1 := (@gcm_ctr1 E).
Local Abbreviation gcm_ctr_xor := (@gcm_ctr_xor E).
Local Abbreviation gcm_full_tag := (@gcm_full_tag E).
Local Abbreviation gcm_trace_prefix := (@gcm_trace_prefix E).
Local Abbreviation cf_ctr_cipher := (@cf_ctr_cipher E).
Local Abbreviation cf_gcm_encrypt := (@cf_gcm_encrypt E).
Local Abbreviation cf_gcm_decrypt := (@cf_gcm_decrypt E).
Local Abbreviation cf_aesgcm_encrypt := (@cf_aesgcm_encrypt E).
Local Abbreviation cf_aesgcm_decrypt := (@cf_aesgcm_decrypt E).
Local Abbreviation ghash_mul := (@ghash_mul E).

Lemma gcm_full_tag_fold (header c : list Z) :
  gcm_full_tag header c
  = cf_gf128_tobytes_be E
      (ghash_value ghash_mul (cf_gf128_frombytes_be E gcm_H) header c).
Proof.
  destruct (gcm_full_tag_total (E:=E) header c) as (g1 & g2 & g3 & E1 & E2 & E3).
  destruct (ghash_run_fold (E:=E) gcm_H [header] [c]) as (ctx & Er & _ & HY).
  cbn [map app ghash_run ghash_step concat] in Er, HY.
  rewrite !app_nil_r in HY.
  rewrite E1, E2, E3 in Er. injection Er as <-. rewrite <- HY.
  assert (S2 : gshape g2).
  { destruct (ghash_init_shape (E:=E) gcm_H) as (S0 & St0).
    destruct (proj1 (ghash_add_aad_spec _ header S0) St0)
      as (g1' & E1' & S1 & St1 & _).
    rewrite E1 in E1'. injection E1' as <-.
    destruct (ghash_add_cipher_spec g1 c S1) as (_ & Ha & _).
    destruct (Ha (or_introl St1)) as (g2' & E2' & S2 & _).
    rewrite E2 in E2'. injection E2' as <-. exact S2. }
  destruct (ghash_final_spec g2 S2) as (g3' & E3' & _).
  rewrite E3 in E3'.
  pose proof (f_equal (fun o => match o with
                                | Some (a, _) => Some a
                                | None => None
                                end) E3') as Ea.
  pose proof (f_equal (fun o => match o with
                                | Some (_, b) => b
                                | None => []
                                end) E3') as Eb.
  cbv beta iota in Ea, Eb. injection Ea as <-. exact Eb.
Qed.

(** The tag [cf_gcm_encrypt] emits is the first [ntag] bytes of
    GHASH(H, header, ciphertext) XOR E(Y0), with GHASH the block fold. *)
Theorem gcm_encrypt_tag_is_ghash_fold
    (plain header nonce_ cbuf tbuf : list Z) (ntag : nat) :
  (1 < ntag <= 16)%nat ->
  exists e,
    cf_gcm_encrypt plain header nonce_ cbuf tbuf ntag = Some e
    /\ let c := firstn (length plain) (enc_cipher e) in
       let g := cf_gf128_tobytes_be E
                  (ghash_value ghash_mul (cf_gf128_frombytes_be E gcm_H)
                     header c) in
       firstn ntag (enc_tag e)
       = map (fun i => Z.lxor (nth i g 0) (nth i (gcm_e_Y0 nonce_) 0))
             (seq 0 ntag).
Proof.
  intros Hn. eexists. split; [apply (gcm_encrypt_eq (E:=E) _ _ _ _ _ _ Hn)|].
  cbv zeta. cbn [enc_cipher enc_tag].
  assert (Nc : length (gcm_ctr_xor nonce_ plain) = length plain)
    by apply ctr_cipher_length.
  rewrite <- Nc, memcpy_at_0_firstn, <- gcm_full_tag_fold.
  apply xor_bb_firstn.
Qed.

(** GHASH depends on the bytes hashed, not on how they were cut into
    calls. *)
Theorem ghash_chunking_invariant (H_ : list Z)
    (aads aads' cs cs' : list (list Z)) :
  concat aads = concat aads' -> concat cs = concat cs' ->
  exists ctx ctx' : ghash_ctx,
    ghash_run (ghash_init H_) (map OpAad aads ++ map OpCipher cs ++ [OpFinal])
    = Some ctx
    /\ ghash_run (ghash_init H_)
         (map OpAad aads' ++ map OpCipher cs' ++ [OpFinal]) = Some ctx'
    /\ Y ctx = Y ctx'.
Proof.
  intros Ha Hc.
  destruct (ghash_run_fold (E:=E) H_ aads cs) as (c1 & E1 & _ & Y1).
  destruct (ghash_run_fold (E:=E) H_ aads' cs') as (c2 & E2 & _ & Y2).
  exists c1, c2. split; [exact E1|]. split; [exact E2|].
  rewrite Y1, Y2, Ha, Hc. reflexivity.
Qed.

(** Finalising a context a second time is not rejected: one more length
    block is hashed into the accumulator. *)
Theorem ghash_final_twice_accepted (H_ : list Z) (ops : list ghash_op)
    (ctx : ghash_ctx) :
  ghash_run (ghash_init H_) ops = Some ctx ->
  state ctx = STATE_INVALID ->
  exists ctx',
    ghash_final ctx = Some (ctx', cf_gf128_tobytes_be E (Y ctx'))
    /\ state ctx' = STATE_INVALID
    /\ Y ctx'
       = ghash_Y_step (gf128_mul ctx) (H ctx) (Y ctx)
           (write64_be (u64 (len_aad ctx * 8))
            ++ write64_be (u64 (len_cipher ctx * 8))).
Proof.
  intros Hrun Hst.
  destruct (ghash_init_shape (E:=E) H_) as (S0 & _).
  destruct (ghash_run_spec ops _ _ S0 Hrun) as (Hs & _).
  destruct (ghash_final_spec ctx Hs)
    as (c' & Ef & _ & St & _ & _ & _ & _ & HY).
  exists c'. split; [exact Ef|]. split; [exact St|].
  rewrite HY, Hst. reflexivity.
Qed.

Lemma ghash_step_key (ctx ctx' : ghash_ctx) (op : ghash_op) :
  gshape ctx -> ghash_step ctx op = Some ctx' ->
  H ctx' = H ctx /\ gf128_mul ctx' = gf128_mul ctx.
Proof.
  intros Hs Hstep. destruct op as [buf|buf|]; cbn [ghash_step] in Hstep.
  - destruct (ghash_add_aad_spec ctx buf Hs) as (Hy & Hn).
    destruct (state ctx) eqn:Est.
    + rewrite Hn in Hstep by discriminate. discriminate.
    + destruct (Hy eq_refl) as (c & Ec & _ & _ & K1 & K2 & _).
      rewrite Ec in Hstep. injection Hstep as <-. now split.
    + rewrite Hn in Hstep by discriminate. discriminate.
  - destruct (ghash_add_cipher_spec ctx buf Hs) as (_ & Hy & Hn).
    destruct (state ctx) eqn:Est.
    + rewrite Hn in Hstep by reflexivity. discriminate.
    + destruct (Hy (or_introl eq_refl)) as (c & Ec & _ & _ & K1 & K2 & _).
      rewrite Ec in Hstep. injection Hstep as <-. now split.
    + destruct (Hy (or_intror eq_refl)) as (c & Ec & _ & _ & K1 & K2 & _).
      rewrite Ec in Hstep. injection Hstep as <-. now split.
  - destruct (ghash_final_spec ctx Hs) as (c & Ec & _ & _ & K1 & K2 & _).
    rewrite Ec in Hstep. injection Hstep as <-. now split.
Qed.

(** The hash key and the multiplication chosen by [ghash_init] stay fixed
    for the life of a context. *)
Theorem ghash_key_and_dispatch_fixed (H_ : list Z) (ops : list ghash_op)
    (ctx : ghash_ctx) :
  ghash_run (ghash_init H_) ops = Some ctx ->
  H ctx = cf_gf128_frombytes_be E H_
  /\ gf128_mul ctx
     = (if supports_pclmulqdq E then cf_gf128_mul_fast E
        else cf_gf128_mul E).
Proof.
  destruct (ghash_init_shape (E:=E) H_) as (S0 & _).
  change (cf_gf128_frombytes_be E H_) with (H (ghash_init H_)).
  change (if supports_pclmulqdq E then cf_gf128_mul_fast E
          else cf_gf128_mul E) with (gf128_mul (ghash_init H_)).
  generalize dependent (ghash_init H_). revert ctx.
  induction ops as [|op ops IH]; intros ctx c0 S0 Hrun;
    cbn [ghash_run] in Hrun.
  - injection Hrun as <-. now split.
  - destruct (ghash_step c0 op) as [c1|] eqn:E1; [|discriminate].
    destruct (ghash_step_key c0 c1 op S0 E1) as (K1 & K2).
    destruct (ghash_step_spec c0 c1 op S0 E1) as (S1 & _).
    destruct (IH ctx c1 S1 Hrun) as (I1 & I2). split; congruence.
Qed.

Lemma gcm_decrypt_bad_ntag (cipher header nonce_ tag : list Z) (ntag : nat)
      (plain : list Z) :
  ~ (1 < ntag <= 16)%nat ->
  cf_gcm_decrypt cipher header nonce_ tag ntag plain = None.
Proof.
  intros Hntag. unfold cf_gcm_decrypt.
  fold gcm_H.
  rewrite gcm_Y0_branch. cbn [bind].
  destruct (gcm_full_tag_total (E:=E) header cipher)
    as (g1 & g2 & g3 & E1 & E2 & E3).
  rewrite E1. cbn [bind].
  unfold cf_ctr_custom_counter, cf_ctr_init.
  cbn [Nat.leb Nat.add negb bind GCM.nonce keymat nkeymat].
  fold (gcm_ctr0 nonce_).
  assert (P0 : cf_ctr_cipher (gcm_ctr0 nonce_) (repeat 0 16)
               = (gcm_ctr1 nonce_, gcm_e_Y0 nonce_))
    by (unfold gcm_ctr1, gcm_e_Y0; apply surjective_pairing).
  rewrite P0.
  rewrite E2. cbn [bind]. rewrite E3. cbn [bind].
  destruct (Nat.ltb_spec 1 ntag); destruct (Nat.leb_spec ntag 16);
    cbn [andb negb]; try reflexivity. lia.
Qed.

(** A tag length outside 2..16 trips the assertion of both entry points. *)
Theorem gcm_bad_tag_length_aborts
    (data header nonce_ buf tag : list Z) (ntag : nat) :
  (ntag <= 1 \/ 16 < ntag)%nat ->
  cf_gcm_encrypt data header nonce_ buf tag ntag = None
  /\ cf_gcm_decrypt data header nonce_ tag ntag buf = None.
Proof.
  intros Hn. split.
  - apply (gcm_encrypt_bad_ntag (E:=E)). lia.
  - apply gcm_decrypt_bad_ntag. lia.
Qed.

(** The ciphertext does not depend on the associated data, on the tag
    length or on the previous contents of the tag buffer. *)
Theorem gcm_ciphertext_independent_of_header
    (plain header header' nonce_ cbuf tbuf tbuf' : list Z)
    (ntag ntag' : nat) :
  (1 < ntag <= 16)%nat -> (1 < ntag' <= 16)%nat ->
  exists e e',
    cf_gcm_encrypt plain header nonce_ cbuf tbuf ntag = Some e
    /\ cf_gcm_encrypt plain header' nonce_ cbuf tbuf' ntag' = Some e'
    /\ enc_cipher e = enc_cipher e'
    /\ length (enc_cipher e)
       = Nat.max (length plain) (length cbuf).
Proof.
  intros Hn Hn'. eexists. eexists.
  split; [apply (gcm_encrypt_eq (E:=E) _ _ _ _ _ _ Hn)|].
  split; [apply (gcm_encrypt_eq (E:=E) _ _ _ _ _ _ Hn')|].
  cbn [enc_cipher]. split; [reflexivity|].
  unfold memcpy_at. cbn [firstn app Nat.add].
  rewrite length_app, length_skipn.
  assert (Nc : length (gcm_ctr_xor nonce_ plain) = length plain)
    by apply ctr_cipher_length.
  rewrite Nc. lia.
Qed.

Lemma mem_eq_ext_r (a b b' : list Z) (n : nat) :
  firstn n b = firstn n b' -> mem_eq a b n = mem_eq a b' n.
Proof.
  intros Hf.
  assert (Hext : forall i, (i < n)%nat -> nth i b 0 = nth i b' 0).
  { intros i Hi.
    pose proof (nth_firstn n b i 0) as B1.
    pose proof (nth_firstn n b' i 0) as B2.
    destruct (Nat.ltb_spec i n); [|lia]. congruence. }
  destruct (mem_eq_spec a b n) as ([H1|H0] & Hi);
    destruct (mem_eq_spec a b' n) as ([H1'|H0'] & Hi'); try congruence.
  - exfalso. assert (mem_eq a b' n = 1); [|congruence].
    apply Hi'. intros i Hlt. rewrite <- Hext by exact Hlt.
    now apply (proj1 Hi H1).
  - exfalso. assert (mem_eq a b n = 1); [|congruence].
    apply Hi. intros i Hlt. rewrite Hext by exact Hlt.
    now apply (proj1 Hi' H1').
Qed.

(** [cf_gcm_decrypt] reads only the first [ntag] bytes of the supplied
    tag. *)
Theorem gcm_decrypt_reads_ntag_tag_bytes
    (cipher header nonce_ tag tag' pbuf : list Z) (ntag : nat) :
  firstn ntag tag = firstn ntag tag' ->
  cf_gcm_decrypt cipher header nonce_ tag ntag pbuf
  = cf_gcm_decrypt cipher header nonce_ tag' ntag pbuf.
Proof.
  intros Hf.
  destruct (Nat.lt_ge_cases 1 ntag) as [H1|H1];
    [destruct (Nat.le_gt_cases ntag 16) as [H2|H2]|].
  - rewrite (gcm_decrypt_eq (E:=E) cipher header nonce_ tag ntag pbuf _
               (conj H1 H2) eq_refl).
    rewrite (gcm_decrypt_eq (E:=E) cipher header nonce_ tag' ntag pbuf _
               (conj H1 H2) eq_refl).
    rewrite <- Hf.
    rewrite <- (mem_eq_ext_r _ tag tag' ntag Hf). reflexivity.
  - rewrite !(gcm_decrypt_bad_ntag) by lia. reflexivity.
  - rewrite !(gcm_decrypt_bad_ntag) by lia. reflexivity.
Qed.

(** The AES-GCM wrappers use a 12-byte nonce and a 16-byte tag: the
    initial counter block is the first 12 bytes at [npub] followed by
    00 00 00 01, the GHASH branch for other nonce lengths is never taken
    (no nonce is hashed, in either direction), and decryption inverts
    encryption. *)
Theorem aesgcm_wrappers_round_trip (m ad npub cbuf tbuf pbuf : list Z) :
  (12 <= length npub)%nat ->
  exists e d,
    let Y0 := firstn 12 npub ++ [0; 0; 0; 1] in
    let c := firstn (length m) (enc_cipher e) in
    cf_aesgcm_encrypt cbuf tbuf m ad npub = Some e
    /\ In (CtrInit Y0) (enc_trace e)
    /\ cf_aesgcm_decrypt pbuf c (enc_tag e) ad npub = Some d
    /\ dec_err d = 0
    /\ firstn (length m) (dec_plain d) = m
    (* the calls of the encryption, in order *)
    /\ enc_trace e
       = [Subkey gcm_H; HashAad ad; CtrInit Y0;
          CtrTagOffset (gcm_e_Y0 (firstn 12 npub));
          CtrPayload m c; HashCipher c; HashFinal (gcm_full_tag ad c)]
    (* the nonce is never hashed *)
    /\ (forall n y, ~ In (NonceHash n y) (enc_trace e))
    /\ (forall n y, ~ In (NonceHash n y) (dec_trace d))
    /\ (forall y, In (CtrInit y) (enc_trace e) -> y = Y0)
    /\ (forall y, In (CtrInit y) (dec_trace d) -> y = Y0).
Proof.
  intros Hlen. unfold GCM.cf_aesgcm_encrypt, GCM.cf_aesgcm_decrypt,
    AESGCM_IV_SIZE, AESGCM_TAG_SIZE.
  assert (Hn : (1 < 16 <= 16)%nat) by lia.
  assert (N12 : length (firstn 12 npub) = 12%nat)
    by (rewrite length_firstn; lia).
  remember (firstn 12 npub) as n12 eqn:Hn12. clear Hn12.
  destruct (gcm_round_trip (E:=E) m ad n12 cbuf tbuf pbuf 16 Hn)
    as (e & d & Ee & Ed & Err & Hp).
  exists e, d. cbv zeta.
  assert (Hpre : forall hd, gcm_trace_prefix n12 hd
                 = [Subkey gcm_H; HashAad hd; CtrInit (n12 ++ [0; 0; 0; 1]);
                    CtrTagOffset (gcm_e_Y0 n12)]).
  { intros hd. unfold GcmSpec.gcm_trace_prefix, GcmSpec.gcm_Y0.
    rewrite N12. reflexivity. }
  pose proof (gcm_encrypt_eq (E:=E) m ad n12 cbuf tbuf 16 Hn) as Eq.
  cbv zeta in Eq. rewrite Ee in Eq.
  assert (Nc : length (gcm_ctr_xor n12 m) = length m)
    by apply ctr_cipher_length.
  assert (Hc : firstn (length m) (enc_cipher e) = gcm_ctr_xor n12 m).
  { pose proof (f_equal (fun o => match o with
                                  | Some x => enc_cipher x
                                  | None => []
                                  end) Eq) as Ec.
    cbv beta iota in Ec. cbn [enc_cipher] in Ec. rewrite Ec, <- Nc.
    apply memcpy_at_0_firstn. }
  assert (Htr : enc_trace e
                = [Subkey gcm_H; HashAad ad; CtrInit (n12 ++ [0; 0; 0; 1]);
                   CtrTagOffset (gcm_e_Y0 n12);
                   CtrPayload m (gcm_ctr_xor n12 m);
                   HashCipher (gcm_ctr_xor n12 m);
                   HashFinal (gcm_full_tag ad (gcm_ctr_xor n12 m))]).
  { pose proof (f_equal (fun o => match o with
                                  | Some x => enc_trace x
                                  | None => []
                                  end) Eq) as Et.
    cbv beta iota in Et. cbn [enc_trace] in Et.
    rewrite Et, Hpre. reflexivity. }
  assert (Hdt : exists tl,
            dec_trace d
            = [Subkey gcm_H; HashAad ad; CtrInit (n12 ++ [0; 0; 0; 1]);
               CtrTagOffset (gcm_e_Y0 n12)] ++ tl
            /\ forall ev, In ev tl ->
                 match ev with
                 | NonceHash _ _ => False
                 | CtrInit _ => False
                 | _ => True
                 end).
  { pose proof (gcm_decrypt_eq (E:=E) (firstn (length m) (enc_cipher e)) ad
                  n12 (enc_tag e) 16 pbuf _ Hn eq_refl) as Dq.
    cbv zeta in Dq. rewrite Ed in Dq.
    pose proof (f_equal (fun o => match o with
                                  | Some x => dec_trace x
                                  | None => []
                                  end) Dq) as Dt.
    cbv beta iota in Dt. rewrite Hpre in Dt.
    match type of Dt with
    | context [if ?b then _ else _] => destruct b
    end; cbn [dec_trace] in Dt; rewrite Dt;
      rewrite <- ?app_assoc; eexists; (split; [reflexivity|]);
      intros ev Hin; cbn [In app] in Hin;
      repeat (destruct Hin as [<- | Hin]; [exact I|]); contradiction. }
  destruct Hdt as (tl & Hdt & Htl).
  rewrite Hc.
  split; [exact Ee|]. split; [rewrite Htr; cbn [In]; auto|].
  split; [rewrite <- Hc; exact Ed|]. split; [exact Err|]. split; [exact Hp|].
  split; [exact Htr|]. split.
  { intros n y Hin. rewrite Htr in Hin. cbn [In] in Hin.
    repeat (destruct Hin as [Hin | Hin]; [discriminate Hin|]).
    exact Hin. }
  split.
  { intros n y Hin. rewrite Hdt in Hin. apply in_app_or in Hin.
    destruct Hin as [Hin | Hin].
    - cbn [In] in Hin.
      repeat (destruct Hin as [Hin | Hin]; [discriminate Hin|]).
      exact Hin.
    - exact (Htl _ Hin). }
  split.
  { intros y Hin. rewrite Htr in Hin. cbn [In] in Hin.
    repeat (destruct Hin as [Hin | Hin];
            [first [discriminate Hin | now injection Hin as <-]|]).
    contradiction. }
  intros y Hin. rewrite Hdt in Hin. apply in_app_or in Hin.
  destruct Hin as [Hin | Hin].
  - cbn [In] in Hin.
    repeat (destruct Hin as [Hin | Hin];
            [first [discriminate Hin | now injection Hin as <-]|]).
    contradiction.
  - exfalso. exact (Htl _ Hin).
Qed.

Lemma ghash_final_out (c c' : ghash_ctx) (out : list Z) :
  ghash_final c = Some (c', out) -> out = cf_gf128_tobytes_be E (Y c').
Proof.
  unfold ghash_final.
  match goal with |- context [ghash_add ?x ?l] =>
    destruct (ghash_add x l) as [c1|]; cbn [bind]; [|discriminate]
  end.
  match goal with |- context [ghash_add ?x ?l] =>
    destruct (ghash_add x l) as [c2|]; cbn [bind]; [|discriminate]
  end.
  destruct (negb (buffer_used c2 =? 0)%nat); [discriminate|].
  intros Heq. injection Heq as <- <-. reflexivity.
Qed.

(** For a nonce that is not 12 bytes long the initial counter block is the
    GHASH block fold of the nonce alone, hashed as ciphertext with empty
    associated data. *)
Theorem gcm_Y0_is_ghash_of_nonce (nonce_ : list Z) :
  length nonce_ <> 12%nat ->
  gcm_Y0 nonce_
  = cf_gf128_tobytes_be E
      (ghash_value ghash_mul (cf_gf128_frombytes_be E gcm_H) [] nonce_).
Proof.
  intros Hlen. unfold GcmSpec.gcm_Y0.
  destruct (Nat.eqb_spec (length nonce_) 12) as [|_]; [contradiction|].
  destruct (nonce_ghash_total (E:=E) nonce_) as (gh & gh' & E1 & E2 & _).
  destruct (ghash_run_fold (E:=E) gcm_H [] [nonce_]) as (ctx & Er & _ & HY).
  cbn [map app ghash_run ghash_step concat] in Er, HY.
  rewrite app_nil_r in HY. rewrite E1, E2 in Er.
  assert (Hctx : gh' = ctx) by congruence. subst ctx.
  rewrite <- HY. exact (ghash_final_out gh gh' _ E2).
Qed.

End More.
End GcmMore.

Module GcmMoreWitness.
Import GCM GcmSpec GcmFacts GhashSpec GhashFacts GcmMore.

Lemma gcm_encrypt_tag_witness :
  exists e,
    cf_gcm_encrypt (E:=TestData.toy) TestData.msg20 TestData.aad5
      TestData.nonce8 (repeat 0 20) (repeat 0 16) 12 = Some e.
Proof.
  assert (Hn : (1 < 12 <= 16)%nat) by lia.
  destruct (gcm_encrypt_tag_is_ghash_fold (E:=TestData.toy) TestData.msg20
              TestData.aad5 TestData.nonce8 (repeat 0 20) (repeat 0 16) 12
              Hn) as (e & Ee & _).
  exists e. exact Ee.
Defined.

Lemma ghash_chunking_witness :
  exists ctx ctx' : @ghash_ctx TestData.toy,
    ghash_run (ghash_init (E:=TestData.toy) TestData.block16)
      [OpAad TestData.aad5; OpCipher TestData.msg20; OpFinal] = Some ctx
    /\ ghash_run (ghash_init (E:=TestData.toy) TestData.block16)
         [OpAad [10; 20]; OpAad [30; 40; 50];
          OpCipher (firstn 17 TestData.msg20);
          OpCipher (skipn 17 TestData.msg20); OpFinal] = Some ctx'
    /\ Y ctx = Y ctx'.
Proof.
  exact (ghash_chunking_invariant (E:=TestData.toy) TestData.block16
           [TestData.aad5] [[10; 20]; [30; 40; 50]]
           [TestData.msg20]
           [firstn 17 TestData.msg20; skipn 17 TestData.msg20]
           eq_refl eq_refl).
Defined.

Lemma ghash_final_twice_witness :
  exists c1 c2 : @ghash_ctx TestData.toy,
    ghash_run (ghash_init (E:=TestData.toy) TestData.block16) [OpFinal]
    = Some c1
    /\ ghash_final c1 = Some (c2, cf_gf128_tobytes_be TestData.toy (Y c2)).
Proof.
  destruct (ghash_run (ghash_init (E:=TestData.toy) TestData.block16)
              [OpFinal]) as [c1|] eqn:Hrun; [|discriminate Hrun].
  assert (Hst : state c1 = STATE_INVALID)
    by (injection Hrun as <-; reflexivity).
  destruct (ghash_final_twice_accepted (E:=TestData.toy) TestData.block16
              [OpFinal] c1 Hrun Hst) as (c2 & Ef & _).
  exists c1, c2. split; [reflexivity|exact Ef].
Defined.

Lemma ghash_key_fixed_witness :
  exists c : @ghash_ctx TestData.toy,
    ghash_run (ghash_init (E:=TestData.toy) TestData.block16)
      [OpAad TestData.aad5; OpFinal] = Some c
    /\ H c = cf_gf128_frombytes_be TestData.toy TestData.block16.
Proof.
  destruct (ghash_run (ghash_init (E:=TestData.toy) TestData.block16)
              [OpAad TestData.aad5; OpFinal]) as [c|] eqn:Hrun;
    [|discriminate Hrun].
  exists c. split; [reflexivity|].
  exact (proj1 (ghash_key_and_dispatch_fixed (E:=TestData.toy)
                  TestData.block16 [OpAad TestData.aad5; OpFinal] c Hrun)).
Defined.

Lemma gcm_bad_tag_length_witness :
  cf_gcm_encrypt (E:=TestData.toy) TestData.msg20 TestData.aad5
    TestData.nonce12 (repeat 0 20) (repeat 0 16) 1 = None
  /\ cf_gcm_decrypt (E:=TestData.toy) TestData.msg20 TestData.aad5
       TestData.nonce12 (repeat 0 16) 1 (repeat 0 20) = None.
Proof.
  assert (Hn : (1 <= 1 \/ 16 < 1)%nat) by (left; lia).
  exact (gcm_bad_tag_length_aborts (E:=TestData.toy) TestData.msg20
           TestData.aad5 TestData.nonce12 (repeat 0 20) (repeat 0 16) 1 Hn).
Defined.

Lemma gcm_ciphertext_independent_witness :
  exists e e',
    cf_gcm_encrypt (E:=TestData.toy) TestData.msg20 TestData.aad5
      TestData.nonce12 (repeat 0 20) (repeat 0 16) 16 = Some e
    /\ cf_gcm_encrypt (E:=TestData.toy) TestData.msg20 TestData.block16
         TestData.nonce12 (repeat 0 20) (repeat 0 16) 4 = Some e'
    /\ enc_cipher e = enc_cipher e'.
Proof.
  assert (Hn : (1 < 16 <= 16)%nat) by lia.
  assert (Hn' : (1 < 4 <= 16)%nat) by lia.
  destruct (gcm_ciphertext_independent_of_header (E:=TestData.toy)
              TestData.msg20 TestData.aad5 TestData.block16
              TestData.nonce12 (repeat 0 20) (repeat 0 16) (repeat 0 16)
              16 4 Hn Hn') as (e & e' & E1 & E2 & Hc & _).
  exists e, e'. split; [exact E1|]. split; [exact E2|exact Hc].
Defined.

Lemma gcm_decrypt_reads_ntag_witness :
  cf_gcm_decrypt (E:=TestData.toy) TestData.msg20 TestData.aad5
    TestData.nonce12 TestData.block16 4 (repeat 0 20)
  = cf_gcm_decrypt (E:=TestData.toy) TestData.msg20 TestData.aad5
      TestData.nonce12 [0; 1; 2; 3; 99] 4 (repeat 0 20).
Proof.
  exact (gcm_decrypt_reads_ntag_tag_bytes (E:=TestData.toy) TestData.msg20
           TestData.aad5 TestData.nonce12 TestData.block16 [0; 1; 2; 3; 99]
           (repeat 0 20) 4 eq_refl).
Defined.

Lemma aesgcm_wrappers_witness :
  exists e d,
    cf_aesgcm_encrypt (E:=TestData.toy) (repeat 0 20) (repeat 0 16)
      TestData.msg20 TestData.aad5 TestData.block16 = Some e
    /\ cf_aesgcm_decrypt (E:=TestData.toy) (repeat 0 20)
         (firstn 20 (enc_cipher e)) (enc_tag e) TestData.aad5
         TestData.block16 = Some d
    /\ firstn 20 (dec_plain d) = TestData.msg20
    /\ (forall n y, ~ In (NonceHash n y) (enc_trace e)).
Proof.
  assert (Hl : (12 <= length TestData.block16)%nat)
    by (cbn [length TestData.block16]; lia).
  destruct (aesgcm_wrappers_round_trip (E:=TestData.toy) TestData.msg20
              TestData.aad5 TestData.block16 (repeat 0 20) (repeat 0 16)
              (repeat 0 20) Hl) as (e & d & H).
  cbv zeta in H.
  destruct H as (Ee & _ & Ed & _ & Hp & _ & Hno & _).
  exists e, d. split; [exact Ee|]. split; [exact Ed|].
  split; [exact Hp|exact Hno].
Defined.

Lemma gcm_Y0_witness :
  gcm_Y0 (E:=TestData.toy) TestData.nonce8
  = cf_gf128_tobytes_be TestData.toy
      (ghash_value (ghash_mul (E:=TestData.toy))
         (cf_gf128_frombytes_be TestData.toy (gcm_H (E:=TestData.toy)))
         [] TestData.nonce8).
Proof.
  assert (Hl : length TestData.nonce8 <> 12%nat)
    by (cbn [length TestData.nonce8]; lia).
  exact (gcm_Y0_is_ghash_of_nonce (E:=TestData.toy) TestData.nonce8 Hl).
Defined.

End GcmMoreWitness.
